(** * Retrieval-augmented chat backend: vector store and HTTP handlers

    A shallow embedding of [vector-store.ts] (chunking, embedding, ingestion
    and similarity search over the [documents] table), of the schema created
    by [db-init.ts], and of the five HTTP handlers registered in [index.ts].

    JavaScript strings are sequences of UTF-16 code units.  The handlers are
    asynchronous functions that call four outside parties (the embeddings
    API, the PostgreSQL pool, the conversational memory and the agent); they
    are written here in a state-and-exception monad over a [World] that holds
    the [documents] table and the log of outside calls made so far.  What an
    outside party answers is given by an [Env] of oracles that read that log,
    so that any answer, also a different one at each call, can be played.
    [console.log] and [console.error] lines are not modelled. *)

From Stdlib Require Import List Bool Arith ZArith NArith QArith Lia.
From Stdlib Require Import Ascii String DecimalString.
From Stdlib Require DecimalFacts DecimalN.
Import ListNotations.

Local Open Scope nat_scope.
Local Open Scope list_scope.

(** ** JavaScript strings *)

Module JS.

(** A string value: its UTF-16 code units, so that [length] is [.length]. *)
Definition jsstring := list N.

(** A string literal of the source, written with ASCII characters. *)
Definition lit (s : string) : jsstring :=
  map N_of_ascii (list_ascii_of_string s).

(** The line feed escape of the source's literals. *)
Definition LF : N := 10%N.

(** ECMAScript WhiteSpace and LineTerminator code points, the ones
    [String.prototype.trim] strips. All of them are single code units. *)
Definition isWhiteSpace (c : N) : bool :=
  (N.leb 9 c && N.leb c 13)            (* TAB, LF, VT, FF, CR *)
  || N.eqb c 32                        (* SPACE *)
  || N.eqb c 160                       (* NO-BREAK SPACE *)
  || N.eqb c 5760                      (* U+1680 *)
  || (N.leb 8192 c && N.leb c 8202)    (* U+2000 .. U+200A *)
  || N.eqb c 8232 || N.eqb c 8233      (* U+2028, U+2029 *)
  || N.eqb c 8239                      (* U+202F *)
  || N.eqb c 8287                      (* U+205F *)
  || N.eqb c 12288                     (* U+3000 *)
  || N.eqb c 65279.                    (* U+FEFF *)

Fixpoint trimStart (s : jsstring) : jsstring :=
  match s with
  | [] => []
  | c :: rest => if isWhiteSpace c then trimStart rest else s
  end.

Definition trimEnd (s : jsstring) : jsstring := rev (trimStart (rev s)).

(** [s.trim()] *)
Definition trim (s : jsstring) : jsstring := trimEnd (trimStart s).

(** Truthiness of a string: only the empty string is falsy. *)
Definition truthy (s : jsstring) : bool :=
  match s with [] => false | _ :: _ => true end.

(** [s.slice(0, n)] for a non-negative [n]. *)
Definition slice0 (n : nat) (s : jsstring) : jsstring := firstn n s.

(** [parts.join(sep)] *)
Fixpoint join (sep : jsstring) (parts : list jsstring) : jsstring :=
  match parts with
  | [] => []
  | [p] => p
  | p :: rest => p ++ sep ++ join sep rest
  end.

(** Interpolation of a non-negative integer: its decimal digits. *)
Definition String_of_N (n : N) : jsstring :=
  lit (NilZero.string_of_uint (N.to_uint n)).

(** [xs.map((x, idx) => f(x, idx))], the index counted from [start]. *)
Fixpoint mapi_from {A B} (start : nat) (f : A -> nat -> B) (xs : list A) : list B :=
  match xs with
  | [] => []
  | x :: rest => f x start :: mapi_from (S start) f rest
  end.

Definition mapi {A B} (f : A -> nat -> B) (xs : list A) : list B :=
  mapi_from 0 f xs.

End JS.

Import JS.

(** ** Errors and the monad of the asynchronous functions *)

Inductive Exn : Type :=
| JsError (message : jsstring)        (* throw new Error(message) *)
| PgError (sqlstate : string)         (* the database rejected the statement *)
| ProviderError (detail : jsstring)   (* the embeddings API call rejected *)
| MemoryError (detail : jsstring)     (* the conversational memory rejected *)
| AgentError (detail : jsstring).     (* agent.generateText rejected *)

Inductive Outcome (A : Type) : Type :=
| Returned (a : A)
| Thrown (e : Exn).
Arguments Returned {A} a.
Arguments Thrown {A} e.

(** ** Data of the vector store *)

(** A [number[]] embedding. Floating-point components are abstracted to
    rationals; no claim depends on rounding. *)
Definition Embedding := list Q.

(** A row of [documents] as [db-init.ts] declares the table:
    [id SERIAL PRIMARY KEY, content TEXT NOT NULL,
     embedding VECTOR(1536) NOT NULL, chunk_index INT]. *)
Record Row : Type := mkRow {
  row_id : N;
  row_content : jsstring;
  row_embedding : Embedding;
  row_chunk_index : option Z
}.

Definition documents_columns : list string :=
  ["id"; "content"; "embedding"; "chunk_index"]%string.

Definition VECTOR_DIMENSIONS : nat := 1536.

(** A value of the parameter array given to [pool.query]. The string
    [`[${embedding.join(",")}]`] is kept as the vector it spells. *)
Inductive QueryParam : Type :=
| PText (s : jsstring)
| PVectorLiteral (v : Embedding)
| PNumber (n : Z).

(** The two SQL texts of [vector-store.ts], as syntax. Placeholders [$n] are
    numbered from 1. *)
Inductive Statement : Type :=
| Insert (table : string) (columns : list string) (values : list nat)
    (* INSERT INTO table (columns) VALUES ($v1, $v2, ...) *)
| SelectBySimilarity (columns : list string) (vec_column : string)
    (vec_param : nat) (table : string) (where_eq : option (string * nat))
    (limit_param : nat).
    (* SELECT columns, 1 - (vec_column <=> $vec_param::vector) AS similarity
       FROM table [WHERE col = $n] ORDER BY similarity DESC LIMIT $limit_param *)

(** A row of the search result: [id], [content] and the computed
    [similarity]. *)
Record ResultRow : Type := mkResultRow {
  res_id : N;
  res_content : jsstring;
  res_similarity : Q
}.

(** ** Messages, requests and responses of [index.ts] *)

Inductive Role : Type := user | assistant | system | function | tool.

(** [UIMessage] and [BaseMessage] as the handlers build them. *)
Record Message : Type := mkMessage {
  role : Role;
  content : jsstring
}.

Record SemanticMemory : Type := mkSemanticMemory {
  enabled : bool;
  semanticLimit : nat;
  semanticThreshold : Q
}.

Record GenerateOptions : Type := mkGenerateOptions {
  userId : jsstring;
  conversationId : jsstring;
  semanticMemory : SemanticMemory
}.

Record ListOptions : Type := mkListOptions {
  limit : nat;
  orderBy : string;
  orderDirection : string
}.

(** A conversation as the memory lists it; opaque to the handlers. *)
Record Conversation : Type := mkConversation {
  conv_id : jsstring;
  conv_title : jsstring
}.

(** Every call that leaves the process. *)
Inductive Event : Type :=
| EmbeddingsCreate (model : string) (input : jsstring)
| PoolQuery (stmt : Statement) (params : list QueryParam)
| GenerateText (messages : list Message) (options : GenerateOptions)
| GetConversationsByUserId (uid : jsstring) (options : ListOptions)
| GetMessages (uid cid : jsstring) (lim : nat)
| AddMessage (message : Message) (uid cid : jsstring).

(** The outside parties. Each oracle reads the log of calls made before the
    one it answers. *)
Record Env : Type := mkEnv {
  (* RecursiveCharacterTextSplitter.splitText of @langchain/textsplitters,
     configured with chunkSize 150, chunkOverlap 20 and the four separators *)
  splitText : jsstring -> list jsstring;
  (* openai.embeddings.create: rejects, or resolves with data[0]?.embedding *)
  embeddings_create : list Event -> jsstring -> Outcome (option Embedding);
  (* a connectivity failure of the pool at this call, if any *)
  pg_fault : list Event -> option Exn;
  (* pgvector's <=> operator *)
  cosine_distance : Embedding -> Embedding -> Q;
  (* agent.generateText: rejects, or resolves with result.text *)
  generateText :
    list Event -> list Message -> GenerateOptions -> Outcome (option jsstring);
  getConversationsByUserId :
    list Event -> jsstring -> ListOptions -> Outcome (list Conversation);
  getMessages :
    list Event -> jsstring -> jsstring -> nat -> Outcome (list Message);
  addMessage :
    list Event -> Message -> jsstring -> jsstring -> Outcome unit;
  Date_now : list Event -> N
}.

Record World : Type := mkWorld {
  documents : list Row;
  next_id : N;
  trace : list Event
}.

Definition M (A : Type) : Type := World -> Outcome A * World.

Definition ret {A} (a : A) : M A := fun w => (Returned a, w).

Definition throw {A} (e : Exn) : M A := fun w => (Thrown e, w).

Definition bind {A B} (m : M A) (k : A -> M B) : M B :=
  fun w =>
    match m w with
    | (Returned a, w') => k a w'
    | (Thrown e, w') => (Thrown e, w')
    end.

(** [try { m } catch (e) { h(e) }]: what [m] did to the world stays done. *)
Definition try_catch {A} (m : M A) (h : Exn -> M A) : M A :=
  fun w =>
    match m w with
    | (Returned a, w') => (Returned a, w')
    | (Thrown e, w') => h e w'
    end.

Declare Scope js_scope.
Delimit Scope js_scope with js.
Notation "x <- m ;; k" := (bind m (fun x => k))
  (at level 61, m at next level, right associativity) : js_scope.
Notation "m ;;; k" := (bind m (fun _ => k))
  (at level 61, right associativity) : js_scope.
Local Open Scope js_scope.

Definition record_call (e : Event) (w : World) : World :=
  mkWorld (documents w) (next_id w) (trace w ++ [e]).

(** An outside call: logged, then answered by the oracle from the log as it
    stood before the call. *)
Definition outside {A} (e : Event) (answer : list Event -> Outcome A) : M A :=
  fun w => (answer (trace w), record_call e w).

(** ** The PostgreSQL pool, as far as the two statements need it *)

Module Pg.

Definition table_of (s : Statement) : string :=
  match s with
  | Insert table _ _ => table
  | SelectBySimilarity _ _ _ table _ _ => table
  end.

Definition referenced_columns (s : Statement) : list string :=
  match s with
  | Insert _ columns _ => columns
  | SelectBySimilarity columns vec_column _ _ where_eq _ =>
      columns ++ [vec_column]
      ++ match where_eq with Some (c, _) => [c] | None => [] end
  end.

Definition placeholders (s : Statement) : list nat :=
  match s with
  | Insert _ _ values => values
  | SelectBySimilarity _ _ vec_param _ where_eq limit_param =>
      [vec_param]
      ++ match where_eq with Some (_, n) => [n] | None => [] end
      ++ [limit_param]
  end.

(** A statement that mentions [$n] has [n] parameters at least; the server
    wants exactly as many values as the highest placeholder. *)
Definition params_required (s : Statement) : nat := list_max (placeholders s).

Definition known_column (c : string) : bool :=
  existsb (String.eqb c) documents_columns.

(** What the server checks before it runs anything, in its order: the
    relation, the columns (both when the statement is parsed), then the
    number of bound values. The codes are PostgreSQL's SQLSTATEs. *)
Definition rejects (s : Statement) (params : list QueryParam) : option Exn :=
  if negb (String.eqb (table_of s) "documents") then
    Some (PgError "42P01")                     (* undefined_table *)
  else if negb (forallb known_column (referenced_columns s)) then
    Some (PgError "42703")                     (* undefined_column *)
  else if negb (List.length params =? params_required s) then
    Some (PgError "08P01")                     (* protocol_violation *)
  else None.

(** The value bound to [$n]. *)
Definition param (params : list QueryParam) (n : nat) : option QueryParam :=
  match n with
  | 0 => None
  | S k => nth_error params k
  end.

(** The value an INSERT gives column [c], if it lists the column. *)
Fixpoint column_value (columns : list string) (values : list nat)
    (params : list QueryParam) (c : string) : option QueryParam :=
  match columns, values with
  | col :: columns', v :: values' =>
      if String.eqb col c then param params v
      else column_value columns' values' params c
  | _, _ => None
  end.

(** The row an INSERT makes, or the rejection of its values. A vector of
    another dimension than the column's and a text with U+0000 in it are
    both refused; when a statement has both defects the one error reported
    here is that of the vector. *)
Definition new_row (id : N) (columns : list string) (values : list nat)
    (params : list QueryParam) : Outcome Row :=
  match column_value columns values params "content",
        column_value columns values params "embedding" with
  | Some (PText c), Some (PVectorLiteral v) =>
      if List.length v =? VECTOR_DIMENSIONS then
        if existsb (N.eqb 0) c then
          Thrown (PgError "22021")             (* a text cannot hold U+0000 *)
        else
          match column_value columns values params "chunk_index" with
          | None => Returned (mkRow id c v None)
          | Some (PNumber i) => Returned (mkRow id c v (Some i))
          | Some _ => Thrown (PgError "22P02") (* invalid_text_representation *)
          end
      else Thrown (PgError "22000")            (* expected 1536 dimensions *)
  | None, _ | _, None => Thrown (PgError "23502")   (* not_null_violation *)
  | _, _ => Thrown (PgError "22P02")
  end.

Fixpoint list_eqb {A} (eqb : A -> A -> bool) (l1 l2 : list A) : bool :=
  match l1, l2 with
  | [], [] => true
  | x :: l1', y :: l2' => eqb x y && list_eqb eqb l1' l2'
  | _, _ => false
  end.

Definition param_eqb (a b : QueryParam) : bool :=
  match a, b with
  | PText s, PText t => list_eqb N.eqb s t
  | PVectorLiteral u, PVectorLiteral v => list_eqb Qeq_bool u v
  | PNumber m, PNumber n => Z.eqb m n
  | _, _ => false
  end.

Definition row_value (c : string) (r : Row) : option QueryParam :=
  if String.eqb c "id" then Some (PNumber (Z.of_N (row_id r)))
  else if String.eqb c "content" then Some (PText (row_content r))
  else if String.eqb c "embedding" then Some (PVectorLiteral (row_embedding r))
  else if String.eqb c "chunk_index" then option_map PNumber (row_chunk_index r)
  else None.

Definition where_holds (where_eq : option (string * nat))
    (params : list QueryParam) (r : Row) : bool :=
  match where_eq with
  | None => true
  | Some (c, n) =>
      match row_value c r, param params n with
      | Some a, Some b => param_eqb a b
      | _, _ => false
      end
  end.

(** ORDER BY similarity DESC, rows of equal similarity kept in table order. *)
Fixpoint insert_desc (x : ResultRow) (sorted : list ResultRow) : list ResultRow :=
  match sorted with
  | [] => [x]
  | y :: rest =>
      if Qle_bool (res_similarity y) (res_similarity x) then x :: sorted
      else y :: insert_desc x rest
  end.

Definition order_by_similarity_desc (rows : list ResultRow) : list ResultRow :=
  fold_right insert_desc [] rows.

Section WithEnv.
Variable env : Env.

(** [1 - (embedding <=> $1::vector) AS similarity] *)
Definition scored (q : Embedding) (r : Row) : ResultRow :=
  mkResultRow (row_id r) (row_content r)
              (1 - cosine_distance env (row_embedding r) q)%Q.

Definition select_rows (vec_param : nat) (where_eq : option (string * nat))
    (limit_param : nat) (params : list QueryParam) (table : list Row)
    : Outcome (list ResultRow) :=
  match param params vec_param, param params limit_param with
  | Some (PVectorLiteral q), Some (PNumber n) =>
      if negb (List.length q =? VECTOR_DIMENSIONS) then
        Thrown (PgError "22000")               (* different vector dimensions *)
      else if (n <? 0)%Z then
        Thrown (PgError "2201W")               (* LIMIT must not be negative *)
      else
        Returned
          (firstn (Z.to_nat n)
             (order_by_similarity_desc
                (map (scored q) (filter (where_holds where_eq params) table))))
  | _, _ => Thrown (PgError "22P02")
  end.

(** [await pool.query(text, params)], resolving with [res.rows]. *)
Definition pool_query (stmt : Statement) (params : list QueryParam)
    : M (list ResultRow) :=
  fun w =>
    let w1 := record_call (PoolQuery stmt params) w in
    match pg_fault env (trace w) with
    | Some e => (Thrown e, w1)
    | None =>
        match rejects stmt params with
        | Some e => (Thrown e, w1)
        | None =>
            match stmt with
            | Insert _ columns values =>
                match new_row (next_id w) columns values params with
                | Returned r =>
                    (Returned [],
                     mkWorld (documents w ++ [r]) (N.succ (next_id w)) (trace w1))
                | Thrown e => (Thrown e, w1)
                end
            | SelectBySimilarity _ _ vec_param _ where_eq limit_param =>
                (select_rows vec_param where_eq limit_param params (documents w), w1)
            end
        end
    end.

End WithEnv.

End Pg.

(** ** [vector-store.ts] *)

Section VectorStore.
Variable env : Env.

Definition EMBEDDING_MODEL : string := "text-embedding-3-small".

(** [async function splitIntoChunks(text)] *)
Definition splitIntoChunks (text : jsstring) : M (list jsstring) :=
  let trimmed := trim text in
  if negb (truthy trimmed) then ret []
  else ret (splitText env trimmed).

(** [export async function chunkContent(content)] of [textsplitter.ts],
    the same splitter without the guard. *)
Definition chunkContent (content : jsstring) : M (list jsstring) :=
  ret (splitText env (trim content)).

(** [async function getEmbedding(text)] *)
Definition getEmbedding (text : jsstring) : M Embedding :=
  let input := trim text in
  if negb (truthy input) then
    throw (JsError (lit "Cannot create embedding for empty text"))
  else
    emb <- outside (EmbeddingsCreate EMBEDDING_MODEL input)
                   (fun log => embeddings_create env log input) ;;
    match emb with
    | None =>
        throw (JsError (lit "OpenRouter (OpenAI client) returned empty embedding"))
    | Some e =>
        if List.length e =? 0 then
          throw (JsError (lit "OpenRouter (OpenAI client) returned empty embedding"))
        else ret e
    end.

(** [INSERT INTO documents (content, embedding, chunk_index)
     VALUES ($1, $2::vector, $3)] *)
Definition insertSql : Statement :=
  Insert "documents" ["content"; "embedding"; "chunk_index"]%string [1; 2; 3].

(** The body of the [for] loop at index [i], [chunk] being [chunks[i]]. *)
Definition ingestChunk (chunk : jsstring) (i : nat) : M unit :=
  embedding <- getEmbedding chunk ;;
  Pg.pool_query env insertSql
    [PText chunk; PVectorLiteral embedding; PNumber (Z.of_nat i)] ;;;
  ret tt.

(** [for (let i = 0; i < chunks.length; i++) { ... }], entered at index [i]
    with the chunks from [chunks[i]] on still to do. *)
Fixpoint ingestFrom (rest : list jsstring) (i : nat) : M unit :=
  match rest with
  | [] => ret tt
  | chunk :: rest' => ingestChunk chunk i ;;; ingestFrom rest' (S i)
  end.

(** [export async function ingestDocumentText(text)] *)
Definition ingestDocumentText (text : jsstring) : M unit :=
  chunks <- splitIntoChunks text ;;
  if List.length chunks =? 0 then ret tt
  else ingestFrom chunks 0.

(** [SELECT id, content, 1 - (embedding <=> $1::vector) AS similarity
     FROM documents WHERE document_id = $2
     ORDER BY similarity DESC LIMIT $3] *)
Definition searchSql : Statement :=
  SelectBySimilarity ["id"; "content"]%string "embedding" 1 "documents"
    (Some ("document_id"%string, 2)) 3.

(** [export async function searchDocumentsByQuery(query, limit = 5)] *)
Definition searchDocumentsByQuery (query : jsstring) (limit : Z)
    : M (list ResultRow) :=
  let q := trim query in
  if negb (truthy q) then ret []
  else
    embedding <- getEmbedding q ;;
    Pg.pool_query env searchSql [PVectorLiteral embedding; PNumber limit].

End VectorStore.

(** ** [index.ts]: the HTTP handlers *)

(** The parsed JSON body of a POST. [body_text] is [None] when [text] is
    absent or [null], and otherwise the string [String(body.text)] makes of
    it. The handlers take [body.conversationId] as it comes, without
    [String(...)]: [body_conversationId] is [None] when it is absent or
    [null] and the string itself when it is a string; a [conversationId] of
    another JSON type (a number, a boolean, an array, an object) is not
    covered by this record. *)
Record JsonBody : Type := mkJsonBody {
  body_text : option jsstring;
  body_conversationId : option jsstring
}.

(** The parsed multipart form of [/api/mm-chat]; [form_file] is the text
    [file.text()] resolves with when a file was sent. *)
Record MultipartForm : Type := mkMultipartForm {
  form_file : option jsstring;
  form_question : option jsstring;
  form_conversationId : option jsstring
}.

Inductive ResponseBody : Type :=
| BError (error : jsstring)
| BConversations (conversations : list Conversation)
| BHistory (uid cid : jsstring) (messages : list Message)
| BSuccess
| BChat (text : option jsstring) (cid : jsstring)
| BMmChat (answer : jsstring) (cid : jsstring).

(** [c.json(body, status)] *)
Record Response : Type := json {
  status : nat;
  body : ResponseBody
}.

Inductive Request : Type :=
| GET_conversations
| GET_history (conversationId : option jsstring)
| POST_documents_ingest (b : JsonBody)
| POST_chat (b : JsonBody)
| POST_mm_chat (f : MultipartForm).

Definition USER_ID : jsstring := lit "mohammed-alith".

Definition orEmpty (s : option jsstring) : jsstring :=
  match s with Some t => t | None => [] end.

Definition semanticMemoryOptions : SemanticMemory :=
  mkSemanticMemory true 10 (6 # 10).

(** The options object of both [agent.generateText] calls. *)
Definition generateOptions (conversationId : jsstring) : GenerateOptions :=
  mkGenerateOptions USER_ID conversationId semanticMemoryOptions.

Definition INGEST_MARKER : jsstring :=
  lit "[Document ingested into knowledge base as chunks]" ++ [LF].

(** [t.slice(0, 300) + (t.length > 300 ? "..." : "")] *)
Definition preview (t : jsstring) : jsstring :=
  slice0 300 t ++ (if 300 <? List.length t then lit "..." else []).

(** [`Snippet ${idx + 1}:\n${d.content.slice(0, 1000)}`] *)
Definition snippet (d : ResultRow) (idx : nat) : jsstring :=
  lit "Snippet " ++ String_of_N (N.of_nat (idx + 1)) ++ lit ":" ++ [LF]
  ++ slice0 1000 (res_content d).

Definition SNIPPET_SEPARATOR : jsstring := [LF; LF] ++ lit "---" ++ [LF; LF].

(** The value [ragContext] has after the [if (docs && docs.length > 0)]
    block, from its initial empty string. *)
Definition assembleContext (docs : list ResultRow) : jsstring :=
  if 0 <? List.length docs then
    slice0 4000 (join SNIPPET_SEPARATOR (mapi snippet docs))
  else [].

Definition CONTEXT_HEADER : jsstring :=
  lit "The following snippets are from the user's uploaded documents. Use them if relevant:"
  ++ [LF; LF].

(** The [messages] array handed to the agent: the system message is pushed
    only [if (ragContext)]. *)
Definition promptMessages (ragContext question : jsstring) : list Message :=
  (if truthy ragContext then [mkMessage system (CONTEXT_HEADER ++ ragContext)]
   else [])
  ++ [mkMessage user question].

(** [question.trim() || (uploadedText ? "Summarize ..." : "Explain ...")] *)
Definition effectiveQuestion (question uploadedText : jsstring) : jsstring :=
  if truthy (trim question) then trim question
  else if truthy uploadedText then lit "Summarize the uploaded document."
  else lit "Explain the uploaded content.".

Section Handlers.
Variable env : Env.

(** [`conv_${Date.now()}`] *)
Definition freshConversationId : M jsstring :=
  fun w => (Returned (lit "conv_" ++ String_of_N (Date_now env (trace w))), w).

(** The [try { ... } catch (e) { console.error(...) }] block around the
    search, giving the final [ragContext]. *)
Definition retrieveContext (question : jsstring) : M jsstring :=
  try_catch
    (docs <- searchDocumentsByQuery env question 5 ;;
     ret (assembleContext docs))
    (fun _ => ret []).

Definition agent_generateText (messages : list Message) (cid : jsstring)
    : M (option jsstring) :=
  outside (GenerateText messages (generateOptions cid))
          (fun log => generateText env log messages (generateOptions cid)).

Definition memory_addMessage (message : Message) (cid : jsstring) : M unit :=
  outside (AddMessage message USER_ID cid)
          (fun log => addMessage env log message USER_ID cid).

(** [app.get("/api/conversations", ...)] *)
Definition getConversations : M Response :=
  let options := mkListOptions 50 "created_at" "DESC" in
  conversations <-
    outside (GetConversationsByUserId USER_ID options)
            (fun log => getConversationsByUserId env log USER_ID options) ;;
  ret (json 200 (BConversations conversations)).

(** [app.get("/api/history", ...)] *)
Definition getHistory (conversationId : option jsstring) : M Response :=
  if negb (truthy (orEmpty conversationId)) then
    ret (json 400 (BError (lit "conversationId is required")))
  else
    let cid := orEmpty conversationId in
    messages <-
      outside (GetMessages USER_ID cid 50)
              (fun log => getMessages env log USER_ID cid 50) ;;
    ret (json 200 (BHistory USER_ID cid messages)).

(** [app.post("/api/documents/ingest", ...)] *)
Definition postDocumentsIngest (b : JsonBody) : M Response :=
  let text := orEmpty (body_text b) in
  let conversationId := orEmpty (body_conversationId b) in
  let trimmed := trim text in
  if negb (truthy trimmed) then
    ret (json 400 (BError (lit "text is required")))
  else
    ingestDocumentText env trimmed ;;;
    (if truthy conversationId then
       memory_addMessage (mkMessage system (INGEST_MARKER ++ preview trimmed))
                         conversationId
     else ret tt) ;;;
    ret (json 200 BSuccess).

(** [app.post("/api/chat", ...)] *)
Definition postChat (b : JsonBody) : M Response :=
  let text := orEmpty (body_text b) in
  conversationId <-
    match body_conversationId b with
    | Some cid => ret cid
    | None => freshConversationId
    end ;;
  if negb (truthy (trim text)) then
    ret (json 400 (BError (lit "text is required")))
  else
    ragContext <- retrieveContext text ;;
    let messages := promptMessages ragContext text in
    result <- agent_generateText messages conversationId ;;
    ret (json 200 (BChat result conversationId)).

(** The [if (uploadedText.trim()) { ... }] block of [/api/mm-chat]: ingest
    the file's text, then leave a marker in the conversation. *)
Definition ingestUpload (uploadedText conversationId : jsstring) : M unit :=
  if truthy (trim uploadedText) then
    ingestDocumentText env uploadedText ;;;
    memory_addMessage (mkMessage system (INGEST_MARKER ++ preview uploadedText))
                      conversationId
  else ret tt.

(** [app.post("/api/mm-chat", ...)] *)
Definition postMmChat (f : MultipartForm) : M Response :=
  let question := orEmpty (form_question f) in
  conversationId <-
    (if truthy (orEmpty (form_conversationId f))
     then ret (orEmpty (form_conversationId f))
     else freshConversationId) ;;
  let uploadedText := orEmpty (form_file f) in
  ingestUpload uploadedText conversationId ;;;
  let effective := effectiveQuestion question uploadedText in
  ragContext <- retrieveContext effective ;;
  let messages := promptMessages ragContext effective in
  result <- agent_generateText messages conversationId ;;
  let answer := match result with Some t => t | None => lit "(no answer)" end in
  ret (json 200 (BMmChat answer conversationId)).

(** The routes [configureApp] registers. *)
Definition handle (r : Request) : M Response :=
  match r with
  | GET_conversations => getConversations
  | GET_history conversationId => getHistory conversationId
  | POST_documents_ingest b => postDocumentsIngest b
  | POST_chat b => postChat b
  | POST_mm_chat f => postMmChat f
  end.

End Handlers.

(** ** Vocabulary of the statements proved below *)

(** The rows an ingestion leaves for chunks [chunks] embedded as [embs]:
    ids from [id] on, chunk indices from [i] on, in insertion order. *)
Fixpoint stored_rows (id : N) (chunks : list jsstring) (embs : list Embedding)
    (i : nat) : list Row :=
  match chunks, embs with
  | c :: chunks', e :: embs' =>
      mkRow id c e (Some (Z.of_nat i)) :: stored_rows (N.succ id) chunks' embs' (S i)
  | _, _ => []
  end.

(** The outside calls of as many successful loop rounds: for each chunk the
    embedding request, then the INSERT. *)
Fixpoint ingest_calls (chunks : list jsstring) (embs : list Embedding)
    (i : nat) : list Event :=
  match chunks, embs with
  | c :: chunks', e :: embs' =>
      EmbeddingsCreate EMBEDDING_MODEL (trim c)
      :: PoolQuery insertSql [PText c; PVectorLiteral e; PNumber (Z.of_nat i)]
      :: ingest_calls chunks' embs' (S i)
  | _, _ => []
  end.

(** The two errors [getEmbedding] throws itself. *)
Definition EMPTY_INPUT : Exn :=
  JsError (lit "Cannot create embedding for empty text").

Definition EMPTY_EMBEDDING : Exn :=
  JsError (lit "OpenRouter (OpenAI client) returned empty embedding").

(** *** Decimal numerals *)

(** Reading a numeral digit by digit: the value so far, then the next
    digit's code unit. *)
Definition decimal_step (acc c : N) : N := (10 * acc + (c - 48))%N.

(** [digits] is the decimal numeral of [n]: at least one code unit, each of
    them a digit, no leading zero but in the numeral of zero, and read as a
    decimal number it is [n]. *)
Definition decimal_of (digits : jsstring) (n : nat) : Prop :=
  digits <> []
  /\ Forall (fun c => (48 <= c <= 57)%N) digits
  /\ (forall rest, digits = 48%N :: rest -> rest = [])
  /\ fold_left decimal_step digits 0%N = N.of_nat n.

(** The code units of the digits of the library's decimal numbers. *)
Fixpoint uint_digits (d : Decimal.uint) : jsstring :=
  match d with
  | Decimal.Nil => []
  | Decimal.D0 l => 48%N :: uint_digits l
  | Decimal.D1 l => 49%N :: uint_digits l
  | Decimal.D2 l => 50%N :: uint_digits l
  | Decimal.D3 l => 51%N :: uint_digits l
  | Decimal.D4 l => 52%N :: uint_digits l
  | Decimal.D5 l => 53%N :: uint_digits l
  | Decimal.D6 l => 54%N :: uint_digits l
  | Decimal.D7 l => 55%N :: uint_digits l
  | Decimal.D8 l => 56%N :: uint_digits l
  | Decimal.D9 l => 57%N :: uint_digits l
  end.

(** *** A loop round, seen from the outside parties *)

(** The embedding request made for [chunk], and the INSERT that stores it
    with embedding [emb] under index [i]. *)
Definition embedding_request (chunk : jsstring) : Event :=
  EmbeddingsCreate EMBEDDING_MODEL (trim chunk).

Definition insert_request (chunk : jsstring) (emb : Embedding) (i : nat) : Event :=
  PoolQuery insertSql [PText chunk; PVectorLiteral emb; PNumber (Z.of_nat i)].

(** The round of [chunk], entered when the calls [log] have been made, is
    answered: the chunk is not blank, the provider resolves the request with
    [emb], a vector of the table's dimension, the pool is reachable when the
    INSERT follows, and the chunk holds no U+0000, which a text column does
    not take. *)
Definition round_answered (env : Env) (log : list Event) (chunk : jsstring)
    (emb : Embedding) : Prop :=
  trim chunk <> []
  /\ embeddings_create env log (trim chunk) = Returned (Some emb)
  /\ List.length emb = VECTOR_DIMENSIONS
  /\ pg_fault env (log ++ [embedding_request chunk]) = None
  /\ existsb (N.eqb 0) chunk = false.

(** Round after round is answered, for [chunks] from index [i] on, each
    round entered with the calls of the earlier ones made. *)
Fixpoint rounds_answered (env : Env) (log : list Event) (chunks : list jsstring)
    (embs : list Embedding) (i : nat) : Prop :=
  match chunks, embs with
  | [], [] => True
  | c :: chunks', e :: embs' =>
      round_answered env log c e
      /\ rounds_answered env
           (log ++ [embedding_request c; insert_request c e i]) chunks' embs' (S i)
  | _, _ => False
  end.

(** The round of [chunk] at index [i], entered when the calls [log] have
    been made, is not answered: what goes wrong first, the error it comes
    with, and the calls that were made by then. *)
Inductive round_stops (env : Env) (log : list Event) (chunk : jsstring) (i : nat)
    : Exn -> list Event -> Prop :=
| stops_blank :
    trim chunk = [] ->
    round_stops env log chunk i EMPTY_INPUT []
| stops_provider (e : Exn) :
    trim chunk <> [] ->
    embeddings_create env log (trim chunk) = Thrown e ->
    round_stops env log chunk i e [embedding_request chunk]
| stops_no_vector (answer : option Embedding) :
    trim chunk <> [] ->
    embeddings_create env log (trim chunk) = Returned answer ->
    answer = None \/ answer = Some [] ->
    round_stops env log chunk i EMPTY_EMBEDDING [embedding_request chunk]
| stops_pool (emb : Embedding) (e : Exn) :
    trim chunk <> [] ->
    embeddings_create env log (trim chunk) = Returned (Some emb) ->
    emb <> [] ->
    pg_fault env (log ++ [embedding_request chunk]) = Some e ->
    round_stops env log chunk i e
      [embedding_request chunk; insert_request chunk emb i]
| stops_dimension (emb : Embedding) :
    trim chunk <> [] ->
    embeddings_create env log (trim chunk) = Returned (Some emb) ->
    emb <> [] ->
    pg_fault env (log ++ [embedding_request chunk]) = None ->
    List.length emb <> VECTOR_DIMENSIONS ->
    round_stops env log chunk i (PgError "22000")
      [embedding_request chunk; insert_request chunk emb i]
| stops_nul (emb : Embedding) :
    trim chunk <> [] ->
    embeddings_create env log (trim chunk) = Returned (Some emb) ->
    pg_fault env (log ++ [embedding_request chunk]) = None ->
    List.length emb = VECTOR_DIMENSIONS ->
    existsb (N.eqb 0) chunk = true ->
    round_stops env log chunk i (PgError "22021")
      [embedding_request chunk; insert_request chunk emb i].

(** The world after the rounds of [chunks], embedded as [embs], have all
    completed from index [i] on: a row for each chunk, an id taken for each,
    and the two calls of each round on the log. *)
Definition after_rounds (w : World) (chunks : list jsstring)
    (embs : list Embedding) (i : nat) : World :=
  mkWorld (documents w ++ stored_rows (next_id w) chunks embs i)
          (next_id w + N.of_nat (List.length chunks))
          (trace w ++ ingest_calls chunks embs i).

(** The world with the calls [calls] logged and nothing else changed. *)
Definition record_calls (calls : list Event) (w : World) : World :=
  mkWorld (documents w) (next_id w) (trace w ++ calls).

(** The user an outside call acts for, when it names one. *)
Definition event_user (e : Event) : option jsstring :=
  match e with
  | GenerateText _ options => Some (userId options)
  | GetConversationsByUserId uid _ => Some uid
  | GetMessages uid _ _ => Some uid
  | AddMessage _ uid _ => Some uid
  | EmbeddingsCreate _ _ | PoolQuery _ _ => None
  end.

(** The user a response reports, when it reports one. *)
Definition response_user (r : Response) : option jsstring :=
  match body r with
  | BHistory uid _ _ => Some uid
  | _ => None
  end.

Definition scoped_to (uid : jsstring) (e : Event) : Prop :=
  forall u, event_user e = Some u -> u = uid.

(** Non-increasing similarity along a result. *)
Fixpoint sorted_desc (rows : list ResultRow) : Prop :=
  match rows with
  | [] => True
  | x :: rest =>
      Forall (fun y => (res_similarity y <= res_similarity x)%Q) rest
      /\ sorted_desc rest
  end.

(** The computation [m] only adds outside calls that satisfy [P] to the
    log. *)
Definition only_calls (P : Event -> Prop) {A} (m : M A) : Prop :=
  forall w, exists calls,
    trace (snd (m w)) = trace w ++ calls /\ Forall P calls.

(** Every response the computation [m] returns satisfies [Q]. *)
Definition returns_only (Q : Response -> Prop) (m : M Response) : Prop :=
  forall w resp, fst (m w) = Returned resp -> Q resp.

(** The conversation id [/api/chat] works with: the body's, or a fresh one
    when the body has none. *)
Definition chatConversationId (env : Env) (b : JsonBody) (w : World) : jsstring :=
  match body_conversationId b with
  | Some cid => cid
  | None => lit "conv_" ++ String_of_N (Date_now env (trace w))
  end.

(** The conversation id [/api/mm-chat] works with: the form's when it is a
    non-empty string, or a fresh one. *)
Definition mmConversationId (env : Env) (f : MultipartForm) (w : World) : jsstring :=
  match form_conversationId f with
  | Some (c :: cid) => c :: cid
  | _ => lit "conv_" ++ String_of_N (Date_now env (trace w))
  end.

(** The question [/api/mm-chat] falls back on: one wording when a file with
    text in it came with the form, another when none did. *)
Definition defaultQuestion (f : MultipartForm) : jsstring :=
  match form_file f with
  | Some (_ :: _) => lit "Summarize the uploaded document."
  | _ => lit "Explain the uploaded content."
  end.

(** The calls a retrieval makes after the embedding request: none, or the
    one search statement. *)
Definition search_after_embedding (more : list Event) : Prop :=
  more = []
  \/ exists emb, more = [PoolQuery searchSql [PVectorLiteral emb; PNumber 5]].

(** ** Sample environments and inputs, for running the model *)

Module Demo.

(** A stand-in splitter: consecutive windows of [n] code units. It is not
    what the text splitter of the program does; the statements below hold
    for every splitter, and this one makes several chunks of a short
    text. *)
Fixpoint windows (fuel n : nat) (s : jsstring) : list jsstring :=
  match fuel with
  | 0 => []
  | S fuel' =>
      match s with
      | [] => []
      | _ :: _ => firstn n s :: windows fuel' n (skipn n s)
      end
  end.

Definition split16 (s : jsstring) : list jsstring := windows (List.length s) 16 s.

(** A stand-in closer to the splitter: the text cut at its blank lines, every
    piece trimmed, the empty ones left out. The sample texts below are made
    so that a splitter of chunk size 150 and overlap 20 which cuts at blank
    lines first has nothing else to do with them: one paragraph shorter than
    a chunk, or paragraphs of which no two fit into one chunk and each of
    which is longer than the overlap. *)
Fixpoint cut_at_blank_lines (cur s : jsstring) : list jsstring :=
  match s with
  | [] => [rev cur]
  | c :: rest =>
      match rest with
      | d :: rest' =>
          if (c =? LF)%N && (d =? LF)%N
          then rev cur :: cut_at_blank_lines [] rest'
          else cut_at_blank_lines (c :: cur) rest
      | [] => [rev (c :: cur)]
      end
  end.

Definition paragraphs (s : jsstring) : list jsstring :=
  filter truthy (map trim (cut_at_blank_lines [] s)).

Definition vector : Embedding := repeat 1%Q VECTOR_DIMENSIONS.

(** Every outside party answers. *)
Definition healthy : Env :=
  mkEnv split16
        (fun _ _ => Returned (Some vector))
        (fun _ => None)
        (fun _ _ => 0%Q)
        (fun _ _ _ => Returned (Some (lit "Blue.")))
        (fun _ _ _ => Returned [])
        (fun _ _ _ _ => Returned [])
        (fun _ _ _ _ => Returned tt)
        (fun _ => 1700000000000%N).

(** The embeddings API rejects every call. *)
Definition provider_down : Env :=
  mkEnv split16
        (fun _ _ => Thrown (ProviderError (lit "503")))
        (fun _ => None)
        (fun _ _ => 0%Q)
        (fun _ _ _ => Returned (Some (lit "Blue.")))
        (fun _ _ _ => Returned [])
        (fun _ _ _ _ => Returned [])
        (fun _ _ _ _ => Returned tt)
        (fun _ => 1700000000000%N).

Definition empty_world : World := mkWorld [] 1 [].

Definition sky_text : jsstring := lit "The sky is blue. Paris is in France.".

Definition sky_question : jsstring := lit "What color is the sky?".

(** Three paragraphs of 98 code units each. *)
Definition sky_paragraph : jsstring :=
  lit "The sky is blue because air scatters the short blue waves of sunlight more than the long red ones.".

Definition paris_paragraph : jsstring :=
  lit "Paris is the capital of France and lies on the river Seine, which flows on to the sea at Le Havre.".

Definition water_paragraph : jsstring :=
  lit "Water boils at one hundred degrees Celsius at sea level, and at a lower temperature on a mountain.".

Definition almanac_text : jsstring :=
  sky_paragraph ++ [LF; LF] ++ paris_paragraph ++ [LF; LF] ++ water_paragraph
  ++ [LF].

Definition blank : jsstring := [32; 10; 9; 32]%N.

(** The table after [sky_text] was ingested with every party answering. *)
Definition sky_world : World :=
  snd (ingestDocumentText healthy sky_text empty_world).

(** Every outside party answers, and the text is cut by paragraphs. *)
Definition by_paragraph : Env :=
  mkEnv paragraphs
        (fun _ _ => Returned (Some vector))
        (fun _ => None)
        (fun _ _ => 0%Q)
        (fun _ _ _ => Returned (Some (lit "Blue.")))
        (fun _ _ _ => Returned [])
        (fun _ _ _ _ => Returned [])
        (fun _ _ _ _ => Returned tt)
        (fun _ => 1700000000000%N).

(** The same, but the embeddings API rejects once [n] outside calls have
    been made. *)
Definition by_paragraph_until (n : nat) : Env :=
  mkEnv paragraphs
        (fun log _ => if n <=? List.length log
                      then Thrown (ProviderError (lit "503"))
                      else Returned (Some vector))
        (fun _ => None)
        (fun _ _ => 0%Q)
        (fun _ _ _ => Returned (Some (lit "Blue.")))
        (fun _ _ _ => Returned [])
        (fun _ _ _ _ => Returned [])
        (fun _ _ _ _ => Returned tt)
        (fun _ => 1700000000000%N).

(** The same, but the pool fails once [n] outside calls have been made. *)
Definition by_paragraph_pool_until (n : nat) : Env :=
  mkEnv paragraphs
        (fun _ _ => Returned (Some vector))
        (fun log => if n <=? List.length log
                    then Some (PgError "57P01") else None)
        (fun _ _ => 0%Q)
        (fun _ _ _ => Returned (Some (lit "Blue.")))
        (fun _ _ _ => Returned [])
        (fun _ _ _ _ => Returned [])
        (fun _ _ _ _ => Returned tt)
        (fun _ => 1700000000000%N).

(** The table after [almanac_text] was ingested with every party
    answering. *)
Definition almanac_world : World :=
  snd (ingestDocumentText by_paragraph almanac_text empty_world).

End Demo.

(** ** Vocabulary of the properties of the table and of the handlers *)

(** What every row the ingestion stores looks like: content that is not
    blank, an embedding of the table's dimension, a chunk index counted from
    zero. *)
Definition row_ok (r : Row) : Prop :=
  trim (row_content r) <> []
  /\ List.length (row_embedding r) = VECTOR_DIMENSIONS
  /\ exists i, row_chunk_index r = Some (Z.of_nat i).

(** The computation [m] only appends rows, each satisfying [P], to the
    table; rows already there stay as they are. *)
Definition appends_rows (P : Row -> Prop) {A} (m : M A) : Prop :=
  forall w, exists added,
    documents (snd (m w)) = documents w ++ added /\ Forall P added.

(** The computation [m] leaves the table and its id sequence alone. *)
Definition keeps_table {A} (m : M A) : Prop :=
  forall w,
    documents (snd (m w)) = documents w /\ next_id (snd (m w)) = next_id w.

(** Whether a request can reach an INSERT at all: the two ingesting routes,
    when the text they would ingest is not blank. *)
Definition may_ingest (req : Request) : bool :=
  match req with
  | POST_documents_ingest b => truthy (trim (orEmpty (body_text b)))
  | POST_mm_chat f => truthy (trim (orEmpty (form_file f)))
  | GET_conversations | GET_history _ | POST_chat _ => false
  end.

(** The conversation an outside call is filed under, when it names one. *)
Definition event_conversation (e : Event) : option jsstring :=
  match e with
  | GenerateText _ options => Some (conversationId options)
  | GetMessages _ cid _ => Some cid
  | AddMessage _ _ cid => Some cid
  | EmbeddingsCreate _ _ | PoolQuery _ _ | GetConversationsByUserId _ _ => None
  end.

(** The conversation a response names, when it names one. *)
Definition response_conversation (r : Response) : option jsstring :=
  match body r with
  | BHistory _ cid _ | BChat _ cid | BMmChat _ cid => Some cid
  | BError _ | BConversations _ | BSuccess => None
  end.

Definition filed_under (cid : jsstring) (e : Event) : Prop :=
  forall c, event_conversation e = Some c -> c = cid.

(** A response is either a 200, or a 400 that carries an error message and
    was decided before anything happened: the world [w'] after it is the
    world [w] before it. *)
Definition accepted_or_untouched (w : World) (resp : Response) (w' : World) : Prop :=
  status resp = 200
  \/ (status resp = 400 /\ w' = w /\ exists msg, body resp = BError msg).

(** One more sample: a provider whose vectors have three components. *)
Definition short_vectors : Env :=
  mkEnv Demo.split16
        (fun _ _ => Returned (Some [1%Q; 0%Q; 0%Q]))
        (fun _ => None)
        (fun _ _ => 0%Q)
        (fun _ _ _ => Returned (Some (lit "Blue.")))
        (fun _ _ _ => Returned [])
        (fun _ _ _ _ => Returned [])
        (fun _ _ _ _ => Returned tt)
        (fun _ => 1700000000000%N).

(** ** [db-init.ts]: creating the schema at start-up *)

Module DbInit.

(** The column types met here. [VECTOR 0] stands for a column declared
    [vector] without dimensions; the type itself takes any number of
    dimensions the statements here can name. *)
Inductive ColumnType : Type :=
| SERIAL
| TEXT
| VECTOR (dimensions : nat)
| INT.

Record Column : Type := mkColumn {
  column_name : string;
  column_type : ColumnType;
  not_null : bool;
  primary_key : bool
}.

Record IndexDef : Type := mkIndexDef {
  index_name : string;
  index_table : string;
  index_method : string;
  index_column : string;
  index_opclass : string
}.

(** The part of the database's catalog the four statements read and write. *)
Record Catalog : Type := mkCatalog {
  extensions : list string;
  relations : list (string * list Column);
  indexes : list IndexDef
}.

(** The four SQL texts of [initDocumentVectorTable], as syntax. *)
Inductive Ddl : Type :=
| CreateExtensionIfNotExists (name : string)
| CreateTableIfNotExists (table : string) (columns : list Column)
| AddColumnIfNotExists (table : string) (column : Column)
| CreateIndexIfNotExists (name table method column opclass : string).

(** [CREATE EXTENSION IF NOT EXISTS vector] *)
Definition createExtensionSql : Ddl := CreateExtensionIfNotExists "vector".

(** [CREATE TABLE IF NOT EXISTS documents (id SERIAL PRIMARY KEY,
     content TEXT NOT NULL, embedding VECTOR(1536) NOT NULL,
     chunk_index INT)] *)
Definition createTableSql : Ddl :=
  CreateTableIfNotExists "documents"
    [mkColumn "id" SERIAL true true;
     mkColumn "content" TEXT true false;
     mkColumn "embedding" (VECTOR 1536) true false;
     mkColumn "chunk_index" INT false false].

(** [ALTER TABLE documents ADD COLUMN IF NOT EXISTS chunk_index INT] *)
Definition addChunkIndexSql : Ddl :=
  AddColumnIfNotExists "documents" (mkColumn "chunk_index" INT false false).

(** [CREATE INDEX IF NOT EXISTS embeddingIndex ON documents
     USING hnsw (embedding vector_cosine_ops)]; the unquoted name is folded
    to lower case by the server. *)
Definition createIndexSql : Ddl :=
  CreateIndexIfNotExists "embeddingindex" "documents" "hnsw" "embedding"
    "vector_cosine_ops".

Definition has_extension (c : Catalog) (name : string) : bool :=
  existsb (String.eqb name) (extensions c).

Fixpoint lookup_table (rels : list (string * list Column)) (table : string)
    : option (list Column) :=
  match rels with
  | [] => None
  | (name, columns) :: rest =>
      if String.eqb name table then Some columns else lookup_table rest table
  end.

Fixpoint set_table (rels : list (string * list Column)) (table : string)
    (columns : list Column) : list (string * list Column) :=
  match rels with
  | [] => []
  | (name, old) :: rest =>
      if String.eqb name table then (name, columns) :: rest
      else (name, old) :: set_table rest table columns
  end.

Fixpoint find_column (columns : list Column) (name : string) : option Column :=
  match columns with
  | [] => None
  | c :: rest =>
      if String.eqb (column_name c) name then Some c else find_column rest name
  end.

Definition has_index (c : Catalog) (name : string) : bool :=
  existsb (fun i => String.eqb (index_name i) name) (indexes c).

(** The type [vector], the access method [hnsw] and the operator class
    [vector_cosine_ops] come with the extension. *)
Definition type_known (c : Catalog) (t : ColumnType) : bool :=
  match t with
  | VECTOR _ => has_extension c "vector"
  | SERIAL | TEXT | INT => true
  end.

Definition method_known (c : Catalog) (method : string) : bool :=
  if String.eqb method "hnsw" then has_extension c "vector"
  else String.eqb method "btree".

Definition opclass_fits (opclass : string) (t : ColumnType) : bool :=
  match t with
  | VECTOR _ => String.eqb opclass "vector_cosine_ops"
  | SERIAL | TEXT | INT => false
  end.

(** Building an [hnsw] index asks more of the column than the operator
    class does: its dimensions must be declared, and there may be at most
    2000 of them. The build comes after the name of the index was looked up,
    so an index that is already there is skipped whatever the column is. *)
Definition HNSW_MAX_DIMENSIONS : nat := 2000.

Definition build_fault (method : string) (t : ColumnType) : option Exn :=
  if String.eqb method "hnsw" then
    match t with
    | VECTOR 0 => Some (PgError "22023")       (* column does not have dimensions *)
    | VECTOR d =>
        if HNSW_MAX_DIMENSIONS <? d then
          Some (PgError "54000")               (* more than 2000 dimensions *)
        else None
    | SERIAL | TEXT | INT => None
    end
  else None.

(** What the server does with a statement; [installable] tells which
    extensions its installation offers. Each statement is its own
    transaction. *)
Definition apply_ddl (installable : string -> bool) (d : Ddl) (c : Catalog)
    : Outcome Catalog :=
  match d with
  | CreateExtensionIfNotExists name =>
      if has_extension c name then Returned c
      else if installable name then
        Returned (mkCatalog (extensions c ++ [name]) (relations c) (indexes c))
      else Thrown (PgError "0A000")            (* extension is not available *)
  | CreateTableIfNotExists table columns =>
      match lookup_table (relations c) table with
      | Some _ => Returned c                   (* already exists, skipping *)
      | None =>
          if forallb (fun col => type_known c (column_type col)) columns then
            Returned (mkCatalog (extensions c)
                                (relations c ++ [(table, columns)]) (indexes c))
          else Thrown (PgError "42704")        (* type does not exist *)
      end
  | AddColumnIfNotExists table column =>
      match lookup_table (relations c) table with
      | None => Thrown (PgError "42P01")       (* undefined_table *)
      | Some columns =>
          match find_column columns (column_name column) with
          | Some _ => Returned c               (* already exists, skipping *)
          | None =>
              if type_known c (column_type column) then
                Returned (mkCatalog (extensions c)
                            (set_table (relations c) table (columns ++ [column]))
                            (indexes c))
              else Thrown (PgError "42704")
          end
      end
  | CreateIndexIfNotExists name table method column opclass =>
      match lookup_table (relations c) table with
      | None => Thrown (PgError "42P01")
      | Some columns =>
          if negb (method_known c method) then
            Thrown (PgError "42704")           (* access method does not exist *)
          else
            match find_column columns column with
            | None => Thrown (PgError "42703") (* undefined_column *)
            | Some col =>
                if negb (opclass_fits opclass (column_type col)) then
                  Thrown (PgError "42804")     (* datatype_mismatch *)
                else if has_index c name then Returned c
                else
                  match build_fault method (column_type col) with
                  | Some e => Thrown e
                  | None =>
                      Returned (mkCatalog (extensions c) (relations c)
                                  (indexes c
                                   ++ [mkIndexDef name table method column
                                                  opclass]))
                  end
            end
      end
  end.

(** The server and the pool as [initDocumentVectorTable] meets them. *)
Record Server : Type := mkServer {
  installable : string -> bool;
  (* pool.connect() rejecting, given the statements sent so far *)
  connect_fault : list Ddl -> option Exn;
  (* a connection failure at a client.query call *)
  query_fault : list Ddl -> option Exn
}.

Record Db : Type := mkDb {
  catalog : Catalog;
  checked_out : nat;          (* clients taken from the pool, not yet released *)
  sent : list Ddl             (* the statements sent, in order *)
}.

Definition I (A : Type) : Type := Db -> Outcome A * Db.

Definition andThen {A B} (m : I A) (k : A -> I B) : I B :=
  fun s =>
    match m s with
    | (Returned a, s') => k a s'
    | (Thrown e, s') => (Thrown e, s')
    end.

(** [try { m } finally { cleanup }] with a cleanup that cannot throw. *)
Definition finally {A} (m : I A) (cleanup : Db -> Db) : I A :=
  fun s => let (r, s') := m s in (r, cleanup s').

Section WithServer.
Variable srv : Server.

(** [await pool.connect()] *)
Definition connect : I unit :=
  fun s =>
    match connect_fault srv (sent s) with
    | Some e => (Thrown e, s)
    | None => (Returned tt, mkDb (catalog s) (S (checked_out s)) (sent s))
    end.

(** [client.release()] *)
Definition release (s : Db) : Db :=
  mkDb (catalog s) (pred (checked_out s)) (sent s).

(** [await client.query(text)] *)
Definition query (d : Ddl) : I unit :=
  fun s =>
    let s1 := mkDb (catalog s) (checked_out s) (sent s ++ [d]) in
    match query_fault srv (sent s) with
    | Some e => (Thrown e, s1)
    | None =>
        match apply_ddl (installable srv) d (catalog s) with
        | Returned c => (Returned tt, mkDb c (checked_out s) (sent s ++ [d]))
        | Thrown e => (Thrown e, s1)
        end
    end.

(** The body of the [try] block: the four statements, in order, stopping
    at the first that fails. *)
Definition statements : I unit :=
  andThen (query createExtensionSql) (fun _ =>
  andThen (query createTableSql) (fun _ =>
  andThen (query addChunkIndexSql) (fun _ =>
  query createIndexSql))).

(** [export async function initDocumentVectorTable()] *)
Definition initDocumentVectorTable : I unit :=
  andThen connect (fun _ => finally statements release).

(** How the process stands after [bootstrap().catch(...)]. *)
Inductive Process : Type :=
| Serving                    (* new VoltAgent({...}) was reached *)
| Exited (code : nat).       (* process.exit(code) *)

(** [bootstrap().catch((err) => { ...; process.exit(1); })] of [index.ts] *)
Definition bootstrap (s : Db) : Process * Db :=
  match initDocumentVectorTable s with
  | (Returned _, s') => (Serving, s')
  | (Thrown _, s') => (Exited 1, s')
  end.

End WithServer.

(** The schema is ready: the extension is there, [documents] has the
    embedding column as a vector and the chunk index, and the index is
    there. *)
Definition schema_ready (c : Catalog) : Prop :=
  has_extension c "vector" = true
  /\ (exists columns dims e k,
        lookup_table (relations c) "documents" = Some columns
        /\ find_column columns "embedding" = Some e
        /\ column_type e = VECTOR dims
        /\ find_column columns "chunk_index" = Some k)
  /\ has_index c "embeddingindex" = true.

(** Nothing of [c] is gone in [c']: its extensions and indexes are still
    there, and every table still has its columns, in order, possibly followed
    by new ones. *)
Definition nothing_dropped (c c' : Catalog) : Prop :=
  (forall name, has_extension c name = true -> has_extension c' name = true)
  /\ (forall table columns,
        lookup_table (relations c) table = Some columns ->
        exists more, lookup_table (relations c') table = Some (columns ++ more))
  /\ (forall name, has_index c name = true -> has_index c' name = true).

(** A server without failing connections that offers the extension. *)
Definition dependable (srv : Server) : Prop :=
  installable srv "vector" = true
  /\ (forall log, connect_fault srv log = None)
  /\ (forall log, query_fault srv log = None).

(** Samples. *)
Definition good_server : Server :=
  mkServer (fun name => String.eqb name "vector") (fun _ => None) (fun _ => None).

Definition bare_server : Server :=
  mkServer (fun _ => false) (fun _ => None) (fun _ => None).

Definition empty_db : Db := mkDb (mkCatalog [] [] []) 0 [].

(** A database from before chunking: [documents] without [chunk_index]. *)
Definition legacy_db : Db :=
  mkDb (mkCatalog ["vector"%string]
          [("documents"%string,
            [mkColumn "id" SERIAL true true;
             mkColumn "content" TEXT true false;
             mkColumn "embedding" (VECTOR 1536) true false])]
          [])
       0 [].

(** One whose [embedding] column is wider than an [hnsw] index takes. *)
Definition wide_db : Db :=
  mkDb (mkCatalog ["vector"%string]
          [("documents"%string,
            [mkColumn "id" SERIAL true true;
             mkColumn "content" TEXT true false;
             mkColumn "embedding" (VECTOR 2001) true false])]
          [])
       0 [].

(** An older one still: [documents] with neither [embedding] nor
    [chunk_index]. *)
Definition ancient_db : Db :=
  mkDb (mkCatalog ["vector"%string]
          [("documents"%string,
            [mkColumn "id" SERIAL true true;
             mkColumn "content" TEXT true false])]
          [])
       0 [].

End DbInit.

(** ** The earlier [agent.ts]: conversations listed with a topic *)

Module Legacy.

(** A part of a stored message: [{type, text}]. *)
Record Part : Type := mkPart {
  part_type : jsstring;
  part_text : option jsstring
}.

(** A stored message as far as the handler reads it: [parts] may be
    missing, and an entry of it may be null. *)
Record StoredMessage : Type := mkStoredMessage {
  parts : option (list (option Part))
}.

(** The calls to the memory. *)
Inductive Call : Type :=
| ListConversations (uid : jsstring) (limit : nat)
| ReadMessages (uid cid : jsstring) (limit : option nat).

(** The memory: each answer may depend on the calls made before. Reads
    that are under way together settle in an order of the memory's own:
    [first_rejection], given all the calls made, tells which of the rejected
    ones, counted in the order they were made, was rejected first in
    time. *)
Record Memory : Type := mkMemory {
  conversations_of :
    list Call -> jsstring -> nat -> Outcome (list Conversation);
  messages_of :
    list Call -> jsstring -> jsstring -> option nat -> Outcome (list StoredMessage);
  first_rejection : list Call -> nat
}.

Definition L (A : Type) : Type := list Call -> Outcome A * list Call.

Definition unit_ {A} (a : A) : L A := fun log => (Returned a, log).

Definition then_ {A B} (m : L A) (k : A -> L B) : L B :=
  fun log =>
    match m log with
    | (Returned a, log') => k a log'
    | (Thrown e, log') => (Thrown e, log')
    end.

Definition call {A} (c : Call) (answer : list Call -> Outcome A) : L A :=
  fun log => (answer log, log ++ [c]).

(** [p?.type === "text" && p.text] *)
Definition isTextPart (p : option Part) : bool :=
  match p with
  | Some q =>
      Pg.list_eqb N.eqb (part_type q) (lit "text")
      && truthy (orEmpty (part_text q))
  | None => false
  end.

Definition textOf (p : option Part) : jsstring :=
  match p with
  | Some q => orEmpty (part_text q)
  | None => []
  end.

(** [msgs[0]?.parts?.filter(...).map((p) => p.text).join(" ") ?? ""] *)
Definition firstText (msgs : list StoredMessage) : jsstring :=
  match msgs with
  | [] => []
  | m :: _ =>
      match parts m with
      | None => []
      | Some ps => join [32%N] (map textOf (filter isTextPart ps))
      end
  end.

(** [firstText || "Untitled conversation"] *)
Definition topicOf (msgs : list StoredMessage) : jsstring :=
  if truthy (firstText msgs) then firstText msgs
  else lit "Untitled conversation".

Section WithMemory.
Variable mem : Memory.

(** The callback of [conversations.map(async (conv) => { ... })]. *)
Definition withTopic (conv : Conversation) : L Conversation :=
  if truthy (conv_title conv) then unit_ conv
  else
    then_ (call (ReadMessages USER_ID (conv_id conv) (Some 1))
                (fun log => messages_of mem log USER_ID (conv_id conv) (Some 1)))
          (fun msgs => unit_ (mkConversation (conv_id conv) (topicOf msgs))).

(** [xs.map(f)] for an async callback that makes its one call before it
    first suspends: the callbacks are started one after the other, so the
    calls go out in the order of the array, all of them, whatever they
    answer. The result lists what each promise settles with. *)
Fixpoint startAll {A B} (f : A -> L B) (xs : list A) (log : list Call)
    : list (Outcome B) * list Call :=
  match xs with
  | [] => ([], log)
  | x :: rest =>
      let (r, log1) := f x log in
      let (rs, log2) := startAll f rest log1 in
      (r :: rs, log2)
  end.

Fixpoint fulfilled {B} (rs : list (Outcome B)) : list B :=
  match rs with
  | [] => []
  | Returned b :: rest => b :: fulfilled rest
  | Thrown _ :: rest => fulfilled rest
  end.

Fixpoint rejections {B} (rs : list (Outcome B)) : list Exn :=
  match rs with
  | [] => []
  | Returned _ :: rest => rejections rest
  | Thrown e :: rest => e :: rejections rest
  end.

(** [await Promise.all(promises)]: the values in the order of the array
    when every promise is fulfilled, and otherwise the reason of the promise
    that was rejected first in time. *)
Definition promiseAll {B} (rs : list (Outcome B)) (log : list Call)
    : Outcome (list B) :=
  match rejections rs with
  | [] => Returned (fulfilled rs)
  | e :: es => Thrown (nth (first_rejection mem log) (e :: es) e)
  end.

(** [await Promise.all(xs.map(f))] *)
Definition promiseAllMap {A B} (f : A -> L B) (xs : list A) : L (list B) :=
  fun log =>
    let (rs, log') := startAll f xs log in
    (promiseAll rs log', log').

(** [app.get("/api/conversations", ...)] *)
Definition getConversations : L Response :=
  then_ (call (ListConversations USER_ID 50)
              (fun log => conversations_of mem log USER_ID 50))
        (fun conversations =>
           then_ (promiseAllMap withTopic conversations)
                 (fun conversationsWithTopic =>
                    unit_ (json 200 (BConversations conversationsWithTopic)))).

End WithMemory.

(** What a title derived from the messages read is, said without the
    handler's own steps. The parts looked at are those of the first message,
    none when there is no message or it has no parts. *)
Definition first_parts (msgs : list StoredMessage) : list (option Part) :=
  match msgs with
  | [] => []
  | m :: _ => match parts m with Some ps => ps | None => [] end
  end.

(** [texts] are the texts of the parts of type text that have a text which
    is not empty, in the order of the parts; every other entry is passed
    over. *)
Inductive text_parts : list (option Part) -> list jsstring -> Prop :=
| text_parts_nil : text_parts [] []
| text_parts_text (t : jsstring) (ps : list (option Part)) (ts : list jsstring) :
    t <> [] ->
    text_parts ps ts ->
    text_parts (Some (mkPart (lit "text") (Some t)) :: ps) (t :: ts)
| text_parts_skip (p : option Part) (ps : list (option Part)) (ts : list jsstring) :
    (forall t, p = Some (mkPart (lit "text") (Some t)) -> t = []) ->
    text_parts ps ts ->
    text_parts (p :: ps) ts.

(** The title is those texts with a single space between every two of them,
    and the words Untitled conversation when there is none. *)
Definition topic_spec (msgs : list StoredMessage) (title : jsstring) : Prop :=
  exists texts,
    text_parts (first_parts msgs) texts
    /\ match texts with
       | [] => title = lit "Untitled conversation"
       | _ :: _ => [32%N] ++ title = List.concat (map (app [32%N]) texts)
       end.

(** The reads the handler makes for a listing: one, of a single message,
    for each conversation without a title, in the order of the listing. *)
Definition topic_reads (listed : list Conversation) : list Call :=
  map (fun c => ReadMessages USER_ID (conv_id c) (Some 1))
      (filter (fun c => negb (truthy (conv_title c))) listed).

(** Samples. *)
Definition hello_message : StoredMessage :=
  mkStoredMessage
    (Some [Some (mkPart (lit "step-start") None);
           None;
           Some (mkPart (lit "text") (Some (lit "Hello")));
           Some (mkPart (lit "text") (Some []));
           Some (mkPart (lit "text") (Some (lit "there")))]).

Definition three_conversations : list Conversation :=
  [mkConversation (lit "a") (lit "Trip to Paris");
   mkConversation (lit "b") [];
   mkConversation (lit "c") []].

(** A memory that lists the three conversations, has the hello message
    first in conversation b and nothing in the others. *)
Definition sample_memory : Memory :=
  mkMemory
    (fun _ _ _ => Returned three_conversations)
    (fun _ _ cid _ =>
       if Pg.list_eqb N.eqb cid (lit "b") then Returned [hello_message]
       else Returned [])
    (fun _ => 0).

(** The same, but reading conversation b fails. *)
Definition failing_memory : Memory :=
  mkMemory
    (fun _ _ _ => Returned three_conversations)
    (fun _ _ cid _ =>
       if Pg.list_eqb N.eqb cid (lit "b") then Thrown (MemoryError (lit "timeout"))
       else Returned [])
    (fun _ => 0).

(** A memory in which reading b and reading c both fail, and the read of c
    is the one rejected first. *)
Definition racing_memory : Memory :=
  mkMemory
    (fun _ _ _ => Returned three_conversations)
    (fun _ _ cid _ =>
       if Pg.list_eqb N.eqb cid (lit "b") then Thrown (MemoryError (lit "timeout"))
       else Thrown (MemoryError (lit "refused")))
    (fun _ => 1).

End Legacy.

(** ** Facts about strings *)

Module JSFacts.

Lemma truthy_false_iff (s : jsstring) : truthy s = false <-> s = [].
Proof. destruct s; simpl; split; congruence. Qed.

Lemma truthy_true_iff (s : jsstring) : truthy s = true <-> s <> [].
Proof. destruct s; simpl; split; congruence. Qed.

Lemma trimStart_nil_iff (s : jsstring) :
  trimStart s = [] <-> forallb isWhiteSpace s = true.
Proof.
  induction s as [|c s IH]; simpl.
  - tauto.
  - destruct (isWhiteSpace c); simpl; [exact IH|].
    split; discriminate.
Qed.

(** What [trimStart] leaves does not start with white space. *)
Lemma trimStart_head (s : jsstring) (c : N) (r : jsstring) :
  trimStart s = c :: r -> isWhiteSpace c = false.
Proof.
  induction s as [|d s IH]; simpl; [discriminate|].
  destruct (isWhiteSpace d) eqn:E; [exact IH|].
  intros H. injection H as -> _. exact E.
Qed.

Lemma forallb_rev {A} (p : A -> bool) (l : list A) :
  forallb p (rev l) = forallb p l.
Proof.
  induction l as [|x l IH]; simpl; [reflexivity|].
  rewrite forallb_app, IH. simpl. rewrite andb_true_r. apply andb_comm.
Qed.

(** A string trims to the empty string exactly when it is blank. *)
Lemma trim_nil_iff (s : jsstring) :
  trim s = [] <-> forallb isWhiteSpace s = true.
Proof.
  unfold trim, trimEnd. split.
  - intros H.
    assert (Hr : trimStart (rev (trimStart s)) = []).
    { destruct (trimStart (rev (trimStart s))) as [|x l] eqn:E; [reflexivity|].
      simpl in H. destruct (rev l); discriminate. }
    apply trimStart_nil_iff in Hr. rewrite forallb_rev in Hr.
    destruct (trimStart s) as [|c r] eqn:E.
    + now apply trimStart_nil_iff.
    + apply trimStart_head in E. simpl in Hr. rewrite E in Hr. discriminate.
  - intros H. apply trimStart_nil_iff in H. rewrite H. reflexivity.
Qed.

Lemma trimStart_idem (s : jsstring) : trimStart (trimStart s) = trimStart s.
Proof.
  induction s as [|c s IH]; simpl; [reflexivity|].
  destruct (isWhiteSpace c) eqn:E; [exact IH|].
  simpl. now rewrite E.
Qed.

Lemma trimStart_snoc (l : jsstring) (c : N) :
  isWhiteSpace c = false -> trimStart (l ++ [c]) = trimStart l ++ [c].
Proof.
  intros Hc. induction l as [|x l IH]; simpl.
  - now rewrite Hc.
  - destruct (isWhiteSpace x); [exact IH|reflexivity].
Qed.

Lemma trimEnd_idem (s : jsstring) : trimEnd (trimEnd s) = trimEnd s.
Proof. unfold trimEnd. now rewrite rev_involutive, trimStart_idem. Qed.

(** Trimming the end of a string that starts with a non-blank keeps that
    start. *)
Lemma trimStart_trimEnd (s : jsstring) :
  trimStart (trimEnd (trimStart s)) = trimEnd (trimStart s).
Proof.
  destruct (trimStart s) as [|c r] eqn:E; [reflexivity|].
  apply trimStart_head in E.
  unfold trimEnd. simpl. rewrite (trimStart_snoc _ _ E), rev_app_distr.
  simpl. now rewrite E.
Qed.

Lemma trim_idem (s : jsstring) : trim (trim s) = trim s.
Proof.
  unfold trim at 1. fold (trim s). unfold trim at 1 2.
  now rewrite trimStart_trimEnd, trimEnd_idem.
Qed.

Lemma join_head (sep : jsstring) (c : N) (p : jsstring) (rest : list jsstring) :
  exists r, join sep ((c :: p) :: rest) = c :: r.
Proof. destruct rest; simpl; eauto. Qed.

Lemma slice0_length (n : nat) (s : jsstring) : List.length (slice0 n s) <= n.
Proof. unfold slice0. apply firstn_le_length. Qed.

Lemma mapi_from_nth {A B} (f : A -> nat -> B) (xs : list A) :
  forall start idx x,
    nth_error xs idx = Some x ->
    nth_error (mapi_from start f xs) idx = Some (f x (start + idx)).
Proof.
  induction xs as [|y xs IH]; intros start idx x H.
  - destruct idx; discriminate.
  - destruct idx as [|idx]; simpl in *.
    + injection H as ->. now rewrite Nat.add_0_r.
    + rewrite (IH (S start) idx x H). f_equal. f_equal. lia.
Qed.

Lemma mapi_from_length {A B} (f : A -> nat -> B) (xs : list A) :
  forall start, List.length (mapi_from start f xs) = List.length xs.
Proof. induction xs; intros; simpl; [reflexivity|]. now rewrite IHxs. Qed.

(** Joining is putting the separator before every part and taking the
    first one off again. *)
Lemma join_concat (sep : jsstring) (parts : list jsstring) :
  parts <> [] ->
  sep ++ join sep parts = List.concat (map (app sep) parts).
Proof.
  induction parts as [|p [|q rest] IH]; intros H; [congruence| |].
  - simpl. now rewrite !app_nil_r.
  - change (join sep (p :: q :: rest)) with (p ++ sep ++ join sep (q :: rest)).
    rewrite IH by discriminate.
    change (List.concat (map (app sep) (p :: q :: rest)))
      with ((sep ++ p) ++ List.concat (map (app sep) (q :: rest))).
    now rewrite <- app_assoc.
Qed.

(** The interpolated number is its decimal numeral. *)
Lemma lit_string_of_uint (d : Decimal.uint) :
  lit (NilEmpty.string_of_uint d) = uint_digits d.
Proof.
  unfold lit. induction d; simpl; try reflexivity; now rewrite IHd.
Qed.

Lemma uint_digits_range (d : Decimal.uint) :
  Forall (fun c => (48 <= c <= 57)%N) (uint_digits d).
Proof. induction d; simpl; constructor; try assumption; lia. Qed.

Lemma of_uint_acc_fold (d : Decimal.uint) :
  forall acc : positive,
    N.pos (Pos.of_uint_acc d acc)
    = fold_left decimal_step (uint_digits d) (N.pos acc).
Proof.
  induction d; intros acc; cbn [Pos.of_uint_acc uint_digits fold_left];
    try reflexivity; rewrite IHd; f_equal; unfold decimal_step; lia.
Qed.

Lemma of_uint_fold (d : Decimal.uint) :
  N.of_uint d = fold_left decimal_step (uint_digits d) 0%N.
Proof.
  unfold N.of_uint.
  induction d; cbn [Pos.of_uint uint_digits fold_left]; try reflexivity;
    try exact IHd; apply of_uint_acc_fold.
Qed.

Lemma unorm_head (d : Decimal.uint) (rest : jsstring) :
  uint_digits (Decimal.unorm d) = 48%N :: rest -> rest = [].
Proof.
  unfold Decimal.unorm.
  induction d; simpl; try discriminate.
  - intros H. now injection H as <-.
  - exact IHd.
Qed.

Lemma String_of_N_decimal (n : nat) : decimal_of (String_of_N (N.of_nat n)) n.
Proof.
  unfold String_of_N.
  assert (Hn : N.to_uint (N.of_nat n) = Decimal.unorm (N.to_uint (N.of_nat n))).
  { rewrite <- DecimalN.Unsigned.to_of. now rewrite DecimalN.Unsigned.of_to. }
  assert (Hd : lit (NilZero.string_of_uint (N.to_uint (N.of_nat n)))
               = uint_digits (N.to_uint (N.of_nat n))).
  { unfold NilZero.string_of_uint.
    destruct (N.to_uint (N.of_nat n)) eqn:E;
      try (rewrite <- lit_string_of_uint; reflexivity).
    exfalso. symmetry in Hn. now apply DecimalFacts.unorm_nonnil in Hn. }
  rewrite Hd. split; [|split; [|split]].
  - intros H. destruct (N.to_uint (N.of_nat n)) eqn:E; discriminate.
  - apply uint_digits_range.
  - intros rest H. rewrite Hn in H. now apply unorm_head in H.
  - rewrite <- of_uint_fold. apply DecimalN.Unsigned.of_to.
Qed.

End JSFacts.

Example sky_chunks :
  Demo.split16 Demo.sky_text
  = [lit "The sky is blue."; lit " Paris is in Fra"; lit "nce."].
Proof. reflexivity. Qed.

Example almanac_chunks :
  Demo.paragraphs Demo.sky_text = [Demo.sky_text]
  /\ Demo.paragraphs Demo.almanac_text
     = [Demo.sky_paragraph; Demo.paris_paragraph; Demo.water_paragraph]
  /\ map (@List.length N)
         [Demo.sky_paragraph; Demo.paris_paragraph; Demo.water_paragraph]
     = [98; 98; 98].
Proof. vm_compute. repeat split. Qed.

Example sky_ingested :
  map row_content (documents Demo.sky_world)
  = [lit "The sky is blue."; lit " Paris is in Fra"; lit "nce."]
  /\ map row_chunk_index (documents Demo.sky_world) = [Some 0%Z; Some 1%Z; Some 2%Z]
  /\ map row_id (documents Demo.sky_world) = [1; 2; 3]%N.
Proof. vm_compute. repeat split. Qed.

Example almanac_ingested :
  map row_content (documents Demo.almanac_world)
  = [Demo.sky_paragraph; Demo.paris_paragraph; Demo.water_paragraph]
  /\ map row_chunk_index (documents Demo.almanac_world)
     = [Some 0%Z; Some 1%Z; Some 2%Z]
  /\ map row_id (documents Demo.almanac_world) = [1; 2; 3]%N.
Proof. vm_compute. repeat split. Qed.

(** ** Facts about the database model *)

Module PgFacts.
Import Pg.

Lemma insert_desc_In (x y : ResultRow) (l : list ResultRow) :
  In y (insert_desc x l) <-> y = x \/ In y l.
Proof.
  induction l as [|z l IH]; simpl.
  - intuition congruence.
  - destruct (Qle_bool (res_similarity z) (res_similarity x)); simpl.
    + intuition congruence.
    + rewrite IH. intuition congruence.
Qed.

Lemma insert_desc_Forall (P : ResultRow -> Prop) (x : ResultRow) (l : list ResultRow) :
  P x -> Forall P l -> Forall P (insert_desc x l).
Proof.
  intros Hx Hl. apply Forall_forall. intros y Hy.
  apply insert_desc_In in Hy. destruct Hy as [->|Hy]; [exact Hx|].
  rewrite Forall_forall in Hl. now apply Hl.
Qed.

Lemma insert_desc_sorted (x : ResultRow) (l : list ResultRow) :
  sorted_desc l -> sorted_desc (insert_desc x l).
Proof.
  induction l as [|y l IH]; simpl; intros Hs.
  - split; [constructor | exact I].
  - destruct Hs as [Hy Hl].
    destruct (Qle_bool (res_similarity y) (res_similarity x)) eqn:E; simpl.
    + apply Qle_bool_iff in E. split; [|split; assumption].
      constructor; [exact E|].
      eapply Forall_impl; [|exact Hy].
      intros z Hz. simpl in Hz. eapply Qle_trans; eassumption.
    + split; [|now apply IH].
      apply insert_desc_Forall; [|exact Hy].
      destruct (Qlt_le_dec (res_similarity x) (res_similarity y)) as [Hlt|Hle].
      * now apply Qlt_le_weak.
      * apply Qle_bool_iff in Hle. congruence.
Qed.

Lemma order_by_sorted (rows : list ResultRow) :
  sorted_desc (order_by_similarity_desc rows).
Proof.
  induction rows as [|x rows IH]; simpl; [exact I|].
  now apply insert_desc_sorted.
Qed.

Lemma order_by_In (rows : list ResultRow) (y : ResultRow) :
  In y (order_by_similarity_desc rows) <-> In y rows.
Proof.
  induction rows as [|x rows IH]; simpl; [tauto|].
  rewrite insert_desc_In, IH. intuition congruence.
Qed.

Lemma sorted_desc_firstn (n : nat) (l : list ResultRow) :
  sorted_desc l -> sorted_desc (firstn n l).
Proof.
  revert l. induction n as [|n IH]; intros [|x l]; simpl; try tauto.
  intros [Hx Hl]. split; [|now apply IH].
  apply Forall_forall. intros y Hy. rewrite Forall_forall in Hx.
  apply Hx. revert Hy. clear. revert l.
  induction n as [|n IH]; intros [|z l]; simpl; try tauto.
  intros [->|H]; [now left | right; now apply IH].
Qed.

Lemma In_firstn {A} (n : nat) (l : list A) (x : A) : In x (firstn n l) -> In x l.
Proof.
  revert l. induction n as [|n IH]; intros [|z l]; simpl; try tauto.
  intros [->|H]; [now left | right; now apply IH].
Qed.

(** A select that the server accepts answers as the statement reads: at most
    LIMIT rows, by non-increasing similarity, each the scoring of a stored
    row against the query vector. *)
Lemma select_rows_as_written (env : Env) (vec_param : nat)
    (where_eq : option (string * nat)) (limit_param : nat)
    (params : list QueryParam) (table : list Row) (rows : list ResultRow) :
  select_rows env vec_param where_eq limit_param params table = Returned rows ->
  exists q n,
    param params vec_param = Some (PVectorLiteral q)
    /\ param params limit_param = Some (PNumber n)
    /\ List.length rows <= Z.to_nat n
    /\ sorted_desc rows
    /\ Forall (fun r => exists row, In row table /\ r = scored env q row) rows.
Proof.
  unfold select_rows.
  destruct (param params vec_param) as [[s|q|m]|]; try discriminate.
  destruct (param params limit_param) as [[s|v|n]|]; try discriminate.
  destruct (negb (List.length q =? VECTOR_DIMENSIONS)); [discriminate|].
  destruct (n <? 0)%Z; [discriminate|].
  intros H. injection H as <-.
  exists q, n. repeat split.
  - apply firstn_le_length.
  - apply sorted_desc_firstn, order_by_sorted.
  - apply Forall_forall. intros r Hr.
    apply In_firstn, order_by_In, in_map_iff in Hr.
    destruct Hr as [row [<- Hrow]]. apply filter_In in Hrow.
    exists row. tauto.
Qed.

(** The statement as it reads without its WHERE clause, the limit bound to
    its second placeholder, is accepted and gives the two nearest rows. *)
Example select_without_where_runs :
  option_map (map res_id)
    (match fst (pool_query Demo.healthy
                  (SelectBySimilarity ["id"; "content"]%string "embedding" 1
                     "documents" None 2)
                  [PVectorLiteral Demo.vector; PNumber 2] Demo.sky_world) with
     | Returned rows => Some rows
     | Thrown _ => None
     end)
  = Some [1; 2]%N.
Proof. vm_compute. reflexivity. Qed.

(** The search statement names a column the table does not have. *)
Lemma searchSql_rejected (params : list QueryParam) :
  rejects searchSql params = Some (PgError "42703").
Proof. reflexivity. Qed.

(** It has three placeholders, and [searchDocumentsByQuery] binds two
    values. *)
Lemma searchSql_placeholders : params_required searchSql = 3.
Proof. reflexivity. Qed.

Lemma insertSql_accepted (a b c : QueryParam) :
  rejects insertSql [a; b; c] = None.
Proof. reflexivity. Qed.

Lemma new_row_insertSql (id : N) (c : jsstring) (e : Embedding) (i : Z) :
  new_row id ["content"; "embedding"; "chunk_index"]%string [1; 2; 3]
          [PText c; PVectorLiteral e; PNumber i]
  = if List.length e =? VECTOR_DIMENSIONS
    then if existsb (N.eqb 0) c then Thrown (PgError "22021")
         else Returned (mkRow id c e (Some i))
    else Thrown (PgError "22000").
Proof. reflexivity. Qed.

(** What the INSERT of one chunk does. *)
Lemma pool_query_insert (env : Env) (c : jsstring) (e : Embedding) (i : Z) (w : World) :
  let params := [PText c; PVectorLiteral e; PNumber i] in
  let w1 := record_call (PoolQuery insertSql params) w in
  pool_query env insertSql params w
  = match pg_fault env (trace w) with
    | Some ex => (Thrown ex, w1)
    | None =>
        if List.length e =? VECTOR_DIMENSIONS
        then if existsb (N.eqb 0) c then (Thrown (PgError "22021"), w1)
             else (Returned [],
                   mkWorld (documents w ++ [mkRow (next_id w) c e (Some i)])
                           (N.succ (next_id w)) (trace w1))
        else (Thrown (PgError "22000"), w1)
    end.
Proof.
  intros params w1. unfold pool_query. fold params. fold w1.
  destruct (pg_fault env (trace w)); [reflexivity|].
  unfold params at 1. rewrite insertSql_accepted.
  unfold insertSql. unfold params at 1. rewrite new_row_insertSql.
  destruct (List.length e =? VECTOR_DIMENSIONS); [|reflexivity].
  destruct (existsb (N.eqb 0) c); reflexivity.
Qed.

(** The search statement never runs. *)
Lemma pool_query_search (env : Env) (params : list QueryParam) (w : World) :
  exists e,
    pool_query env searchSql params w
    = (Thrown e, record_call (PoolQuery searchSql params) w).
Proof.
  unfold pool_query.
  destruct (pg_fault env (trace w)) as [ex|]; [now exists ex|].
  rewrite searchSql_rejected. now eexists.
Qed.

End PgFacts.

(** ** Facts about [vector-store.ts] *)

Section VectorStoreFacts.
Variable env : Env.

(** [getEmbedding], one case per way through it. *)
Lemma getEmbedding_run (text : jsstring) (w : World) :
  getEmbedding env text w
  = if truthy (trim text) then
      let w1 := record_call (EmbeddingsCreate EMBEDDING_MODEL (trim text)) w in
      match embeddings_create env (trace w) (trim text) with
      | Returned (Some e) =>
          if List.length e =? 0 then (Thrown EMPTY_EMBEDDING, w1)
          else (Returned e, w1)
      | Returned None => (Thrown EMPTY_EMBEDDING, w1)
      | Thrown ex => (Thrown ex, w1)
      end
    else (Thrown EMPTY_INPUT, w).
Proof.
  unfold getEmbedding. destruct (truthy (trim text)); simpl; [|reflexivity].
  unfold bind, outside.
  destruct (embeddings_create env (trace w) (trim text)) as [[e|]|ex];
    try reflexivity.
  destruct (List.length e =? 0); reflexivity.
Qed.

Lemma getEmbedding_returned (text : jsstring) (w w' : World) (e : Embedding) :
  getEmbedding env text w = (Returned e, w') ->
  truthy (trim text) = true
  /\ embeddings_create env (trace w) (trim text) = Returned (Some e)
  /\ w' = record_call (EmbeddingsCreate EMBEDDING_MODEL (trim text)) w.
Proof.
  rewrite getEmbedding_run.
  destruct (truthy (trim text)); [|discriminate]. simpl.
  destruct (embeddings_create env (trace w) (trim text)) as [[v|]|ex];
    try discriminate.
  destruct (List.length v =? 0); [discriminate|].
  intros H. injection H as -> <-. auto.
Qed.

(** Whatever [getEmbedding] does, the table is as it was, and the log grew by
    the embedding request at most. *)
Lemma getEmbedding_world (text : jsstring) (w w' : World) (r : Outcome Embedding) :
  getEmbedding env text w = (r, w') ->
  w' = w \/ w' = record_call (EmbeddingsCreate EMBEDDING_MODEL (trim text)) w.
Proof.
  rewrite getEmbedding_run.
  destruct (truthy (trim text)); simpl.
  - destruct (embeddings_create env (trace w) (trim text)) as [[v|]|ex];
      [destruct (List.length v =? 0)| |];
      intros H; injection H as _ <-; now right.
  - intros H; injection H as _ <-; now left.
Qed.

(** A non-blank query never gets an answer: the embedding fails, or the
    pool fails, or the server rejects the statement. *)
Lemma search_returns_only_for_blank (query : jsstring) (limit : Z)
    (w w' : World) (rows : list ResultRow) :
  searchDocumentsByQuery env query limit w = (Returned rows, w') ->
  trim query = [] /\ rows = [] /\ w' = w.
Proof.
  unfold searchDocumentsByQuery.
  destruct (truthy (trim query)) eqn:T; simpl.
  - unfold bind.
    destruct (getEmbedding env (trim query) w) as [[e|ex] w1]; [|discriminate].
    destruct (PgFacts.pool_query_search env [PVectorLiteral e; PNumber limit] w1)
      as [ex ->].
    discriminate.
  - apply JSFacts.truthy_false_iff in T. unfold ret.
    intros H. injection H as <- <-. auto.
Qed.

(** A round of the loop that completes: one embedding request, one INSERT,
    one new row at the end of the table. *)
Lemma ingestChunk_returned (chunk : jsstring) (i : nat) (w w' : World) :
  ingestChunk env chunk i w = (Returned tt, w') ->
  exists emb,
    documents w' = documents w ++ [mkRow (next_id w) chunk emb (Some (Z.of_nat i))]
    /\ next_id w' = N.succ (next_id w)
    /\ trace w' = trace w ++
         [EmbeddingsCreate EMBEDDING_MODEL (trim chunk);
          PoolQuery insertSql [PText chunk; PVectorLiteral emb; PNumber (Z.of_nat i)]].
Proof.
  unfold ingestChunk, bind.
  destruct (getEmbedding env chunk w) as [[emb|ex] w1] eqn:G; [|discriminate].
  apply getEmbedding_returned in G. destruct G as (_ & _ & ->).
  rewrite PgFacts.pool_query_insert. simpl.
  destruct (pg_fault env _); [discriminate|].
  destruct (List.length emb =? VECTOR_DIMENSIONS); [|discriminate].
  destruct (existsb (N.eqb 0) chunk); [discriminate|].
  unfold ret. intros H. injection H as <-. exists emb. simpl.
  repeat split. now rewrite <- app_assoc.
Qed.

(** A round that throws leaves the table as it found it. *)
Lemma ingestChunk_thrown (chunk : jsstring) (i : nat) (w w' : World) (e : Exn) :
  ingestChunk env chunk i w = (Thrown e, w') ->
  documents w' = documents w /\ next_id w' = next_id w
  /\ exists tail, trace w' = trace w ++ tail.
Proof.
  unfold ingestChunk, bind.
  destruct (getEmbedding env chunk w) as [[emb|ex] w1] eqn:G.
  - apply getEmbedding_returned in G. destruct G as (_ & _ & ->).
    rewrite PgFacts.pool_query_insert. simpl.
    destruct (pg_fault env _).
    + intros H. injection H as _ <-. simpl. repeat split.
      eexists. now rewrite <- app_assoc.
    + destruct (List.length emb =? VECTOR_DIMENSIONS);
        [destruct (existsb (N.eqb 0) chunk)|].
      * intros H. injection H as _ <-. simpl. repeat split.
        eexists. now rewrite <- app_assoc.
      * unfold ret. discriminate.
      * intros H. injection H as _ <-. simpl. repeat split.
        eexists. now rewrite <- app_assoc.
  - apply getEmbedding_world in G. intros H. injection H as _ <-.
    destruct G as [->| ->]; simpl; repeat split.
    + exists []. now rewrite app_nil_r.
    + now eexists.
Qed.

(** The loop from index [i]: [k] rounds complete, in order, and either the
    chunks are used up or round [k] throws and nothing is undone. *)
Lemma ingestFrom_run (rest : list jsstring) :
  forall (i : nat) (w w' : World) (r : Outcome unit),
    ingestFrom env rest i w = (r, w') ->
    exists k embs tail,
      k <= List.length rest /\ List.length embs = k
      /\ documents w' = documents w ++ stored_rows (next_id w) (firstn k rest) embs i
      /\ trace w' = trace w ++ ingest_calls (firstn k rest) embs i ++ tail
      /\ match r with
         | Returned _ => k = List.length rest /\ tail = []
         | Thrown e =>
             exists chunk wk,
               nth_error rest k = Some chunk
               /\ documents wk = documents w'
               /\ trace wk = trace w ++ ingest_calls (firstn k rest) embs i
               /\ ingestChunk env chunk (i + k) wk = (Thrown e, w')
         end.
Proof.
  induction rest as [|chunk rest IH]; intros i w w' r H.
  - simpl in H. unfold ret in H. injection H as <- <-.
    exists 0, [], []. simpl. rewrite !app_nil_r. repeat split; lia.
  - simpl in H. unfold bind in H.
    destruct (ingestChunk env chunk i w) as [[[]|e] w1] eqn:E.
    + apply ingestChunk_returned in E. destruct E as (emb & Hd & Hn & Ht).
      apply IH in H. destruct H as (k & embs & tail & Hk & Hl & Hd' & Ht' & Hr).
      exists (S k), (emb :: embs), tail. simpl.
      split; [lia|]. split; [now rewrite Hl|].
      rewrite Hd', Hd, Hn, Ht', Ht, <- !app_assoc. simpl.
      split; [reflexivity|]. split; [reflexivity|].
      destruct r as [u|ex]; [destruct Hr; split; [lia|assumption]|].
      destruct Hr as (c & wk & Hc & Hwd & Hwt & Hrun).
      exists c, wk. rewrite Hwt, Ht, <- !app_assoc. simpl.
      replace (i + S k) with (S i + k) by lia.
      rewrite Hwd, Hd', Hd, Hn, <- !app_assoc. auto.
    + injection H as <- <-.
      destruct (ingestChunk_thrown _ _ _ _ _ E) as (Hd & _ & tail & Ht).
      exists 0, [], tail. simpl. rewrite Hd, app_nil_r.
      repeat split; try lia; try assumption.
      exists chunk, w. rewrite Nat.add_0_r, app_nil_r. auto.
Qed.

Lemma splitIntoChunks_run (text : jsstring) (w : World) :
  splitIntoChunks env text w
  = (Returned (if truthy (trim text) then splitText env (trim text) else []), w).
Proof. unfold splitIntoChunks. destruct (truthy (trim text)); reflexivity. Qed.

(** The two chunking functions agree on every text that is not blank: both
    hand the trimmed text to the splitter. *)
Lemma chunkContent_splitIntoChunks (text : jsstring) (w : World) :
  trim text <> [] -> chunkContent env text w = splitIntoChunks env text w.
Proof.
  intros H. apply JSFacts.truthy_true_iff in H.
  rewrite splitIntoChunks_run, H. reflexivity.
Qed.

(** [ingestDocumentText] is the loop from index 0 over the chunks. *)
Lemma ingestDocumentText_run (text : jsstring) (w : World) :
  ingestDocumentText env text w
  = ingestFrom env (if truthy (trim text) then splitText env (trim text) else []) 0 w.
Proof.
  unfold ingestDocumentText, bind. rewrite splitIntoChunks_run.
  destruct (if truthy (trim text) then splitText env (trim text) else []);
    reflexivity.
Qed.

Lemma stored_rows_indices (chunks : list jsstring) :
  forall (embs : list Embedding) (id : N) (i : nat),
    List.length embs = List.length chunks ->
    map row_chunk_index (stored_rows id chunks embs i)
    = map (fun j => Some (Z.of_nat j)) (seq i (List.length chunks))
    /\ map row_content (stored_rows id chunks embs i) = chunks.
Proof.
  induction chunks as [|c chunks IH]; intros [|e embs] id i H;
    simpl in *; try discriminate; [auto|].
  injection H as H. destruct (IH embs (N.succ id) (S i) H) as [-> ->]. auto.
Qed.

(** The loop over two lists of chunks, one after the other, is the loop
    over the first followed, if it completes, by the loop over the second
    with the index carried on. *)
Lemma ingestFrom_app (pre rest : list jsstring) :
  forall i w,
    ingestFrom env (pre ++ rest) i w
    = match ingestFrom env pre i w with
      | (Returned _, w1) => ingestFrom env rest (i + List.length pre) w1
      | (Thrown e, w1) => (Thrown e, w1)
      end.
Proof.
  induction pre as [|c pre IH]; intros i w; simpl.
  - now rewrite Nat.add_0_r.
  - unfold bind. destruct (ingestChunk env c i w) as [[u|e] w1]; [|reflexivity].
    rewrite IH. now replace (S i + List.length pre) with (i + S (List.length pre)) by lia.
Qed.

(** A round that is answered embeds the chunk, stores it and returns. *)
Lemma ingestChunk_answered (chunk : jsstring) (emb : Embedding) (i : nat) (w : World) :
  round_answered env (trace w) chunk emb ->
  ingestChunk env chunk i w = (Returned tt, after_rounds w [chunk] [emb] i).
Proof.
  intros (Ht & He & Hl & Hf & Hz). apply JSFacts.truthy_true_iff in Ht.
  unfold ingestChunk, bind. rewrite getEmbedding_run, Ht. cbv zeta.
  rewrite He, Hl. cbn [Nat.eqb VECTOR_DIMENSIONS].
  rewrite PgFacts.pool_query_insert. cbv zeta.
  cbn [record_call trace documents next_id].
  unfold embedding_request in Hf. rewrite Hf, Hl, Nat.eqb_refl, Hz.
  unfold ret, after_rounds. cbn [stored_rows ingest_calls List.length].
  f_equal. f_equal; [lia|]. now rewrite <- app_assoc.
Qed.

Lemma record_twice (chunk : jsstring) (emb : Embedding) (i : nat) (w : World) :
  record_call (PoolQuery insertSql
                 [PText chunk; PVectorLiteral emb; PNumber (Z.of_nat i)])
    (record_call (EmbeddingsCreate EMBEDDING_MODEL (trim chunk)) w)
  = record_calls [embedding_request chunk; insert_request chunk emb i] w.
Proof.
  unfold record_calls, record_call. cbn [documents next_id trace].
  now rewrite <- app_assoc.
Qed.

(** A round that is not answered throws what went wrong, with the table as
    the round found it. *)
Lemma ingestChunk_stops (chunk : jsstring) (i : nat) (w : World)
    (e : Exn) (calls : list Event) :
  round_stops env (trace w) chunk i e calls ->
  ingestChunk env chunk i w = (Thrown e, record_calls calls w).
Proof.
  intros H. unfold ingestChunk, bind. rewrite getEmbedding_run.
  destruct H as [Ht|ex Ht He|answer Ht He Ha|emb ex Ht He Hn Hf
                 |emb Ht He Hn Hf Hl|emb Ht He Hf Hl Hz];
    [apply JSFacts.truthy_false_iff in Ht
    |apply JSFacts.truthy_true_iff in Ht ..].
  - rewrite Ht. simpl. unfold record_calls. rewrite app_nil_r. now destruct w.
  - rewrite Ht. cbv zeta. now rewrite He.
  - rewrite Ht. cbv zeta. rewrite He. now destruct Ha as [->| ->].
  - rewrite Ht. cbv zeta. rewrite He.
    destruct emb as [|q emb]; [congruence|]. cbn [List.length Nat.eqb].
    rewrite PgFacts.pool_query_insert. cbv zeta.
    cbn [record_call trace documents next_id].
    unfold embedding_request in Hf. rewrite Hf.
    now rewrite record_twice.
  - rewrite Ht. cbv zeta. rewrite He.
    destruct emb as [|q emb]; [congruence|]. cbn [List.length Nat.eqb].
    rewrite PgFacts.pool_query_insert. cbv zeta.
    cbn [record_call trace documents next_id].
    unfold embedding_request in Hf. rewrite Hf.
    apply Nat.eqb_neq in Hl. rewrite Hl.
    now rewrite record_twice.
  - rewrite Ht. cbv zeta. rewrite He, Hl. cbn [Nat.eqb VECTOR_DIMENSIONS].
    rewrite PgFacts.pool_query_insert. cbv zeta.
    cbn [record_call trace documents next_id].
    unfold embedding_request in Hf. rewrite Hf, Hl, Nat.eqb_refl, Hz.
    now rewrite record_twice.
Qed.

(** Every round is answered or stops. *)
Lemma round_answered_or_stops (log : list Event) (chunk : jsstring) (i : nat) :
  (exists emb, round_answered env log chunk emb)
  \/ (exists e calls, round_stops env log chunk i e calls).
Proof.
  destruct (trim chunk) as [|c0 t] eqn:Ht.
  { right. eexists _, _. now apply stops_blank. }
  assert (Hne : trim chunk <> []) by (rewrite Ht; discriminate).
  destruct (embeddings_create env log (trim chunk)) as [[emb|]|ex] eqn:He.
  - destruct emb as [|q emb'] eqn:Hemb.
    { right. eexists _, _. eapply stops_no_vector; eauto. }
    rewrite <- Hemb in *.
    assert (Hnn : emb <> []) by (rewrite Hemb; discriminate).
    clear Hemb.
    destruct (pg_fault env (log ++ [embedding_request chunk])) as [ex|] eqn:Hf.
    { right. eexists _, _. eapply stops_pool; eauto. }
    destruct (Nat.eq_dec (List.length emb) VECTOR_DIMENSIONS) as [Hl|Hl].
    + destruct (existsb (N.eqb 0) chunk) eqn:Hz.
      * right. eexists _, _. eapply stops_nul; eauto.
      * left. exists emb. repeat split; assumption.
    + right. eexists _, _. eapply stops_dimension; eauto.
  - right. eexists _, _. eapply stops_no_vector; eauto.
  - right. eexists _, _. eapply stops_provider; eauto.
Qed.

Lemma after_rounds_cons (w : World) (c : jsstring) (e : Embedding)
    (chunks : list jsstring) (embs : list Embedding) (i : nat) :
  after_rounds (after_rounds w [c] [e] i) chunks embs (S i)
  = after_rounds w (c :: chunks) (e :: embs) i.
Proof.
  unfold after_rounds. cbn [documents next_id trace stored_rows ingest_calls].
  cbn [List.length].
  replace (next_id w + N.of_nat 1)%N with (N.succ (next_id w)) by lia.
  f_equal.
  - now rewrite <- app_assoc.
  - lia.
  - now rewrite <- app_assoc.
Qed.

(** The loop over chunks whose rounds are all answered returns, with a row
    for each. *)
Lemma ingestFrom_answered (chunks : list jsstring) :
  forall (embs : list Embedding) (i : nat) (w : World),
    rounds_answered env (trace w) chunks embs i ->
    ingestFrom env chunks i w = (Returned tt, after_rounds w chunks embs i).
Proof.
  induction chunks as [|c chunks IH]; intros [|e embs] i w H;
    simpl in H; try contradiction.
  - simpl. unfold ret, after_rounds. simpl. rewrite !app_nil_r, N.add_0_r.
    now destruct w.
  - destruct H as [Hc Hr]. cbn [ingestFrom]. unfold bind.
    rewrite (ingestChunk_answered c e i w Hc).
    rewrite (IH embs (S i) (after_rounds w [c] [e] i)).
    + now rewrite after_rounds_cons.
    + exact Hr.
Qed.

(** The loop stops in the first round that is not answered: the rows of the
    rounds before it stay, and nothing is done for the chunks after it. *)
Lemma ingestFrom_stops (pre : list jsstring) (chunk : jsstring)
    (post : list jsstring) (embs : list Embedding) (i : nat) (w : World)
    (e : Exn) (calls : list Event) :
  rounds_answered env (trace w) pre embs i ->
  round_stops env (trace (after_rounds w pre embs i)) chunk
              (i + List.length pre) e calls ->
  ingestFrom env (pre ++ chunk :: post) i w
  = (Thrown e, record_calls calls (after_rounds w pre embs i)).
Proof.
  intros Hp Hs. rewrite ingestFrom_app, (ingestFrom_answered pre embs i w Hp).
  cbn [ingestFrom]. unfold bind.
  now rewrite (ingestChunk_stops chunk _ _ e calls Hs).
Qed.

(** Every list of chunks is answered throughout, or up to a round that
    stops. *)
Lemma rounds_answered_or_stopped (chunks : list jsstring) :
  forall (i : nat) (w : World),
    (exists embs, rounds_answered env (trace w) chunks embs i)
    \/ (exists pre chunk post embs e calls,
          chunks = pre ++ chunk :: post
          /\ rounds_answered env (trace w) pre embs i
          /\ round_stops env (trace (after_rounds w pre embs i)) chunk
                         (i + List.length pre) e calls).
Proof.
  induction chunks as [|c chunks IH]; intros i w.
  - left. now exists [].
  - destruct (round_answered_or_stops (trace w) c i) as [(emb & Ha)|(e & calls & Hs)].
    + destruct (IH (S i) (after_rounds w [c] [emb] i))
        as [(embs & Hr)|(pre & chunk & post & embs & e & calls & -> & Hr & Hs)].
      * left. exists (emb :: embs). split; [exact Ha|exact Hr].
      * right. exists (c :: pre), chunk, post, (emb :: embs), e, calls.
        split; [reflexivity|]. split; [split; [exact Ha|exact Hr]|].
        rewrite after_rounds_cons in Hs. cbn [List.length].
        now replace (i + S (List.length pre)) with (S i + List.length pre) by lia.
    + right. exists [], c, chunks, [], e, calls.
      split; [reflexivity|]. split; [exact I|].
      unfold after_rounds. cbn [stored_rows ingest_calls trace List.length].
      now rewrite app_nil_r, Nat.add_0_r.
Qed.

Lemma rounds_answered_length (chunks : list jsstring) :
  forall (embs : list Embedding) (log : list Event) (i : nat),
    rounds_answered env log chunks embs i ->
    List.length embs = List.length chunks.
Proof.
  induction chunks as [|c chunks IH]; intros [|e embs] log i H;
    simpl in H; try contradiction; [reflexivity|].
  destruct H as [_ H]. simpl. f_equal. exact (IH _ _ _ H).
Qed.

(** The two ways a call of [ingestDocumentText] goes, by what the outside
    parties do. *)
Lemma ingestDocumentText_answered (text : jsstring) (w : World)
    (embs : list Embedding) :
  let chunks := if truthy (trim text) then splitText env (trim text) else [] in
  rounds_answered env (trace w) chunks embs 0 ->
  ingestDocumentText env text w = (Returned tt, after_rounds w chunks embs 0).
Proof.
  intros chunks H. rewrite ingestDocumentText_run. fold chunks.
  now apply ingestFrom_answered.
Qed.

Lemma ingestDocumentText_stops (text : jsstring) (w : World)
    (pre : list jsstring) (chunk : jsstring) (post : list jsstring)
    (embs : list Embedding) (e : Exn) (calls : list Event) :
  (if truthy (trim text) then splitText env (trim text) else [])
  = pre ++ chunk :: post ->
  rounds_answered env (trace w) pre embs 0 ->
  round_stops env (trace (after_rounds w pre embs 0)) chunk (List.length pre)
              e calls ->
  ingestDocumentText env text w
  = (Thrown e, record_calls calls (after_rounds w pre embs 0)).
Proof.
  intros Hc Hp Hs. rewrite ingestDocumentText_run, Hc.
  now apply ingestFrom_stops.
Qed.

End VectorStoreFacts.

Lemma skipn_length_app {A} (l added : list A) :
  skipn (List.length l) (l ++ added) = added.
Proof. induction l; simpl; auto. Qed.

(** ** The vector store: search, ingestion, blank input *)

(** C1, at a concrete run. With three chunks of the sky text stored and
    every outside party answering, searching for the sky question with limit
    5 does not return rows: the pool rejects the statement with
    undefined_column, and the function throws. The statement names the
    column [document_id], which the table lacks, and has three placeholders,
    for which the one query made binds two values. *)
Theorem search_rejected_for_sky_question :
  map row_content (documents Demo.sky_world)
  = [lit "The sky is blue."; lit " Paris is in Fra"; lit "nce."]
  /\ fst (searchDocumentsByQuery Demo.healthy Demo.sky_question 5 Demo.sky_world)
     = Thrown (PgError "42703")
  /\ Pg.known_column "document_id" = false
  /\ Pg.params_required searchSql = 3
  /\ trace (snd (searchDocumentsByQuery Demo.healthy Demo.sky_question 5
                   Demo.sky_world))
     = trace Demo.sky_world
       ++ [EmbeddingsCreate EMBEDDING_MODEL Demo.sky_question;
           PoolQuery searchSql [PVectorLiteral Demo.vector; PNumber 5]].
Proof. vm_compute. repeat split. Qed.

(** C4. For a text that trims to the empty string, chunking gives no chunk,
    searching gives no row, ingesting returns normally, and embedding throws
    the empty-input error; each leaves the world untouched, so the table has
    no new row and no outside call was made. *)
Theorem blank_text_makes_no_outside_call
    (env : Env) (text : jsstring) (limit : Z) (w : World) :
  trim text = [] ->
  splitIntoChunks env text w = (Returned [], w)
  /\ searchDocumentsByQuery env text limit w = (Returned [], w)
  /\ ingestDocumentText env text w = (Returned tt, w)
  /\ getEmbedding env text w = (Thrown EMPTY_INPUT, w).
Proof.
  intros H. repeat split.
  - rewrite splitIntoChunks_run, H. reflexivity.
  - unfold searchDocumentsByQuery. rewrite H. reflexivity.
  - rewrite ingestDocumentText_run, H. reflexivity.
  - rewrite getEmbedding_run, H. reflexivity.
Qed.

Lemma blank_text_makes_no_outside_call_witness :
  splitIntoChunks Demo.healthy Demo.blank Demo.sky_world
    = (Returned [], Demo.sky_world)
  /\ searchDocumentsByQuery Demo.healthy Demo.blank 5 Demo.sky_world
    = (Returned [], Demo.sky_world)
  /\ ingestDocumentText Demo.healthy Demo.blank Demo.sky_world
    = (Returned tt, Demo.sky_world)
  /\ getEmbedding Demo.healthy Demo.blank Demo.sky_world
    = (Thrown EMPTY_INPUT, Demo.sky_world).
Proof.
  apply (blank_text_makes_no_outside_call Demo.healthy Demo.blank 5 Demo.sky_world).
  reflexivity.
Defined.

(** C3. [ingestDocumentText] takes the chunks in their order, embedding
    each and then inserting it with its position as chunk index. When every
    round is answered the call returns: the table has gained a row for each
    chunk, in order, chunk i under index i, and the log the embedding request
    and the INSERT of each round, in order. When the rounds before some chunk
    are answered and its own round stops, at the embedding (the chunk is
    blank, the provider rejects the request or gives no vector) or at the
    INSERT (the pool cannot be reached or refuses the row), the call throws
    the error of that step: the rows of the earlier chunks are still in the
    table, nothing taking them back, the failed round has left no row, and
    nothing is asked for the chunks after it. One of the two is always the
    case. *)
Theorem ingest_in_order_without_rollback
    (env : Env) (text : jsstring) (w : World) :
  let chunks := if truthy (trim text) then splitText env (trim text) else [] in
  splitIntoChunks env text w = (Returned chunks, w)
  /\ (forall embs,
        rounds_answered env (trace w) chunks embs 0 ->
        ingestDocumentText env text w
        = (Returned tt, after_rounds w chunks embs 0))
  /\ (forall pre chunk post embs e calls,
        chunks = pre ++ chunk :: post ->
        rounds_answered env (trace w) pre embs 0 ->
        round_stops env (trace (after_rounds w pre embs 0)) chunk
                    (List.length pre) e calls ->
        ingestDocumentText env text w
        = (Thrown e, record_calls calls (after_rounds w pre embs 0)))
  /\ ((exists embs, rounds_answered env (trace w) chunks embs 0)
      \/ (exists pre chunk post embs e calls,
            chunks = pre ++ chunk :: post
            /\ rounds_answered env (trace w) pre embs 0
            /\ round_stops env (trace (after_rounds w pre embs 0)) chunk
                           (List.length pre) e calls)).
Proof.
  intros chunks. split; [apply splitIntoChunks_run|].
  split; [intros embs; apply ingestDocumentText_answered|].
  split.
  - intros pre chunk post embs e calls Hc.
    exact (ingestDocumentText_stops env text w pre chunk post embs e calls Hc).
  - exact (rounds_answered_or_stopped env chunks 0 w).
Qed.

Lemma ingest_in_order_without_rollback_witness :
  ingestDocumentText Demo.by_paragraph Demo.almanac_text Demo.empty_world
  = (Returned tt,
     after_rounds Demo.empty_world
       [Demo.sky_paragraph; Demo.paris_paragraph; Demo.water_paragraph]
       [Demo.vector; Demo.vector; Demo.vector] 0)
  /\ ingestDocumentText (Demo.by_paragraph_until 2) Demo.almanac_text
       Demo.empty_world
     = (Thrown (ProviderError (lit "503")),
        record_calls [embedding_request Demo.paris_paragraph]
          (after_rounds Demo.empty_world [Demo.sky_paragraph] [Demo.vector] 0))
  /\ ingestDocumentText (Demo.by_paragraph_pool_until 3) Demo.almanac_text
       Demo.empty_world
     = (Thrown (PgError "57P01"),
        record_calls [embedding_request Demo.paris_paragraph;
                      insert_request Demo.paris_paragraph Demo.vector 1]
          (after_rounds Demo.empty_world [Demo.sky_paragraph] [Demo.vector] 0)).
Proof.
  split; [|split].
  - apply (proj1 (proj2 (ingest_in_order_without_rollback Demo.by_paragraph
                           Demo.almanac_text Demo.empty_world))
             [Demo.vector; Demo.vector; Demo.vector]).
    vm_compute. repeat split; discriminate.
  - apply (proj1 (proj2 (proj2 (ingest_in_order_without_rollback
                                  (Demo.by_paragraph_until 2)
                                  Demo.almanac_text Demo.empty_world)))
             [Demo.sky_paragraph] Demo.paris_paragraph [Demo.water_paragraph]
             [Demo.vector] (ProviderError (lit "503"))
             [embedding_request Demo.paris_paragraph]).
    + vm_compute. reflexivity.
    + vm_compute. repeat split; discriminate.
    + apply stops_provider; [vm_compute; discriminate|vm_compute; reflexivity].
  - apply (proj1 (proj2 (proj2 (ingest_in_order_without_rollback
                                  (Demo.by_paragraph_pool_until 3)
                                  Demo.almanac_text Demo.empty_world)))
             [Demo.sky_paragraph] Demo.paris_paragraph [Demo.water_paragraph]
             [Demo.vector] (PgError "57P01")
             [embedding_request Demo.paris_paragraph;
              insert_request Demo.paris_paragraph Demo.vector 1]).
    + vm_compute. reflexivity.
    + vm_compute. repeat split; discriminate.
    + apply (stops_pool (Demo.by_paragraph_pool_until 3) _
               Demo.paris_paragraph 1 Demo.vector (PgError "57P01"));
        [vm_compute; discriminate|vm_compute; reflexivity
        |vm_compute; discriminate|vm_compute; reflexivity].
Defined.

(** C8, as worded, fails of a call that stops midway. The text has three
    chunks; the provider answers for the first and rejects the request for
    the second; the call has inserted the one index 0, not 0, 1, 2. *)
Lemma failed_ingestion_inserts_fewer_indices :
  exists chunks inserted,
    splitIntoChunks (Demo.by_paragraph_until 2) Demo.almanac_text Demo.empty_world
    = (Returned chunks, Demo.empty_world)
    /\ List.length chunks = 3
    /\ documents (snd (ingestDocumentText (Demo.by_paragraph_until 2)
                         Demo.almanac_text Demo.empty_world))
       = documents Demo.empty_world ++ inserted
    /\ map row_chunk_index inserted = [Some 0%Z]
    /\ map row_chunk_index inserted
       <> map (fun i => Some (Z.of_nat i)) (seq 0 (List.length chunks)).
Proof.
  exists [Demo.sky_paragraph; Demo.paris_paragraph; Demo.water_paragraph],
         [mkRow 1 Demo.sky_paragraph Demo.vector (Some 0%Z)].
  split; [vm_compute; reflexivity|]. split; [reflexivity|].
  split; [vm_compute; reflexivity|]. split; [reflexivity|].
  simpl. discriminate.
Qed.

(** C8, amended. The rows a call of [ingestDocumentText] inserts, in
    insertion order, hold the leading chunks under the indices 0, 1, ...,
    k-1, where k is the number of leading chunks whose rounds were answered.
    When every round is answered the call returns and the indices are
    exactly 0, ..., n-1 for the n chunks; when the round of chunk k stops,
    the call throws and the indices are exactly 0, ..., k-1. The call
    returns exactly when k = n. *)
Theorem chunk_indices_count_from_zero (env : Env) (text : jsstring) (w : World) :
  let chunks := if truthy (trim text) then splitText env (trim text) else [] in
  let run := ingestDocumentText env text w in
  let inserted := skipn (List.length (documents w)) (documents (snd run)) in
  let indices k := map (fun i => Some (Z.of_nat i)) (seq 0 k) in
  splitIntoChunks env text w = (Returned chunks, w)
  /\ documents (snd run) = documents w ++ inserted
  /\ (forall embs,
        rounds_answered env (trace w) chunks embs 0 ->
        fst run = Returned tt
        /\ map row_chunk_index inserted = indices (List.length chunks)
        /\ map row_content inserted = chunks)
  /\ (forall pre chunk post embs e calls,
        chunks = pre ++ chunk :: post ->
        rounds_answered env (trace w) pre embs 0 ->
        round_stops env (trace (after_rounds w pre embs 0)) chunk
                    (List.length pre) e calls ->
        fst run = Thrown e
        /\ map row_chunk_index inserted = indices (List.length pre)
        /\ map row_content inserted = pre)
  /\ (exists k,
        k <= List.length chunks
        /\ map row_chunk_index inserted = indices k
        /\ map row_content inserted = firstn k chunks
        /\ (fst run = Returned tt <-> k = List.length chunks)).
Proof.
  intros chunks run inserted indices.
  assert (A : forall embs,
             rounds_answered env (trace w) chunks embs 0 ->
             fst run = Returned tt
             /\ documents (snd run) = documents w ++ inserted
             /\ map row_chunk_index inserted = indices (List.length chunks)
             /\ map row_content inserted = chunks).
  { intros embs H. subst inserted run.
    rewrite (ingestDocumentText_answered env text w embs H). fold chunks.
    cbn [fst snd after_rounds documents]. rewrite skipn_length_app.
    destruct (stored_rows_indices chunks embs (next_id w) 0
                (rounds_answered_length env _ _ _ _ H)) as [Hi Hc].
    now rewrite Hi, Hc. }
  assert (B : forall pre chunk post embs e calls,
             chunks = pre ++ chunk :: post ->
             rounds_answered env (trace w) pre embs 0 ->
             round_stops env (trace (after_rounds w pre embs 0)) chunk
                         (List.length pre) e calls ->
             fst run = Thrown e
             /\ documents (snd run) = documents w ++ inserted
             /\ map row_chunk_index inserted = indices (List.length pre)
             /\ map row_content inserted = pre).
  { intros pre chunk post embs e calls Hc Hp Hs. subst inserted run.
    rewrite (ingestDocumentText_stops env text w pre chunk post embs e calls
               Hc Hp Hs).
    cbn [fst snd after_rounds record_calls documents].
    rewrite skipn_length_app.
    destruct (stored_rows_indices pre embs (next_id w) 0
                (rounds_answered_length env _ _ _ _ Hp)) as [Hi Hc'].
    now rewrite Hi, Hc'. }
  split; [apply splitIntoChunks_run|].
  destruct (rounds_answered_or_stopped env chunks 0 w)
    as [(embs & H)|(pre & chunk & post & embs & e & calls & Hc & Hp & Hs)].
  - destruct (A embs H) as (Hr & Hd & Hi & Hn).
    split; [exact Hd|]. split; [intros embs' H'; now destruct (A embs' H')|].
    split; [intros pre chunk post embs' e calls Hc Hp Hs;
            now destruct (B pre chunk post embs' e calls Hc Hp Hs)|].
    exists (List.length chunks). split; [lia|]. split; [exact Hi|].
    split; [now rewrite firstn_all|]. tauto.
  - destruct (B pre chunk post embs e calls Hc Hp Hs) as (Hr & Hd & Hi & Hn).
    split; [exact Hd|]. split; [intros embs' H'; now destruct (A embs' H')|].
    split; [intros pre' chunk' post' embs' e' calls' Hc' Hp' Hs';
            now destruct (B pre' chunk' post' embs' e' calls' Hc' Hp' Hs')|].
    exists (List.length pre).
    assert (Hlen : List.length chunks = List.length pre + S (List.length post)).
    { rewrite Hc, length_app. reflexivity. }
    split; [lia|]. split; [exact Hi|].
    split.
    + rewrite Hc, firstn_app, Nat.sub_diag, firstn_all. simpl.
      now rewrite app_nil_r.
    + rewrite Hr. split; [discriminate|lia].
Qed.

Lemma chunk_indices_count_from_zero_witness :
  (fst (ingestDocumentText Demo.by_paragraph Demo.almanac_text Demo.empty_world)
   = Returned tt
   /\ map row_chunk_index
        (skipn (List.length (documents Demo.empty_world))
           (documents (snd (ingestDocumentText Demo.by_paragraph
                              Demo.almanac_text Demo.empty_world))))
      = map (fun i => Some (Z.of_nat i))
            (seq 0 (List.length (if truthy (trim Demo.almanac_text)
                                 then splitText Demo.by_paragraph
                                        (trim Demo.almanac_text)
                                 else [])))
   /\ map row_content
        (skipn (List.length (documents Demo.empty_world))
           (documents (snd (ingestDocumentText Demo.by_paragraph
                              Demo.almanac_text Demo.empty_world))))
      = (if truthy (trim Demo.almanac_text)
         then splitText Demo.by_paragraph (trim Demo.almanac_text)
         else []))
  /\ (fst (ingestDocumentText (Demo.by_paragraph_until 2) Demo.almanac_text
             Demo.empty_world)
      = Thrown (ProviderError (lit "503"))
      /\ map row_chunk_index
           (skipn (List.length (documents Demo.empty_world))
              (documents (snd (ingestDocumentText (Demo.by_paragraph_until 2)
                                 Demo.almanac_text Demo.empty_world))))
         = map (fun i => Some (Z.of_nat i))
               (seq 0 (List.length [Demo.sky_paragraph]))
      /\ map row_content
           (skipn (List.length (documents Demo.empty_world))
              (documents (snd (ingestDocumentText (Demo.by_paragraph_until 2)
                                 Demo.almanac_text Demo.empty_world))))
         = [Demo.sky_paragraph]).
Proof.
  split.
  - apply (proj1 (proj2 (proj2 (chunk_indices_count_from_zero Demo.by_paragraph
                                  Demo.almanac_text Demo.empty_world)))
             [Demo.vector; Demo.vector; Demo.vector]).
    vm_compute. repeat split; discriminate.
  - apply (proj1 (proj2 (proj2 (proj2 (chunk_indices_count_from_zero
                                         (Demo.by_paragraph_until 2)
                                         Demo.almanac_text Demo.empty_world))))
             [Demo.sky_paragraph] Demo.paris_paragraph [Demo.water_paragraph]
             [Demo.vector] (ProviderError (lit "503"))
             [embedding_request Demo.paris_paragraph]).
    + vm_compute. reflexivity.
    + vm_compute. repeat split; discriminate.
    + apply stops_provider; [vm_compute; discriminate|vm_compute; reflexivity].
Defined.

(** ** Facts about the handlers of [index.ts] *)

Section HandlerFacts.
Variable env : Env.

Lemma record_call_twice (e1 e2 : Event) (w : World) :
  record_call e2 (record_call e1 w)
  = mkWorld (documents w) (next_id w) (trace w ++ [e1; e2]).
Proof. unfold record_call. simpl. now rewrite <- app_assoc. Qed.

(** A non-blank query: the embedding request is made, then at most the
    search statement, and the function throws. *)
Lemma search_nonblank (q : jsstring) (w : World) :
  trim q <> [] ->
  exists ex more,
    searchDocumentsByQuery env q 5 w
    = (Thrown ex,
       mkWorld (documents w) (next_id w)
               (trace w ++ EmbeddingsCreate EMBEDDING_MODEL (trim q) :: more))
    /\ search_after_embedding more.
Proof.
  intros H. apply JSFacts.truthy_true_iff in H.
  unfold searchDocumentsByQuery, bind. rewrite H. simpl.
  rewrite getEmbedding_run, JSFacts.trim_idem, H. simpl.
  destruct (embeddings_create env (trace w) (trim q)) as [[e|]|ex].
  - destruct (List.length e =? 0).
    + exists EMPTY_EMBEDDING, []. split; [reflexivity|now left].
    + destruct (PgFacts.pool_query_search env [PVectorLiteral e; PNumber 5]
                  (record_call (EmbeddingsCreate EMBEDDING_MODEL (trim q)) w))
        as [ex ->].
      exists ex, [PoolQuery searchSql [PVectorLiteral e; PNumber 5]].
      rewrite record_call_twice. split; [reflexivity|right; now exists e].
  - exists EMPTY_EMBEDDING, []. split; [reflexivity|now left].
  - exists ex, []. split; [reflexivity|now left].
Qed.

(** The [try]/[catch] block turns that into an empty context. *)
Lemma retrieveContext_nonblank (q : jsstring) (w : World) :
  trim q <> [] ->
  exists more,
    retrieveContext env q w
    = (Returned [],
       mkWorld (documents w) (next_id w)
               (trace w ++ EmbeddingsCreate EMBEDDING_MODEL (trim q) :: more))
    /\ search_after_embedding more.
Proof.
  intros H. destruct (search_nonblank q w H) as (ex & more & Hs & Hm).
  exists more. split; [|exact Hm].
  unfold retrieveContext, try_catch, bind. now rewrite Hs.
Qed.

Lemma retrieveContext_blank (q : jsstring) (w : World) :
  trim q = [] -> retrieveContext env q w = (Returned [], w).
Proof.
  intros H. unfold retrieveContext, try_catch, bind, searchDocumentsByQuery.
  rewrite H. reflexivity.
Qed.

(** When the search throws, the block gives the empty context and keeps the
    world the search left. *)
Lemma retrieveContext_caught (q : jsstring) (w w1 : World) (e : Exn) :
  searchDocumentsByQuery env q 5 w = (Thrown e, w1) ->
  retrieveContext env q w = (Returned [], w1).
Proof.
  intros H. unfold retrieveContext, try_catch, bind. now rewrite H.
Qed.

(** A snippet is never empty: it starts with its heading. *)
Lemma snippet_head (d : ResultRow) (idx : nat) :
  exists c p, snippet d idx = c :: p.
Proof. unfold snippet. cbn [lit list_ascii_of_string map app]. eauto. Qed.

Lemma chat_conversationId_step (b : JsonBody) (w : World) :
  match body_conversationId b with
  | Some cid => ret cid
  | None => freshConversationId env
  end w = (Returned (chatConversationId env b w), w).
Proof. unfold chatConversationId. destruct (body_conversationId b); reflexivity. Qed.

Lemma mm_conversationId_step (f : MultipartForm) (w : World) :
  (if truthy (orEmpty (form_conversationId f))
   then ret (orEmpty (form_conversationId f))
   else freshConversationId env) w
  = (Returned (mmConversationId env f w), w).
Proof.
  unfold mmConversationId. destruct (form_conversationId f) as [[|c cid]|]; reflexivity.
Qed.

(** [/api/chat] from the retrieval on, for a text that is not blank. *)
Lemma postChat_nonblank (b : JsonBody) (w w1 : World) (ragContext : jsstring) :
  trim (orEmpty (body_text b)) <> [] ->
  retrieveContext env (orEmpty (body_text b)) w = (Returned ragContext, w1) ->
  let cid := chatConversationId env b w in
  let messages := promptMessages ragContext (orEmpty (body_text b)) in
  postChat env b w
  = (match generateText env (trace w1) messages (generateOptions cid) with
     | Returned result => Returned (json 200 (BChat result cid))
     | Thrown ex => Thrown ex
     end,
     record_call (GenerateText messages (generateOptions cid)) w1).
Proof.
  intros H Hr cid messages. apply JSFacts.truthy_true_iff in H.
  unfold postChat. unfold bind at 1. rewrite chat_conversationId_step.
  rewrite H. simpl. unfold bind at 1. rewrite Hr.
  unfold bind, agent_generateText, outside. fold cid. fold messages.
  destruct (generateText env (trace w1) messages (generateOptions cid));
    reflexivity.
Qed.

Lemma postChat_blank (b : JsonBody) (w : World) :
  trim (orEmpty (body_text b)) = [] ->
  postChat env b w = (Returned (json 400 (BError (lit "text is required"))), w).
Proof.
  intros H. unfold postChat. unfold bind at 1. rewrite chat_conversationId_step.
  rewrite H. reflexivity.
Qed.

(** [/api/mm-chat], split at the end of the upload block. *)
Lemma postMmChat_run (f : MultipartForm) (w : World) :
  let cid := mmConversationId env f w in
  let question := effectiveQuestion (orEmpty (form_question f)) (orEmpty (form_file f)) in
  postMmChat env f w
  = match ingestUpload env (orEmpty (form_file f)) cid w with
    | (Thrown e, w1) => (Thrown e, w1)
    | (Returned _, w1) =>
        match retrieveContext env question w1 with
        | (Thrown e, w2) => (Thrown e, w2)
        | (Returned ragContext, w2) =>
            let messages := promptMessages ragContext question in
            (match generateText env (trace w2) messages (generateOptions cid) with
             | Returned result =>
                 Returned (json 200
                   (BMmChat (match result with
                             | Some t => t
                             | None => lit "(no answer)"
                             end) cid))
             | Thrown ex => Thrown ex
             end,
             record_call (GenerateText messages (generateOptions cid)) w2)
        end
    end.
Proof.
  intros cid question. unfold postMmChat. unfold bind at 1.
  rewrite mm_conversationId_step. fold cid. unfold bind at 1.
  destruct (ingestUpload env (orEmpty (form_file f)) cid w) as [[u|e] w1];
    [|reflexivity].
  fold question. unfold bind at 1.
  destruct (retrieveContext env question w1) as [[ragContext|e] w2];
    [|reflexivity].
  unfold bind, agent_generateText, outside.
  destruct (generateText env (trace w2) (promptMessages ragContext question)
              (generateOptions cid)); reflexivity.
Qed.

End HandlerFacts.

(** ** The chat handlers *)

(** C2. Take a chat request whose text is not blank, and let the search
    throw, whatever the error and wherever it arose. If the agent then
    answers, the handler returns status 200 with that answer and the
    conversation id, and the one generation call it made was given the user
    message alone: no system message. *)
Theorem chat_survives_retrieval_error
    (env : Env) (b : JsonBody) (w w1 : World) (e : Exn) (answer : option jsstring) :
  let text := orEmpty (body_text b) in
  let cid := chatConversationId env b w in
  trim text <> [] ->
  searchDocumentsByQuery env text 5 w = (Thrown e, w1) ->
  generateText env (trace w1) [mkMessage user text] (generateOptions cid)
    = Returned answer ->
  postChat env b w
  = (Returned (json 200 (BChat answer cid)),
     record_call (GenerateText [mkMessage user text] (generateOptions cid)) w1).
Proof.
  intros text cid Ht Hs Hg. subst text cid.
  apply retrieveContext_caught in Hs.
  rewrite (postChat_nonblank env b w w1 [] Ht Hs). cbv zeta.
  change (promptMessages [] (orEmpty (body_text b)))
    with [mkMessage user (orEmpty (body_text b))].
  now rewrite Hg.
Qed.

Lemma chat_survives_retrieval_error_witness :
  postChat Demo.provider_down (mkJsonBody (Some Demo.sky_question) None) Demo.sky_world
  = (Returned (json 200 (BChat (Some (lit "Blue."))
                           (lit "conv_1700000000000"))),
     record_call
       (GenerateText [mkMessage user Demo.sky_question]
                     (generateOptions (lit "conv_1700000000000")))
       (record_call (EmbeddingsCreate EMBEDDING_MODEL Demo.sky_question)
                    Demo.sky_world)).
Proof.
  apply (chat_survives_retrieval_error Demo.provider_down
           (mkJsonBody (Some Demo.sky_question) None) Demo.sky_world
           (record_call (EmbeddingsCreate EMBEDDING_MODEL Demo.sky_question)
                        Demo.sky_world)
           (ProviderError (lit "503")) (Some (lit "Blue."))).
  - vm_compute. discriminate.
  - vm_compute. reflexivity.
  - reflexivity.
Defined.

(** C6. For every list of results there are as many snippets, joined into
    one text of which the context is the first 4000 code units. The snippet
    of the result at position idx is the word Snippet, a space, the decimal
    numeral of idx+1, a colon, a line feed, and the first 1000 code units of
    the result's content. The joined text is the snippets in order with the
    separator (two line feeds, three hyphens, two line feeds) between every
    two of them: written with the separator in front of each snippet, it is
    the separator followed by the joined text. The context is never longer
    than 4000; it is empty for no results, and then the prompt is the user
    message alone, while for any results the prompt starts with the one
    system message carrying it. *)
Theorem context_is_capped_numbered_snippets (docs : list ResultRow) :
  let separator := [10; 10; 45; 45; 45; 10; 10]%N in
  exists snippets joined,
    List.length snippets = List.length docs
    /\ (forall idx d,
          nth_error docs idx = Some d ->
          exists digits,
            decimal_of digits (idx + 1)
            /\ nth_error snippets idx
               = Some (lit "Snippet " ++ digits ++ [58; 10]%N
                       ++ firstn 1000 (res_content d))
            /\ List.length (firstn 1000 (res_content d)) <= 1000)
    /\ match snippets with
       | [] => joined = []
       | _ :: _ => separator ++ joined = List.concat (map (app separator) snippets)
       end
    /\ assembleContext docs = firstn 4000 joined
    /\ List.length (assembleContext docs) <= 4000
    /\ (docs = [] ->
        assembleContext docs = []
        /\ forall question,
             promptMessages (assembleContext docs) question
             = [mkMessage user question])
    /\ (docs <> [] ->
        forall question,
          promptMessages (assembleContext docs) question
          = [mkMessage system (CONTEXT_HEADER ++ assembleContext docs);
             mkMessage user question]).
Proof.
  intros separator.
  exists (mapi snippet docs), (join SNIPPET_SEPARATOR (mapi snippet docs)).
  split; [apply JSFacts.mapi_from_length|].
  split; [|split; [|split; [|split; [|split]]]].
  - intros idx d H. exists (String_of_N (N.of_nat (idx + 1))).
    split; [apply JSFacts.String_of_N_decimal|].
    split; [|apply JSFacts.slice0_length].
    etransitivity; [exact (JSFacts.mapi_from_nth snippet docs 0 idx d H)|].
    reflexivity.
  - destruct (mapi snippet docs) as [|p ps] eqn:E; [reflexivity|].
    change separator with SNIPPET_SEPARATOR.
    apply JSFacts.join_concat. discriminate.
  - destruct docs; reflexivity.
  - unfold assembleContext. destruct (0 <? List.length docs).
    + apply JSFacts.slice0_length.
    + simpl. lia.
  - intros ->. split; [reflexivity|]. intros question. reflexivity.
  - intros H question. destruct docs as [|d rest]; [congruence|].
    assert (Hc : exists c r, assembleContext (d :: rest) = c :: r).
    { unfold assembleContext, mapi, slice0.
      change (0 <? List.length (d :: rest)) with true. cbv iota.
      cbn [mapi_from].
      destruct (snippet_head d 0) as (c & p & ->).
      destruct (JSFacts.join_head SNIPPET_SEPARATOR c p (mapi_from 1 snippet rest))
        as (r & Hr).
      exists c, (firstn 3999 r). exact (f_equal (firstn 4000) Hr). }
    destruct Hc as (c & r & Hc). unfold promptMessages. rewrite Hc. reflexivity.
Qed.

(** C7. A chat request whose text is blank gets status 400 and the world is
    as it was: no call at all was made, so no generation call. A request
    whose text is not blank first runs the retrieval, which starts with the
    embedding request for the trimmed text, and then makes one generation
    call with the prompt built from what the retrieval gave; when the agent
    answers, the response is status 200 with the answer and the conversation
    id. *)
Theorem chat_rejects_blank_else_retrieves_then_generates
    (env : Env) (b : JsonBody) (w : World) :
  let text := orEmpty (body_text b) in
  let cid := chatConversationId env b w in
  (trim text = [] ->
   postChat env b w = (Returned (json 400 (BError (lit "text is required"))), w))
  /\ (trim text <> [] ->
      exists ragContext w1 more,
        retrieveContext env text w = (Returned ragContext, w1)
        /\ trace w1 = trace w ++ EmbeddingsCreate EMBEDDING_MODEL (trim text) :: more
        /\ search_after_embedding more
        /\ trace (snd (postChat env b w))
           = trace w1
             ++ [GenerateText (promptMessages ragContext text) (generateOptions cid)]
        /\ forall answer,
             generateText env (trace w1) (promptMessages ragContext text)
                          (generateOptions cid) = Returned answer ->
             fst (postChat env b w) = Returned (json 200 (BChat answer cid))).
Proof.
  intros text cid. split.
  - apply postChat_blank.
  - intros Ht. destruct (retrieveContext_nonblank env text w Ht) as (more & Hr & Hm).
    eexists [], _, more. split; [exact Hr|].
    split; [reflexivity|]. split; [exact Hm|].
    rewrite (postChat_nonblank env b w _ [] Ht Hr). cbv zeta.
    split; [reflexivity|]. intros answer Hg. subst text cid.
    cbn [fst trace] in *. now rewrite Hg.
Qed.

Lemma chat_rejects_blank_else_retrieves_then_generates_witness :
  postChat Demo.healthy (mkJsonBody (Some Demo.blank) None) Demo.sky_world
    = (Returned (json 400 (BError (lit "text is required"))), Demo.sky_world)
  /\ exists ragContext w1 more,
       retrieveContext Demo.healthy Demo.sky_question Demo.sky_world
         = (Returned ragContext, w1)
       /\ trace w1
          = trace Demo.sky_world
            ++ EmbeddingsCreate EMBEDDING_MODEL (trim Demo.sky_question) :: more
       /\ search_after_embedding more
       /\ trace (snd (postChat Demo.healthy
                        (mkJsonBody (Some Demo.sky_question) None) Demo.sky_world))
          = trace w1
            ++ [GenerateText (promptMessages ragContext Demo.sky_question)
                  (generateOptions (lit "conv_1700000000000"))]
       /\ forall answer,
            generateText Demo.healthy (trace w1)
              (promptMessages ragContext Demo.sky_question)
              (generateOptions (lit "conv_1700000000000")) = Returned answer ->
            fst (postChat Demo.healthy
                   (mkJsonBody (Some Demo.sky_question) None) Demo.sky_world)
            = Returned (json 200 (BChat answer (lit "conv_1700000000000"))).
Proof.
  split.
  - apply (proj1 (chat_rejects_blank_else_retrieves_then_generates Demo.healthy
                    (mkJsonBody (Some Demo.blank) None) Demo.sky_world)).
    reflexivity.
  - apply (proj2 (chat_rejects_blank_else_retrieves_then_generates Demo.healthy
                    (mkJsonBody (Some Demo.sky_question) None) Demo.sky_world)).
    vm_compute. discriminate.
Defined.

(** ** What the handlers call, and what they answer *)

Section Footprint.
Variable env : Env.
Variable P : Event -> Prop.

Lemma only_calls_ret {A} (a : A) : only_calls P (ret a).
Proof. intros w. exists []. simpl. now rewrite app_nil_r. Qed.

Lemma only_calls_throw {A} (e : Exn) : only_calls P (@throw A e).
Proof. intros w. exists []. simpl. now rewrite app_nil_r. Qed.

Lemma only_calls_bind {A B} (m : M A) (k : A -> M B) :
  only_calls P m -> (forall a, only_calls P (k a)) -> only_calls P (bind m k).
Proof.
  intros Hm Hk w. destruct (Hm w) as (c1 & H1 & F1). unfold bind.
  destruct (m w) as [[a|e] w1]; simpl in *.
  - destruct (Hk a w1) as (c2 & H2 & F2). exists (c1 ++ c2).
    rewrite H2, H1, app_assoc. split; [reflexivity|]. now apply Forall_app.
  - now exists c1.
Qed.

Lemma only_calls_try_catch {A} (m : M A) (h : Exn -> M A) :
  only_calls P m -> (forall e, only_calls P (h e)) -> only_calls P (try_catch m h).
Proof.
  intros Hm Hh w. destruct (Hm w) as (c1 & H1 & F1). unfold try_catch.
  destruct (m w) as [[a|e] w1]; simpl in *.
  - now exists c1.
  - destruct (Hh e w1) as (c2 & H2 & F2). exists (c1 ++ c2).
    rewrite H2, H1, app_assoc. split; [reflexivity|]. now apply Forall_app.
Qed.

Lemma only_calls_outside {A} (e : Event) (answer : list Event -> Outcome A) :
  P e -> only_calls P (outside e answer).
Proof. intros He w. exists [e]. simpl. split; [reflexivity|]. now constructor. Qed.

Lemma only_calls_if {A} (c : bool) (m1 m2 : M A) :
  only_calls P m1 -> only_calls P m2 -> only_calls P (if c then m1 else m2).
Proof. now destruct c. Qed.

Lemma only_calls_fresh : only_calls P (freshConversationId env).
Proof. intros w. exists []. simpl. now rewrite app_nil_r. Qed.

Lemma only_calls_pool_query (stmt : Statement) (params : list QueryParam) :
  P (PoolQuery stmt params) -> only_calls P (Pg.pool_query env stmt params).
Proof.
  intros He w. exists [PoolQuery stmt params]. split; [|now constructor].
  unfold Pg.pool_query.
  destruct (pg_fault env (trace w)); [reflexivity|].
  destruct (Pg.rejects stmt params); [reflexivity|].
  destruct stmt; [|reflexivity].
  destruct (Pg.new_row _ _ _ _); reflexivity.
Qed.

Hypothesis embedding_ok : forall model input, P (EmbeddingsCreate model input).
Hypothesis query_ok : forall stmt params, P (PoolQuery stmt params).

Lemma only_calls_getEmbedding (text : jsstring) : only_calls P (getEmbedding env text).
Proof.
  unfold getEmbedding. apply only_calls_if; [apply only_calls_throw|].
  apply only_calls_bind; [now apply only_calls_outside|].
  intros [e|]; [|apply only_calls_throw].
  apply only_calls_if; [apply only_calls_throw|apply only_calls_ret].
Qed.

Lemma only_calls_ingestFrom (rest : list jsstring) :
  forall i, only_calls P (ingestFrom env rest i).
Proof.
  induction rest as [|chunk rest IH]; intros i; simpl.
  - apply only_calls_ret.
  - apply only_calls_bind; [|intros _; apply IH].
    unfold ingestChunk. apply only_calls_bind; [apply only_calls_getEmbedding|].
    intros emb. apply only_calls_bind; [now apply only_calls_pool_query|].
    intros _. apply only_calls_ret.
Qed.

Lemma only_calls_ingestDocumentText (text : jsstring) :
  only_calls P (ingestDocumentText env text).
Proof.
  unfold ingestDocumentText. apply only_calls_bind.
  - unfold splitIntoChunks. apply only_calls_if; apply only_calls_ret.
  - intros chunks. apply only_calls_if;
      [apply only_calls_ret|apply only_calls_ingestFrom].
Qed.

Lemma only_calls_retrieveContext (question : jsstring) :
  only_calls P (retrieveContext env question).
Proof.
  unfold retrieveContext. apply only_calls_try_catch.
  - apply only_calls_bind; [|intros docs; apply only_calls_ret].
    unfold searchDocumentsByQuery. apply only_calls_if; [apply only_calls_ret|].
    apply only_calls_bind; [apply only_calls_getEmbedding|].
    intros emb. now apply only_calls_pool_query.
  - intros _. apply only_calls_ret.
Qed.

Hypothesis generation_ok :
  forall messages cid, P (GenerateText messages (generateOptions cid)).
Hypothesis conversations_ok :
  forall options, P (GetConversationsByUserId USER_ID options).
Hypothesis messages_ok : forall cid lim, P (GetMessages USER_ID cid lim).
Hypothesis addMessage_ok : forall message cid, P (AddMessage message USER_ID cid).

Lemma only_calls_addMessage (message : Message) (cid : jsstring) :
  only_calls P (memory_addMessage env message cid).
Proof. apply only_calls_outside. apply addMessage_ok. Qed.

Lemma only_calls_generateText (messages : list Message) (cid : jsstring) :
  only_calls P (agent_generateText env messages cid).
Proof. apply only_calls_outside. apply generation_ok. Qed.

Lemma only_calls_handle (req : Request) : only_calls P (handle env req).
Proof.
  destruct req as [|conversationId|b|b|f]; simpl.
  - unfold getConversations. apply only_calls_bind.
    + apply only_calls_outside. apply conversations_ok.
    + intros c. apply only_calls_ret.
  - unfold getHistory. apply only_calls_if; [apply only_calls_ret|].
    apply only_calls_bind.
    + apply only_calls_outside. apply messages_ok.
    + intros m. apply only_calls_ret.
  - unfold postDocumentsIngest. apply only_calls_if; [apply only_calls_ret|].
    apply only_calls_bind; [apply only_calls_ingestDocumentText|]. intros _.
    apply only_calls_bind; [|intros _; apply only_calls_ret].
    apply only_calls_if; [apply only_calls_addMessage|apply only_calls_ret].
  - unfold postChat. apply only_calls_bind.
    + destruct (body_conversationId b); [apply only_calls_ret|apply only_calls_fresh].
    + intros cid. apply only_calls_if; [apply only_calls_ret|].
      apply only_calls_bind; [apply only_calls_retrieveContext|]. intros ctx.
      apply only_calls_bind; [apply only_calls_generateText|]. intros result.
      apply only_calls_ret.
  - unfold postMmChat. apply only_calls_bind.
    + apply only_calls_if; [apply only_calls_ret|apply only_calls_fresh].
    + intros cid. apply only_calls_bind.
      * unfold ingestUpload. apply only_calls_if; [|apply only_calls_ret].
        apply only_calls_bind; [apply only_calls_ingestDocumentText|].
        intros _. apply only_calls_addMessage.
      * intros _. apply only_calls_bind; [apply only_calls_retrieveContext|].
        intros ctx.
        apply only_calls_bind; [apply only_calls_generateText|]. intros result.
        apply only_calls_ret.
Qed.

End Footprint.

Section Responses.
Variable env : Env.
Variable Q : Response -> Prop.

Lemma returns_only_ret (r : Response) : Q r -> returns_only Q (ret r).
Proof. intros H w resp E. simpl in E. now injection E as <-. Qed.

Lemma returns_only_bind {A} (m : M A) (k : A -> M Response) :
  (forall a, returns_only Q (k a)) -> returns_only Q (bind m k).
Proof.
  intros H w resp. unfold bind.
  destruct (m w) as [[a|e] w1]; [apply H|discriminate].
Qed.

Lemma returns_only_if (c : bool) (m1 m2 : M Response) :
  returns_only Q m1 -> returns_only Q m2 -> returns_only Q (if c then m1 else m2).
Proof. now destruct c. Qed.

End Responses.

(** C9. Whatever the request, every outside call its handler makes that
    names a user names [USER_ID], the constant "mohammed-alith": the listing
    of conversations, the reading of messages, the writing of markers and
    the generation calls. A response that reports a user reports that one,
    and a 200 response of [/api/history] does report it. *)
Theorem every_endpoint_acts_for_the_one_user (env : Env) (req : Request) (w : World) :
  USER_ID = lit "mohammed-alith"
  /\ exists calls,
       trace (snd (handle env req w)) = trace w ++ calls
       /\ Forall (scoped_to USER_ID) calls
       /\ (forall resp u,
             fst (handle env req w) = Returned resp ->
             response_user resp = Some u -> u = USER_ID)
       /\ (forall conversationId resp,
             req = GET_history conversationId ->
             fst (handle env req w) = Returned resp ->
             status resp = 200 -> response_user resp = Some USER_ID).
Proof.
  split; [reflexivity|].
  destruct (only_calls_handle env (scoped_to USER_ID)) with (req := req) (w := w)
    as (calls & Ht & Hf);
    try (intros; intros u Hu; first [discriminate Hu | now injection Hu as <-]).
  exists calls. split; [exact Ht|]. split; [exact Hf|]. split.
  - assert (Hq : returns_only
                   (fun resp => forall u, response_user resp = Some u -> u = USER_ID)
                   (handle env req)).
    { destruct req as [|conversationId|b|b|f]; simpl.
      - unfold getConversations. apply returns_only_bind. intros c.
        apply returns_only_ret. discriminate.
      - unfold getHistory. apply returns_only_if.
        + apply returns_only_ret. discriminate.
        + apply returns_only_bind. intros m. apply returns_only_ret.
          intros u Hu. now injection Hu as <-.
      - unfold postDocumentsIngest. apply returns_only_if.
        + apply returns_only_ret. discriminate.
        + do 2 (apply returns_only_bind; intros _).
          apply returns_only_ret. discriminate.
      - unfold postChat. apply returns_only_bind. intros cid.
        apply returns_only_if; [apply returns_only_ret; discriminate|].
        do 2 (apply returns_only_bind; intros ?).
        apply returns_only_ret. discriminate.
      - unfold postMmChat. apply returns_only_bind. intros cid.
        do 3 (apply returns_only_bind; intros ?).
        apply returns_only_ret. discriminate. }
    intros resp u Hr. now apply (Hq w resp).
  - intros conversationId resp -> Hr Hs. simpl in Hr. unfold getHistory in Hr.
    destruct (negb (truthy (orEmpty conversationId))).
    + simpl in Hr. injection Hr as <-. discriminate.
    + unfold bind, outside in Hr.
      destruct (getMessages env (trace w) USER_ID (orEmpty conversationId) 50);
        [|discriminate].
      simpl in Hr. now injection Hr as <-.
Qed.

(** C10. [/api/mm-chat] answers with status 200 whenever it answers: no
    field is required. When the question field is missing or blank, the
    question it works with is "Summarize the uploaded document." if a file
    with text in it came with the form and "Explain the uploaded content."
    otherwise; once the upload block is through, the retrieval starts with
    the embedding request for that very question and the generation call is
    given the prompt built around it. An error of the upload block is the
    handler's error. *)
Theorem mm_chat_defaults_the_question (env : Env) (f : MultipartForm) (w : World) :
  let question := orEmpty (form_question f) in
  let uploadedText := orEmpty (form_file f) in
  let cid := mmConversationId env f w in
  (forall resp, fst (postMmChat env f w) = Returned resp -> status resp = 200)
  /\ (trim question = [] ->
      effectiveQuestion question uploadedText = defaultQuestion f
      /\ (forall e w1,
            ingestUpload env uploadedText cid w = (Thrown e, w1) ->
            postMmChat env f w = (Thrown e, w1))
      /\ (forall w1,
            ingestUpload env uploadedText cid w = (Returned tt, w1) ->
            exists ragContext w2 more,
              retrieveContext env (defaultQuestion f) w1 = (Returned ragContext, w2)
              /\ trace w2
                 = trace w1
                   ++ EmbeddingsCreate EMBEDDING_MODEL (defaultQuestion f) :: more
              /\ search_after_embedding more
              /\ trace (snd (postMmChat env f w))
                 = trace w2
                   ++ [GenerateText (promptMessages ragContext (defaultQuestion f))
                         (generateOptions cid)]
              /\ In (mkMessage user (defaultQuestion f))
                    (promptMessages ragContext (defaultQuestion f)))).
Proof.
  intros question uploadedText cid. split.
  - assert (Hq : returns_only (fun resp => status resp = 200) (postMmChat env f)).
    { unfold postMmChat. do 4 (apply returns_only_bind; intros ?).
      now apply returns_only_ret. }
    apply Hq.
  - intros Hb.
    assert (He : effectiveQuestion question uploadedText = defaultQuestion f).
    { unfold effectiveQuestion, defaultQuestion, uploadedText. rewrite Hb.
      destruct (form_file f) as [[|c t]|]; reflexivity. }
    assert (Ht : trim (defaultQuestion f) = defaultQuestion f).
    { unfold defaultQuestion. destruct (form_file f) as [[|c t]|]; reflexivity. }
    assert (Hn : trim (defaultQuestion f) <> []).
    { rewrite Ht. unfold defaultQuestion.
      destruct (form_file f) as [[|c t]|]; discriminate. }
    split; [exact He|].
    pose proof (postMmChat_run env f w) as Hrun. cbv zeta in Hrun.
    fold question uploadedText cid in Hrun. rewrite He in Hrun.
    split.
    + intros e w1 Hu. now rewrite Hrun, Hu.
    + intros w1 Hu. rewrite Hu in Hrun.
      destruct (retrieveContext_nonblank env (defaultQuestion f) w1 Hn)
        as (more & Hr & Hm).
      rewrite Hr in Hrun. rewrite Ht in Hr.
      eexists [], _, more. split; [exact Hr|]. split; [reflexivity|].
      split; [exact Hm|]. rewrite Hrun, Ht. split; [reflexivity|].
      simpl. now left.
Qed.

Lemma mm_chat_defaults_the_question_witness :
  effectiveQuestion [] Demo.sky_text = lit "Summarize the uploaded document."
  /\ effectiveQuestion Demo.blank [] = lit "Explain the uploaded content."
  /\ fst (postMmChat Demo.healthy
            (mkMultipartForm (Some Demo.sky_text) None None) Demo.empty_world)
     = Returned (json 200 (BMmChat (lit "Blue.") (lit "conv_1700000000000"))).
Proof.
  split; [|split].
  - apply (proj2 (mm_chat_defaults_the_question Demo.healthy
                    (mkMultipartForm (Some Demo.sky_text) None None)
                    Demo.empty_world)).
    reflexivity.
  - apply (proj2 (mm_chat_defaults_the_question Demo.healthy
                    (mkMultipartForm None (Some Demo.blank) None)
                    Demo.empty_world)).
    reflexivity.
  - vm_compute. reflexivity.
Defined.

(** ** Further properties of the same code *)

(** X1. [getEmbedding] returns a vector only when the trimmed text is not empty,
    the vector is not empty, and exactly the one embedding request for the
    trimmed text was made; a missing or zero-length vector from the provider
    is turned into an error. *)
Theorem embedding_is_never_empty
    (env : Env) (text : jsstring) (w w' : World) (e : Embedding) :
  getEmbedding env text w = (Returned e, w') ->
  e <> [] /\ trim text <> []
  /\ embeddings_create env (trace w) (trim text) = Returned (Some e)
  /\ trace w' = trace w ++ [EmbeddingsCreate EMBEDDING_MODEL (trim text)]
  /\ documents w' = documents w.
Proof.
  rewrite getEmbedding_run.
  destruct (truthy (trim text)) eqn:T; [|discriminate]. simpl.
  apply JSFacts.truthy_true_iff in T.
  destruct (embeddings_create env (trace w) (trim text)) as [[v|]|ex];
    try discriminate.
  destruct v as [|x v]; [discriminate|]. simpl.
  intros H. injection H as <- <-. repeat split; try assumption. discriminate.
Qed.

Lemma embedding_is_never_empty_witness :
  Demo.vector <> [] /\ trim Demo.sky_question <> []
  /\ embeddings_create Demo.healthy (trace Demo.empty_world) (trim Demo.sky_question)
     = Returned (Some Demo.vector)
  /\ trace (record_call (EmbeddingsCreate EMBEDDING_MODEL Demo.sky_question)
                        Demo.empty_world)
     = trace Demo.empty_world
       ++ [EmbeddingsCreate EMBEDDING_MODEL (trim Demo.sky_question)]
  /\ documents (record_call (EmbeddingsCreate EMBEDDING_MODEL Demo.sky_question)
                            Demo.empty_world)
     = documents Demo.empty_world.
Proof.
  apply (embedding_is_never_empty Demo.healthy Demo.sky_question Demo.empty_world
           (record_call (EmbeddingsCreate EMBEDDING_MODEL Demo.sky_question)
                        Demo.empty_world)
           Demo.vector).
  vm_compute. reflexivity.
Defined.

(** X2. The preview written into a conversation is the text itself when it has
    at most 300 code units, and otherwise its first 300 followed by three
    dots. *)
Theorem preview_is_first_300_with_ellipsis (t : jsstring) :
  (List.length t <= 300 -> preview t = t)
  /\ (300 < List.length t ->
      preview t = firstn 300 t ++ lit "..." /\ List.length (preview t) = 303).
Proof.
  unfold preview, slice0. split; intros H.
  - destruct (Nat.ltb_spec 300 (List.length t)) as [Hlt|_]; [lia|].
    now rewrite firstn_all2, app_nil_r.
  - destruct (Nat.ltb_spec 300 (List.length t)) as [_|Hle]; [|lia].
    split; [reflexivity|].
    rewrite length_app, length_firstn, Nat.min_l by lia. reflexivity.
Qed.

(** X3. [/api/documents/ingest], for a body whose [conversationId] is
    absent, [null] or a string: a blank text gets status 400 and nothing is
    called; otherwise the trimmed text is ingested, an ingestion error is the
    handler's error and no marker is written then; after a complete ingestion
    the marker with the preview is added to the conversation when the body
    names one by a non-empty string, and the response is 200
    [{success: true}]; a rejected [addMessage] is the handler's error. *)
Theorem ingest_endpoint_ingests_then_marks (env : Env) (b : JsonBody) (w : World) :
  let trimmed := trim (orEmpty (body_text b)) in
  let marker := mkMessage system (INGEST_MARKER ++ preview trimmed) in
  (trimmed = [] ->
   postDocumentsIngest env b w
   = (Returned (json 400 (BError (lit "text is required"))), w))
  /\ (trimmed <> [] ->
      (forall e w1,
         ingestDocumentText env trimmed w = (Thrown e, w1) ->
         postDocumentsIngest env b w = (Thrown e, w1))
      /\ (forall w1,
            ingestDocumentText env trimmed w = (Returned tt, w1) ->
            postDocumentsIngest env b w
            = match body_conversationId b with
              | Some (c :: cid) =>
                  (match addMessage env (trace w1) marker USER_ID (c :: cid) with
                   | Returned _ => Returned (json 200 BSuccess)
                   | Thrown ex => Thrown ex
                   end,
                   record_call (AddMessage marker USER_ID (c :: cid)) w1)
              | _ => (Returned (json 200 BSuccess), w1)
              end)).
Proof.
  intros trimmed marker. split.
  - intros H. unfold postDocumentsIngest. fold trimmed. now rewrite H.
  - intros H. apply JSFacts.truthy_true_iff in H.
    unfold postDocumentsIngest. fold trimmed. rewrite H. simpl. split.
    + intros e w1 Hi. unfold bind at 1. now rewrite Hi.
    + intros w1 Hi. unfold bind at 1. rewrite Hi. subst marker.
      destruct (body_conversationId b) as [[|c cid]|];
        cbn [orEmpty truthy]; try reflexivity.
      unfold bind, memory_addMessage, outside, ret.
      destruct (addMessage env (trace w1) _ USER_ID (c :: cid)); reflexivity.
Qed.

Lemma ingest_endpoint_ingests_then_marks_witness :
  postDocumentsIngest Demo.healthy (mkJsonBody (Some Demo.blank) None) Demo.empty_world
  = (Returned (json 400 (BError (lit "text is required"))), Demo.empty_world)
  /\ postDocumentsIngest Demo.healthy (mkJsonBody (Some Demo.sky_text) None)
       Demo.empty_world
     = (Returned (json 200 BSuccess), Demo.sky_world)
  /\ postDocumentsIngest Demo.healthy
       (mkJsonBody (Some Demo.sky_text) (Some (lit "conv_7"))) Demo.empty_world
     = (Returned (json 200 BSuccess),
        record_call
          (AddMessage (mkMessage system (INGEST_MARKER ++ Demo.sky_text))
                      USER_ID (lit "conv_7"))
          Demo.sky_world)
  /\ postDocumentsIngest Demo.healthy
       (mkJsonBody (Some Demo.sky_text) (Some [])) Demo.empty_world
     = (Returned (json 200 BSuccess), Demo.sky_world).
Proof.
  split; [|split; [|split]].
  - apply (proj1 (ingest_endpoint_ingests_then_marks Demo.healthy
                    (mkJsonBody (Some Demo.blank) None) Demo.empty_world)).
    reflexivity.
  - apply (proj2 (proj2 (ingest_endpoint_ingests_then_marks Demo.healthy
                           (mkJsonBody (Some Demo.sky_text) None) Demo.empty_world)
                   ltac:(vm_compute; discriminate))
             Demo.sky_world).
    vm_compute. reflexivity.
  - refine (eq_trans
              (proj2 (proj2 (ingest_endpoint_ingests_then_marks Demo.healthy
                               (mkJsonBody (Some Demo.sky_text)
                                           (Some (lit "conv_7")))
                               Demo.empty_world)
                       ltac:(vm_compute; discriminate))
                 Demo.sky_world ltac:(vm_compute; reflexivity))
              _).
    vm_compute. reflexivity.
  - apply (proj2 (proj2 (ingest_endpoint_ingests_then_marks Demo.healthy
                           (mkJsonBody (Some Demo.sky_text) (Some []))
                           Demo.empty_world)
                   ltac:(vm_compute; discriminate))
             Demo.sky_world).
    vm_compute. reflexivity.
Defined.

(** X4. [/api/history] without a conversation id, or with an empty one, gets
    status 400 and the memory is not read. *)
Theorem history_requires_conversation_id
    (env : Env) (conversationId : option jsstring) (w : World) :
  orEmpty conversationId = [] ->
  getHistory env conversationId w
  = (Returned (json 400 (BError (lit "conversationId is required"))), w).
Proof. intros H. unfold getHistory. now rewrite H. Qed.

Lemma history_requires_conversation_id_witness :
  getHistory Demo.healthy None Demo.sky_world
  = (Returned (json 400 (BError (lit "conversationId is required"))), Demo.sky_world).
Proof.
  apply (history_requires_conversation_id Demo.healthy None Demo.sky_world).
  reflexivity.
Defined.

(** The heading and the separator, code unit by code unit. *)
Example snippet_heading_code_units :
  lit "Snippet " = [83; 110; 105; 112; 112; 101; 116; 32]%N
  /\ SNIPPET_SEPARATOR = [10; 10; 45; 45; 45; 10; 10]%N.
Proof. split; reflexivity. Qed.

(** Two results, assembled. *)
Example context_of_two_results :
  assembleContext [mkResultRow 1 (lit "sky") 1; mkResultRow 2 (lit "sea") 0]
  = lit "Snippet 1:" ++ [LF] ++ lit "sky" ++ [LF; LF] ++ lit "---" ++ [LF; LF]
    ++ lit "Snippet 2:" ++ [LF] ++ lit "sea".
Proof. reflexivity. Qed.

(** Five results of 1200 code units each: every content is cut to 1000, and
    the joined text to 4000. *)
Example context_hits_both_caps :
  let long := mkResultRow 1 (repeat 97%N 1200) 1 in
  List.length (snippet long 0) = 1011
  /\ 4000 < List.length (join SNIPPET_SEPARATOR (mapi snippet (repeat long 5)))
  /\ List.length (assembleContext (repeat long 5)) = 4000.
Proof.
  split; [reflexivity|]. split; [|vm_compute; reflexivity].
  apply Nat.ltb_lt. vm_compute. reflexivity.
Qed.

(** ** Ingestion and search ignore surrounding white space *)

(** X5. Trimming the text beforehand changes nothing: embedding, chunking,
    ingesting and searching a text and its trimmed form are the same
    computation. So [/api/documents/ingest], which passes the trimmed text,
    and [/api/mm-chat], which passes the file's text as it is, store the same
    rows for the same text. *)
Theorem surrounding_white_space_is_ignored
    (env : Env) (text : jsstring) (limit : Z) (w : World) :
  getEmbedding env (trim text) w = getEmbedding env text w
  /\ splitIntoChunks env (trim text) w = splitIntoChunks env text w
  /\ ingestDocumentText env (trim text) w = ingestDocumentText env text w
  /\ searchDocumentsByQuery env (trim text) limit w
     = searchDocumentsByQuery env text limit w.
Proof.
  repeat split.
  - now rewrite !getEmbedding_run, JSFacts.trim_idem.
  - now rewrite !splitIntoChunks_run, JSFacts.trim_idem.
  - now rewrite !ingestDocumentText_run, JSFacts.trim_idem.
  - unfold searchDocumentsByQuery. now rewrite JSFacts.trim_idem.
Qed.

(** ** What the handlers do to the [documents] table *)

Section TableFrame.
Variable env : Env.

Lemma keeps_table_ret {A} (a : A) : keeps_table (ret a).
Proof. intros w. now split. Qed.

Lemma keeps_table_throw {A} (e : Exn) : keeps_table (@throw A e).
Proof. intros w. now split. Qed.

Lemma keeps_table_bind {A B} (m : M A) (k : A -> M B) :
  keeps_table m -> (forall a, keeps_table (k a)) -> keeps_table (bind m k).
Proof.
  intros Hm Hk w. destruct (Hm w) as [Hd Hn]. unfold bind.
  destruct (m w) as [[a|e] w1]; simpl in *.
  - destruct (Hk a w1) as [Hd' Hn']. now rewrite Hd', Hn'.
  - now split.
Qed.

Lemma keeps_table_try_catch {A} (m : M A) (h : Exn -> M A) :
  keeps_table m -> (forall e, keeps_table (h e)) -> keeps_table (try_catch m h).
Proof.
  intros Hm Hh w. destruct (Hm w) as [Hd Hn]. unfold try_catch.
  destruct (m w) as [[a|e] w1]; simpl in *.
  - now split.
  - destruct (Hh e w1) as [Hd' Hn']. now rewrite Hd', Hn'.
Qed.

Lemma keeps_table_outside {A} (e : Event) (answer : list Event -> Outcome A) :
  keeps_table (outside e answer).
Proof. intros w. now split. Qed.

Lemma keeps_table_if {A} (c : bool) (m1 m2 : M A) :
  keeps_table m1 -> keeps_table m2 -> keeps_table (if c then m1 else m2).
Proof. now destruct c. Qed.

Lemma keeps_table_fresh : keeps_table (freshConversationId env).
Proof. intros w. now split. Qed.

Lemma keeps_table_getEmbedding (text : jsstring) : keeps_table (getEmbedding env text).
Proof.
  unfold getEmbedding. apply keeps_table_if; [apply keeps_table_throw|].
  apply keeps_table_bind; [apply keeps_table_outside|].
  intros [e|]; [|apply keeps_table_throw].
  apply keeps_table_if; [apply keeps_table_throw|apply keeps_table_ret].
Qed.

(** A SELECT, accepted or not, leaves the table alone. *)
Lemma keeps_table_select (columns : list string) (vec_column : string)
    (vec_param : nat) (table : string) (where_eq : option (string * nat))
    (limit_param : nat) (params : list QueryParam) :
  keeps_table
    (Pg.pool_query env
       (SelectBySimilarity columns vec_column vec_param table where_eq limit_param)
       params).
Proof.
  intros w. unfold Pg.pool_query.
  destruct (pg_fault env (trace w)); [now split|].
  destruct (Pg.rejects _ params); now split.
Qed.

Lemma keeps_table_search (query : jsstring) (limit : Z) :
  keeps_table (searchDocumentsByQuery env query limit).
Proof.
  unfold searchDocumentsByQuery. apply keeps_table_if; [apply keeps_table_ret|].
  apply keeps_table_bind; [apply keeps_table_getEmbedding|].
  intros emb. apply keeps_table_select.
Qed.

Lemma keeps_table_retrieveContext (question : jsstring) :
  keeps_table (retrieveContext env question).
Proof.
  unfold retrieveContext. apply keeps_table_try_catch.
  - apply keeps_table_bind; [apply keeps_table_search|].
    intros docs. apply keeps_table_ret.
  - intros _. apply keeps_table_ret.
Qed.

Variable P : Row -> Prop.

Lemma keeps_table_appends {A} (m : M A) : keeps_table m -> appends_rows P m.
Proof.
  intros H w. exists []. destruct (H w) as [-> _].
  now rewrite app_nil_r.
Qed.

Lemma appends_rows_bind {A B} (m : M A) (k : A -> M B) :
  appends_rows P m -> (forall a, appends_rows P (k a)) -> appends_rows P (bind m k).
Proof.
  intros Hm Hk w. destruct (Hm w) as (r1 & H1 & F1). unfold bind.
  destruct (m w) as [[a|e] w1]; simpl in *.
  - destruct (Hk a w1) as (r2 & H2 & F2). exists (r1 ++ r2).
    rewrite H2, H1, app_assoc. split; [reflexivity|]. now apply Forall_app.
  - now exists r1.
Qed.

Lemma appends_rows_if {A} (c : bool) (m1 m2 : M A) :
  appends_rows P m1 -> appends_rows P m2 -> appends_rows P (if c then m1 else m2).
Proof. now destruct c. Qed.

End TableFrame.

Section IngestionRows.
Variable env : Env.

(** One round of the loop stores nothing, or one well-formed row. *)
Lemma ingestChunk_appends (chunk : jsstring) (i : nat) :
  appends_rows row_ok (ingestChunk env chunk i).
Proof.
  intros w. unfold ingestChunk, bind.
  destruct (getEmbedding env chunk w) as [[emb|ex] w1] eqn:G.
  - apply getEmbedding_returned in G. destruct G as (T & _ & ->).
    apply JSFacts.truthy_true_iff in T.
    rewrite PgFacts.pool_query_insert. cbv zeta.
    destruct (pg_fault env _).
    + exists []. simpl. now rewrite app_nil_r.
    + destruct (List.length emb =? VECTOR_DIMENSIONS) eqn:D;
        [destruct (existsb (N.eqb 0) chunk)|].
      * exists []. simpl. now rewrite app_nil_r.
      * apply Nat.eqb_eq in D. eexists [_]. simpl. split; [reflexivity|].
        constructor; [|constructor]. repeat split; simpl; eauto.
      * exists []. simpl. now rewrite app_nil_r.
  - destruct (keeps_table_getEmbedding env chunk w) as [Hd _].
    rewrite G in Hd. simpl in *. exists []. now rewrite app_nil_r.
Qed.

Lemma ingestFrom_appends (rest : list jsstring) :
  forall i, appends_rows row_ok (ingestFrom env rest i).
Proof.
  induction rest as [|chunk rest IH]; intros i; simpl.
  - apply keeps_table_appends, keeps_table_ret.
  - apply appends_rows_bind; [apply ingestChunk_appends|intros _; apply IH].
Qed.

Lemma ingestDocumentText_appends (text : jsstring) :
  appends_rows row_ok (ingestDocumentText env text).
Proof.
  intros w. rewrite ingestDocumentText_run. apply ingestFrom_appends.
Qed.

Lemma ingestUpload_appends (uploadedText cid : jsstring) :
  appends_rows row_ok (ingestUpload env uploadedText cid).
Proof.
  unfold ingestUpload. apply appends_rows_if.
  - apply appends_rows_bind; [apply ingestDocumentText_appends|].
    intros _. apply keeps_table_appends, keeps_table_outside.
  - apply keeps_table_appends, keeps_table_ret.
Qed.

Lemma handle_appends (req : Request) : appends_rows row_ok (handle env req).
Proof.
  destruct req as [|conversationId|b|b|f]; simpl.
  - apply keeps_table_appends. unfold getConversations.
    apply keeps_table_bind; [apply keeps_table_outside|].
    intros c. apply keeps_table_ret.
  - apply keeps_table_appends. unfold getHistory.
    apply keeps_table_if; [apply keeps_table_ret|].
    apply keeps_table_bind; [apply keeps_table_outside|].
    intros m. apply keeps_table_ret.
  - unfold postDocumentsIngest.
    apply appends_rows_if; [apply keeps_table_appends, keeps_table_ret|].
    apply appends_rows_bind; [apply ingestDocumentText_appends|]. intros _.
    apply keeps_table_appends.
    apply keeps_table_bind; [|intros _; apply keeps_table_ret].
    apply keeps_table_if; [apply keeps_table_outside|apply keeps_table_ret].
  - apply keeps_table_appends. unfold postChat. apply keeps_table_bind.
    + destruct (body_conversationId b);
        [apply keeps_table_ret|apply keeps_table_fresh].
    + intros cid. apply keeps_table_if; [apply keeps_table_ret|].
      apply keeps_table_bind; [apply keeps_table_retrieveContext|]. intros ctx.
      apply keeps_table_bind; [apply keeps_table_outside|]. intros result.
      apply keeps_table_ret.
  - unfold postMmChat. apply appends_rows_bind.
    + apply keeps_table_appends.
      apply keeps_table_if; [apply keeps_table_ret|apply keeps_table_fresh].
    + intros cid. apply appends_rows_bind; [apply ingestUpload_appends|].
      intros _. apply keeps_table_appends.
      apply keeps_table_bind; [apply keeps_table_retrieveContext|]. intros ctx.
      apply keeps_table_bind; [apply keeps_table_outside|]. intros result.
      apply keeps_table_ret.
Qed.

(** A request that cannot reach an INSERT leaves the table alone. *)
Lemma handle_keeps_table (req : Request) :
  may_ingest req = false -> keeps_table (handle env req).
Proof.
  destruct req as [|conversationId|b|b|f]; simpl; intros H.
  - unfold getConversations.
    apply keeps_table_bind; [apply keeps_table_outside|].
    intros c. apply keeps_table_ret.
  - unfold getHistory.
    apply keeps_table_if; [apply keeps_table_ret|].
    apply keeps_table_bind; [apply keeps_table_outside|].
    intros m. apply keeps_table_ret.
  - unfold postDocumentsIngest. rewrite H. apply keeps_table_ret.
  - unfold postChat. apply keeps_table_bind.
    + destruct (body_conversationId b);
        [apply keeps_table_ret|apply keeps_table_fresh].
    + intros cid. apply keeps_table_if; [apply keeps_table_ret|].
      apply keeps_table_bind; [apply keeps_table_retrieveContext|]. intros ctx.
      apply keeps_table_bind; [apply keeps_table_outside|]. intros result.
      apply keeps_table_ret.
  - unfold postMmChat. apply keeps_table_bind.
    + apply keeps_table_if; [apply keeps_table_ret|apply keeps_table_fresh].
    + intros cid. apply keeps_table_bind.
      * unfold ingestUpload. rewrite H. apply keeps_table_ret.
      * intros _.
        apply keeps_table_bind; [apply keeps_table_retrieveContext|]. intros ctx.
        apply keeps_table_bind; [apply keeps_table_outside|]. intros result.
        apply keeps_table_ret.
Qed.

End IngestionRows.

(** X6. No request removes or changes a stored row: whatever the request
    and however it ends, the table afterwards is the table before followed
    by the rows added, and every added row has content that is not blank, a
    1536-dimensional embedding and a chunk index. So a table of such rows
    stays one. *)
Theorem table_is_append_only_and_well_formed (env : Env) (req : Request) (w : World) :
  exists added,
    documents (snd (handle env req w)) = documents w ++ added
    /\ Forall row_ok added
    /\ (Forall row_ok (documents w) ->
        Forall row_ok (documents (snd (handle env req w)))).
Proof.
  destruct (handle_appends env req w) as (added & Hd & Hf).
  exists added. split; [exact Hd|]. split; [exact Hf|].
  intros H. rewrite Hd. now apply Forall_app.
Qed.

(** X7. Only ingestion writes: the two GET routes, [/api/chat], an
    [/api/documents/ingest] with blank text and an [/api/mm-chat] without a
    file or with a blank one leave the table and its id sequence exactly as
    they were, whatever the retrieval and the agent do. *)
Theorem only_ingestion_writes_the_table (env : Env) (req : Request) (w : World) :
  may_ingest req = false ->
  documents (snd (handle env req w)) = documents w
  /\ next_id (snd (handle env req w)) = next_id w.
Proof. intros H. now apply handle_keeps_table. Qed.

Lemma only_ingestion_writes_the_table_witness :
  documents (snd (handle Demo.healthy
                    (POST_chat (mkJsonBody (Some Demo.sky_question) None))
                    Demo.sky_world))
  = documents Demo.sky_world
  /\ next_id (snd (handle Demo.healthy
                     (POST_chat (mkJsonBody (Some Demo.sky_question) None))
                     Demo.sky_world))
     = next_id Demo.sky_world.
Proof.
  apply (only_ingestion_writes_the_table Demo.healthy
           (POST_chat (mkJsonBody (Some Demo.sky_question) None)) Demo.sky_world).
  reflexivity.
Defined.

(** ** Edge cases of the handlers *)

(** X8. A file whose text is not empty but blank: [/api/mm-chat] neither
    ingests it nor leaves a marker in the conversation, and the table stays
    as it was; yet with no question given, the question it asks is the one
    about an uploaded document, and the retrieval starts with the embedding
    request for it. *)
Theorem blank_file_is_skipped_but_summarized
    (env : Env) (f : MultipartForm) (w : World) (t : jsstring) :
  form_file f = Some t -> t <> [] -> trim t = [] ->
  trim (orEmpty (form_question f)) = [] ->
  ingestUpload env t (mmConversationId env f w) w = (Returned tt, w)
  /\ effectiveQuestion (orEmpty (form_question f)) t
     = lit "Summarize the uploaded document."
  /\ documents (snd (postMmChat env f w)) = documents w
  /\ exists more,
       trace (snd (postMmChat env f w))
       = trace w
         ++ EmbeddingsCreate EMBEDDING_MODEL (lit "Summarize the uploaded document.")
            :: more.
Proof.
  intros Hf Ht Hb Hq.
  assert (Hu : ingestUpload env t (mmConversationId env f w) w = (Returned tt, w)).
  { unfold ingestUpload. now rewrite Hb. }
  assert (He : effectiveQuestion (orEmpty (form_question f)) t
               = lit "Summarize the uploaded document.").
  { unfold effectiveQuestion. rewrite Hq. destruct t; [congruence|reflexivity]. }
  split; [exact Hu|]. split; [exact He|]. split.
  - apply (handle_keeps_table env (POST_mm_chat f)).
    unfold may_ingest. rewrite Hf. cbn [orEmpty]. now rewrite Hb.
  - rewrite postMmChat_run. cbv zeta. rewrite Hf. cbn [orEmpty].
    rewrite Hu, He.
    destruct (retrieveContext_nonblank env
                (lit "Summarize the uploaded document.") w) as (more & -> & _);
      [discriminate|].
    exists (more ++ [GenerateText
                       (promptMessages [] (lit "Summarize the uploaded document."))
                       (generateOptions (mmConversationId env f w))]).
    cbn [snd record_call trace]. now rewrite <- app_assoc.
Qed.

Lemma blank_file_is_skipped_but_summarized_witness :
  ingestUpload Demo.healthy Demo.blank
    (mmConversationId Demo.healthy
       (mkMultipartForm (Some Demo.blank) None None) Demo.sky_world)
    Demo.sky_world
  = (Returned tt, Demo.sky_world)
  /\ effectiveQuestion [] Demo.blank = lit "Summarize the uploaded document."
  /\ documents (snd (postMmChat Demo.healthy
                       (mkMultipartForm (Some Demo.blank) None None)
                       Demo.sky_world))
     = documents Demo.sky_world
  /\ exists more,
       trace (snd (postMmChat Demo.healthy
                     (mkMultipartForm (Some Demo.blank) None None)
                     Demo.sky_world))
       = trace Demo.sky_world
         ++ EmbeddingsCreate EMBEDDING_MODEL (lit "Summarize the uploaded document.")
            :: more.
Proof.
  apply (blank_file_is_skipped_but_summarized Demo.healthy
           (mkMultipartForm (Some Demo.blank) None None) Demo.sky_world Demo.blank).
  - reflexivity.
  - discriminate.
  - reflexivity.
  - reflexivity.
Defined.

(** X9. A response that names a conversation names the one the handler
    worked in: every memory and generation call the handler made is filed
    under that id, and at least one such call was made. *)
Theorem response_names_the_conversation_used
    (env : Env) (req : Request) (w : World) (resp : Response) (cid : jsstring) :
  fst (handle env req w) = Returned resp ->
  response_conversation resp = Some cid ->
  exists calls,
    trace (snd (handle env req w)) = trace w ++ calls
    /\ Forall (filed_under cid) calls
    /\ exists e, In e calls /\ event_conversation e = Some cid.
Proof.
  assert (Hnone : forall e, event_conversation e = None -> filed_under cid e).
  { intros e He c Hc. congruence. }
  destruct req as [|conversationId|b|b|f]; simpl; intros Hr Hc.
  - exfalso. revert Hr Hc. unfold getConversations.
    intros Hr. revert Hr.
    apply (returns_only_bind (fun r => response_conversation r = Some cid -> False)).
    intros c. apply returns_only_ret. discriminate.
  - unfold getHistory in *.
    destruct (negb (truthy (orEmpty conversationId))).
    + simpl in Hr. injection Hr as <-. discriminate.
    + unfold bind, outside in *.
      destruct (getMessages env (trace w) USER_ID (orEmpty conversationId) 50);
        [|discriminate].
      simpl in Hr. injection Hr as <-. injection Hc as <-.
      exists [GetMessages USER_ID (orEmpty conversationId) 50]. simpl.
      split; [reflexivity|]. split.
      * constructor; [|constructor]. intros c Hc. now injection Hc as <-.
      * eexists. split; [now left|reflexivity].
  - exfalso. revert Hr Hc. unfold postDocumentsIngest.
    intros Hr. revert Hr.
    apply (returns_only_if (fun r => response_conversation r = Some cid -> False)).
    + apply returns_only_ret. discriminate.
    + do 2 (apply returns_only_bind; intros _).
      apply returns_only_ret. discriminate.
  - destruct (trim (orEmpty (body_text b))) as [|c0 t0] eqn:T.
    + rewrite (postChat_blank env b w T) in Hr. simpl in Hr.
      injection Hr as <-. discriminate.
    + assert (Hn : trim (orEmpty (body_text b)) <> []) by (rewrite T; discriminate).
      destruct (retrieveContext_nonblank env _ w Hn) as (more & Hrc & Hm).
      rewrite (postChat_nonblank env b w _ [] Hn Hrc) in *. cbv zeta in *.
      cbn [fst snd trace record_call] in *.
      destruct (generateText env _ _ _) as [answer|ex]; [|discriminate].
      injection Hr as <-. injection Hc as <-. rewrite T.
      eexists (_ :: more ++ [_]). rewrite <- app_assoc. split; [reflexivity|].
      split.
      * constructor; [now apply Hnone|]. apply Forall_app. split.
        -- destruct Hm as [->|[emb ->]]; repeat constructor. now apply Hnone.
        -- constructor; [|constructor]. intros c Hc. now injection Hc as <-.
      * eexists. split; [right; apply in_or_app; right; now left|reflexivity].
  - rewrite postMmChat_run in *. cbv zeta in *.
    set (cid0 := mmConversationId env f w) in *.
    set (question := effectiveQuestion _ _) in *.
    assert (Hu : only_calls (filed_under cid0)
                   (ingestUpload env (orEmpty (form_file f)) cid0)).
    { unfold ingestUpload. apply only_calls_if; [|apply only_calls_ret].
      apply only_calls_bind.
      - apply only_calls_ingestDocumentText; intros; intros c Hx; discriminate.
      - intros _. apply only_calls_outside. intros c Hx. now injection Hx as <-. }
    destruct (Hu w) as (calls1 & H1 & F1).
    destruct (ingestUpload env (orEmpty (form_file f)) cid0 w) as [[u|ex] w1];
      [|discriminate].
    assert (Hq : only_calls (filed_under cid0) (retrieveContext env question)).
    { apply only_calls_retrieveContext; intros; intros c Hx; discriminate. }
    destruct (Hq w1) as (calls2 & H2 & F2).
    destruct (retrieveContext env question w1) as [[ctx|ex] w2]; [|discriminate].
    cbn [fst snd trace record_call] in *.
    destruct (generateText env _ _ _) as [answer|ex]; [|discriminate].
    injection Hr as <-. injection Hc as <-.
    eexists (calls1 ++ calls2 ++ [_]). rewrite H2, H1, <- !app_assoc.
    split; [reflexivity|]. split.
    + apply Forall_app. split; [exact F1|]. apply Forall_app. split; [exact F2|].
      constructor; [|constructor]. intros c Hc. now injection Hc as <-.
    + eexists. split; [do 2 (apply in_or_app; right); now left|reflexivity].
Qed.

Lemma response_names_the_conversation_used_witness :
  exists calls,
    trace (snd (handle Demo.healthy (GET_history (Some (lit "conv_7")))
                  Demo.sky_world))
    = trace Demo.sky_world ++ calls
    /\ Forall (filed_under (lit "conv_7")) calls
    /\ exists e, In e calls /\ event_conversation e = Some (lit "conv_7").
Proof.
  apply (response_names_the_conversation_used Demo.healthy
           (GET_history (Some (lit "conv_7"))) Demo.sky_world
           (json 200 (BHistory USER_ID (lit "conv_7") []))
           (lit "conv_7")).
  - reflexivity.
  - reflexivity.
Defined.

(** X10. Every response is a 200 or a 400, and a 400 is decided before
    anything happens: it carries an error message, and the table, the id
    sequence and the log of outside calls are as they were before the
    request. *)
Theorem rejected_requests_change_nothing
    (env : Env) (req : Request) (w : World) (resp : Response) :
  fst (handle env req w) = Returned resp ->
  accepted_or_untouched w resp (snd (handle env req w)).
Proof.
  pose (ok := fun r : Response => status r = 200).
  destruct req as [|conversationId|b|b|f]; simpl; intros Hr; unfold accepted_or_untouched.
  - left. revert Hr. unfold getConversations.
    apply (returns_only_bind ok). intros c. now apply returns_only_ret.
  - unfold getHistory in *.
    destruct (negb (truthy (orEmpty conversationId))).
    + simpl in *. injection Hr as <-. right. simpl. eauto.
    + left. revert Hr. apply (returns_only_bind ok).
      intros m. now apply returns_only_ret.
  - unfold postDocumentsIngest in *.
    destruct (negb (truthy (trim (orEmpty (body_text b))))).
    + simpl in *. injection Hr as <-. right. simpl. eauto.
    + left. revert Hr. do 2 (apply (returns_only_bind ok); intros _).
      now apply returns_only_ret.
  - destruct (trim (orEmpty (body_text b))) as [|c0 t0] eqn:T.
    + rewrite (postChat_blank env b w T) in *. simpl in *.
      injection Hr as <-. right. simpl. eauto.
    + left. revert Hr. unfold postChat. unfold bind at 1.
      rewrite chat_conversationId_step, T. cbn [truthy negb].
      do 2 (apply (returns_only_bind ok); intros ?).
      now apply returns_only_ret.
  - left. revert Hr. unfold postMmChat.
    do 4 (apply (returns_only_bind ok); intros ?).
    now apply returns_only_ret.
Qed.

Lemma rejected_requests_change_nothing_witness :
  accepted_or_untouched Demo.sky_world
    (json 400 (BError (lit "text is required")))
    (snd (handle Demo.healthy (POST_chat (mkJsonBody (Some Demo.blank) None))
            Demo.sky_world)).
Proof.
  apply (rejected_requests_change_nothing Demo.healthy
           (POST_chat (mkJsonBody (Some Demo.blank) None)) Demo.sky_world
           (json 400 (BError (lit "text is required")))).
  reflexivity.
Defined.

(** ** Facts about the schema statements *)

Module DbInitFacts.
Import DbInit.

Lemma has_extension_app (c : Catalog) (name x : string) :
  existsb (String.eqb name) (extensions c ++ [x])
  = has_extension c name || String.eqb name x.
Proof.
  unfold has_extension. rewrite existsb_app. simpl. now rewrite orb_false_r.
Qed.

Lemma lookup_table_app (rels : list (string * list Column)) (table : string)
    (name : string) (columns : list Column) :
  lookup_table (rels ++ [(name, columns)]) table
  = match lookup_table rels table with
    | Some found => Some found
    | None => if String.eqb name table then Some columns else None
    end.
Proof.
  induction rels as [|[n cs] rels IH]; simpl; [reflexivity|].
  destruct (String.eqb n table); [reflexivity|exact IH].
Qed.

Lemma lookup_set_table (rels : list (string * list Column)) (t t' : string)
    (new : list Column) :
  lookup_table (set_table rels t new) t'
  = if String.eqb t t' then
      match lookup_table rels t with Some _ => Some new | None => None end
    else lookup_table rels t'.
Proof.
  induction rels as [|[n old] rels IH]; simpl.
  - now destruct (String.eqb t t').
  - destruct (String.eqb_spec n t) as [->|Hn]; simpl.
    + now destruct (String.eqb t t').
    + rewrite IH. destruct (String.eqb_spec n t') as [->|Hn'].
      * apply not_eq_sym, String.eqb_neq in Hn. now rewrite Hn.
      * reflexivity.
Qed.

Lemma find_column_app (columns more : list Column) (name : string) :
  find_column (columns ++ more) name
  = match find_column columns name with
    | Some c => Some c
    | None => find_column more name
    end.
Proof.
  induction columns as [|c columns IH]; simpl; [reflexivity|].
  destruct (String.eqb (column_name c) name); [reflexivity|exact IH].
Qed.

Lemma has_index_app (c : Catalog) (name : string) (i : IndexDef) :
  existsb (fun j => String.eqb (index_name j) name) (indexes c ++ [i])
  = has_index c name || String.eqb (index_name i) name.
Proof.
  unfold has_index. rewrite existsb_app. simpl. now rewrite orb_false_r.
Qed.

Lemma nothing_dropped_refl (c : Catalog) : nothing_dropped c c.
Proof.
  repeat split; auto. intros table columns H. exists []. now rewrite app_nil_r.
Qed.

Lemma nothing_dropped_trans (a b c : Catalog) :
  nothing_dropped a b -> nothing_dropped b c -> nothing_dropped a c.
Proof.
  intros (E1 & T1 & I1) (E2 & T2 & I2). repeat split; auto.
  intros table columns H. destruct (T1 _ _ H) as (m1 & H1).
  destruct (T2 _ _ H1) as (m2 & H2). exists (m1 ++ m2). now rewrite app_assoc.
Qed.

(** No statement that is carried out takes anything away. *)
Lemma apply_ddl_nothing_dropped (inst : string -> bool) (d : Ddl) (c c' : Catalog) :
  apply_ddl inst d c = Returned c' -> nothing_dropped c c'.
Proof.
  destruct d as [name|table columns|table column|name table method column opclass];
    simpl.
  - destruct (has_extension c name) eqn:E.
    + intros H. injection H as <-. apply nothing_dropped_refl.
    + destruct (inst name); [|discriminate]. intros H. injection H as <-.
      repeat split; simpl; auto.
      * intros n Hn. unfold has_extension. simpl.
        rewrite has_extension_app, Hn. reflexivity.
      * intros t cs Ht. exists []. now rewrite app_nil_r.
  - destruct (lookup_table (relations c) table) eqn:L.
    + intros H. injection H as <-. apply nothing_dropped_refl.
    + destruct (forallb _ columns); [|discriminate]. intros H. injection H as <-.
      repeat split; simpl; auto.
      intros t cs Ht. exists []. now rewrite lookup_table_app, Ht, app_nil_r.
  - destruct (lookup_table (relations c) table) as [columns|] eqn:L; [|discriminate].
    destruct (find_column columns (column_name column)).
    + intros H. injection H as <-. apply nothing_dropped_refl.
    + destruct (type_known c (column_type column)); [|discriminate].
      intros H. injection H as <-. repeat split; simpl; auto.
      intros t cs Ht. rewrite lookup_set_table.
      destruct (String.eqb_spec table t) as [<-|Hne].
      * rewrite L. rewrite L in Ht. injection Ht as <-. now exists [column].
      * exists []. now rewrite app_nil_r.
  - destruct (lookup_table (relations c) table) as [columns|]; [|discriminate].
    destruct (negb (method_known c method)); [discriminate|].
    destruct (find_column columns column) as [col|]; [|discriminate].
    destruct (negb (opclass_fits opclass (column_type col))); [discriminate|].
    destruct (has_index c name) eqn:E.
    + intros H. injection H as <-. apply nothing_dropped_refl.
    + destruct (build_fault method (column_type col)); [discriminate|].
      intros H. injection H as <-. repeat split; simpl; auto.
      * intros t cs Ht. exists []. now rewrite app_nil_r.
      * intros n Hn. unfold has_index. simpl. rewrite has_index_app, Hn.
        reflexivity.
Qed.

Section WithServer.
Variable srv : Server.

(** A query sends its statement; the catalog changes only if the statement
    is carried out; the client stays checked out. *)
Lemma query_run (d : Ddl) (s : Db) :
  exists r c,
    query srv d s = (r, mkDb c (checked_out s) (sent s ++ [d]))
    /\ match r with
       | Returned _ =>
           query_fault srv (sent s) = None
           /\ apply_ddl (installable srv) d (catalog s) = Returned c
       | Thrown _ => c = catalog s
       end.
Proof.
  unfold query. destruct (query_fault srv (sent s)) as [e|].
  - exists (Thrown e), (catalog s). auto.
  - destruct (apply_ddl (installable srv) d (catalog s)) as [c|e].
    + exists (Returned tt), c. auto.
    + exists (Thrown e), (catalog s). auto.
Qed.

Lemma query_frame (d : Ddl) (s : Db) :
  checked_out (snd (query srv d s)) = checked_out s
  /\ nothing_dropped (catalog s) (catalog (snd (query srv d s)))
  /\ sent (snd (query srv d s)) = sent s ++ [d].
Proof.
  destruct (query_run d s) as (r & c & -> & H). simpl.
  split; [reflexivity|]. split; [|reflexivity].
  destruct r as [u|e].
  - destruct H as [_ H]. now apply apply_ddl_nothing_dropped in H.
  - subst c. apply nothing_dropped_refl.
Qed.

(** The four statements, when all are carried out. *)
Lemma statements_returned (s s' : Db) :
  statements srv s = (Returned tt, s') ->
  exists c1 c2 c3 c4,
    apply_ddl (installable srv) createExtensionSql (catalog s) = Returned c1
    /\ apply_ddl (installable srv) createTableSql c1 = Returned c2
    /\ apply_ddl (installable srv) addChunkIndexSql c2 = Returned c3
    /\ apply_ddl (installable srv) createIndexSql c3 = Returned c4
    /\ s' = mkDb c4 (checked_out s)
               (sent s ++ [createExtensionSql; createTableSql;
                           addChunkIndexSql; createIndexSql]).
Proof.
  unfold statements, andThen. intros H.
  destruct (query_run createExtensionSql s) as (r1 & c1 & Q1 & R1).
  rewrite Q1 in H. destruct r1 as [u1|e1]; [|discriminate]. destruct R1 as [_ A1].
  destruct (query_run createTableSql
              (mkDb c1 (checked_out s) (sent s ++ [createExtensionSql])))
    as (r2 & c2 & Q2 & R2).
  rewrite Q2 in H. destruct r2 as [u2|e2]; [|discriminate]. destruct R2 as [_ A2].
  simpl in *.
  destruct (query_run addChunkIndexSql
              (mkDb c2 (checked_out s)
                 ((sent s ++ [createExtensionSql]) ++ [createTableSql])))
    as (r3 & c3 & Q3 & R3).
  rewrite Q3 in H. destruct r3 as [u3|e3]; [|discriminate]. destruct R3 as [_ A3].
  simpl in *.
  destruct (query_run createIndexSql
              (mkDb c3 (checked_out s)
                 (((sent s ++ [createExtensionSql]) ++ [createTableSql])
                  ++ [addChunkIndexSql])))
    as (r4 & c4 & Q4 & R4).
  rewrite Q4 in H. destruct r4 as [u4|e4]; [|discriminate]. destruct R4 as [_ A4].
  simpl in *.
  exists c1, c2, c3, c4. repeat split; try assumption.
  injection H as _ <-. now rewrite <- !app_assoc.
Qed.

(** Whatever the four statements do: the client stays checked out, nothing
    is dropped, and what was sent is a front part of the four, in order. *)
Lemma statements_frame (s : Db) :
  checked_out (snd (statements srv s)) = checked_out s
  /\ nothing_dropped (catalog s) (catalog (snd (statements srv s)))
  /\ exists n,
       1 <= n
       /\ sent (snd (statements srv s))
          = sent s ++ firstn n [createExtensionSql; createTableSql;
                                addChunkIndexSql; createIndexSql].
Proof.
  unfold statements, andThen.
  destruct (query_frame createExtensionSql s) as (K1 & N1 & S1).
  destruct (query srv createExtensionSql s) as [[u1|e1] s1]; simpl in *;
    [|split; [exact K1|]; split; [exact N1|]; exists 1; split; [lia|exact S1]].
  destruct (query_frame createTableSql s1) as (K2 & N2 & S2).
  destruct (query srv createTableSql s1) as [[u2|e2] s2]; simpl in *;
    [|split; [congruence|]; split; [eapply nothing_dropped_trans; eassumption|];
      exists 2; split; [lia|]; rewrite S2, S1, <- app_assoc; reflexivity].
  destruct (query_frame addChunkIndexSql s2) as (K3 & N3 & S3).
  destruct (query srv addChunkIndexSql s2) as [[u3|e3] s3]; simpl in *;
    [|split; [congruence|]; split;
      [eapply nothing_dropped_trans; [|eassumption];
       eapply nothing_dropped_trans; eassumption|];
      exists 3; split; [lia|]; rewrite S3, S2, S1, <- !app_assoc; reflexivity].
  destruct (query_frame createIndexSql s3) as (K4 & N4 & S4).
  split; [congruence|]. split.
  - eapply nothing_dropped_trans; [|eassumption].
    eapply nothing_dropped_trans; [|eassumption].
    eapply nothing_dropped_trans; eassumption.
  - exists 4. split; [lia|]. rewrite S4, S3, S2, S1, <- !app_assoc. reflexivity.
Qed.

(** [initDocumentVectorTable], by whether a client could be had. *)
Lemma init_run (s : Db) :
  initDocumentVectorTable srv s
  = match connect_fault srv (sent s) with
    | Some e => (Thrown e, s)
    | None =>
        let s0 := mkDb (catalog s) (S (checked_out s)) (sent s) in
        (fst (statements srv s0), release (snd (statements srv s0)))
    end.
Proof.
  unfold initDocumentVectorTable, andThen, connect, finally.
  destruct (connect_fault srv (sent s)); [reflexivity|].
  now destruct (statements srv _).
Qed.

End WithServer.

(** What each statement, carried out, establishes. *)

Lemma extension_step (inst : string -> bool) (c c1 : Catalog) :
  apply_ddl inst createExtensionSql c = Returned c1 ->
  has_extension c1 "vector" = true
  /\ relations c1 = relations c /\ indexes c1 = indexes c.
Proof.
  simpl. destruct (has_extension c "vector") eqn:E.
  - intros H. injection H as <-. auto.
  - destruct (inst "vector"%string); [|discriminate].
    intros H. injection H as <-. repeat split.
    unfold has_extension at 1. cbn [extensions].
    rewrite has_extension_app. apply orb_true_r.
Qed.

Lemma table_step (inst : string -> bool) (c1 c2 : Catalog) :
  apply_ddl inst createTableSql c1 = Returned c2 ->
  extensions c2 = extensions c1 /\ indexes c2 = indexes c1
  /\ match lookup_table (relations c1) "documents" with
     | Some columns => relations c2 = relations c1
     | None =>
         exists columns,
           lookup_table (relations c2) "documents" = Some columns
           /\ map column_name columns = documents_columns
           /\ find_column columns "chunk_index"
              = Some (mkColumn "chunk_index" INT false false)
           /\ find_column columns "embedding"
              = Some (mkColumn "embedding" (VECTOR 1536) true false)
     end.
Proof.
  simpl. destruct (lookup_table (relations c1) "documents") eqn:L.
  - intros H. injection H as <-. auto.
  - match goal with
    | |- (if ?b then _ else _) = _ -> _ => destruct b; [|discriminate]
    end.
    intros H. injection H as <-. simpl. repeat split.
    eexists. rewrite lookup_table_app, L. simpl. repeat split.
Qed.

Lemma alter_step (inst : string -> bool) (c2 c3 : Catalog) :
  apply_ddl inst addChunkIndexSql c2 = Returned c3 ->
  extensions c3 = extensions c2 /\ indexes c3 = indexes c2
  /\ exists columns,
       lookup_table (relations c2) "documents" = Some columns
       /\ match find_column columns "chunk_index" with
          | Some _ => relations c3 = relations c2
          | None =>
              lookup_table (relations c3) "documents"
              = Some (columns ++ [mkColumn "chunk_index" INT false false])
          end.
Proof.
  simpl. destruct (lookup_table (relations c2) "documents") as [columns|] eqn:L;
    [|discriminate].
  destruct (find_column columns "chunk_index") eqn:F.
  - intros H. injection H as <-. repeat split. exists columns. now rewrite F.
  - intros H. injection H as <-. simpl. repeat split. exists columns.
    rewrite F, lookup_set_table, L. split; reflexivity.
Qed.

Lemma index_step (inst : string -> bool) (c3 c4 : Catalog) :
  apply_ddl inst createIndexSql c3 = Returned c4 ->
  extensions c4 = extensions c3 /\ relations c4 = relations c3
  /\ has_index c4 "embeddingindex" = true
  /\ has_extension c3 "vector" = true
  /\ exists columns e dims,
       lookup_table (relations c3) "documents" = Some columns
       /\ find_column columns "embedding" = Some e
       /\ column_type e = VECTOR dims.
Proof.
  simpl. destruct (lookup_table (relations c3) "documents") as [columns|] eqn:L;
    [|discriminate].
  unfold method_known. simpl.
  destruct (has_extension c3 "vector") eqn:E; [|discriminate]. simpl.
  destruct (find_column columns "embedding") as [e|] eqn:F; [|discriminate].
  destruct (column_type e) as [| |dims|] eqn:T; simpl; try discriminate.
  destruct (has_index c3 "embeddingindex") eqn:X.
  - intros H. injection H as <-. repeat split; auto. exists columns, e, dims. auto.
  - destruct (build_fault "hnsw" (VECTOR dims)); [discriminate|].
    intros H. injection H as <-. simpl. repeat split.
    + unfold has_index at 1. cbn [indexes]. rewrite has_index_app.
      apply orb_true_r.
    + exists columns, e, dims. auto.
Qed.

(** The index can be built on a vector column of 1 to 2000 dimensions. *)
Lemma build_fault_none (dims : nat) :
  1 <= dims <= HNSW_MAX_DIMENSIONS ->
  build_fault "hnsw" (VECTOR dims) = None.
Proof.
  intros [H1 H2]. unfold build_fault. simpl.
  destruct dims as [|d]; [lia|].
  destruct (HNSW_MAX_DIMENSIONS <? S d) eqn:E; [|reflexivity].
  apply Nat.ltb_lt in E. lia.
Qed.

Section Chain.
Variable srv : Server.
Hypothesis connects : forall log, connect_fault srv log = None.
Hypothesis answers : forall log, query_fault srv log = None.

Lemma query_answered (d : Ddl) (s : Db) :
  query srv d s
  = match apply_ddl (installable srv) d (catalog s) with
    | Returned c => (Returned tt, mkDb c (checked_out s) (sent s ++ [d]))
    | Thrown e => (Thrown e, mkDb (catalog s) (checked_out s) (sent s ++ [d]))
    end.
Proof. unfold query. now rewrite answers. Qed.

(** With connections that hold, the four statements carried out one after
    the other are a run of [initDocumentVectorTable] that returns. *)
Lemma init_of_chain (s : Db) (c1 c2 c3 c4 : Catalog) :
  apply_ddl (installable srv) createExtensionSql (catalog s) = Returned c1 ->
  apply_ddl (installable srv) createTableSql c1 = Returned c2 ->
  apply_ddl (installable srv) addChunkIndexSql c2 = Returned c3 ->
  apply_ddl (installable srv) createIndexSql c3 = Returned c4 ->
  initDocumentVectorTable srv s
  = (Returned tt,
     mkDb c4 (checked_out s)
          (sent s ++ [createExtensionSql; createTableSql;
                      addChunkIndexSql; createIndexSql])).
Proof.
  intros A1 A2 A3 A4. rewrite init_run, connects. cbv zeta.
  unfold statements, andThen.
  rewrite query_answered. cbn [catalog checked_out sent]. rewrite A1.
  rewrite query_answered. cbn [catalog checked_out sent]. rewrite A2.
  rewrite query_answered. cbn [catalog checked_out sent]. rewrite A3.
  rewrite query_answered. cbn [catalog checked_out sent]. rewrite A4.
  unfold release. cbn [fst snd catalog checked_out sent pred].
  now rewrite <- !app_assoc.
Qed.

End Chain.

(** A run of [initDocumentVectorTable] that returns leaves a ready schema;
    a table it found is as it was, but for a chunk index it lacked; a table
    it made has the columns the store's statements name. *)
Lemma init_returned (srv : Server) (s s' : Db) :
  initDocumentVectorTable srv s = (Returned tt, s') ->
  schema_ready (catalog s')
  /\ match lookup_table (relations (catalog s)) "documents" with
     | None =>
         exists columns,
           lookup_table (relations (catalog s')) "documents" = Some columns
           /\ map column_name columns = documents_columns
     | Some columns =>
         match find_column columns "chunk_index" with
         | Some _ =>
             lookup_table (relations (catalog s')) "documents" = Some columns
         | None =>
             lookup_table (relations (catalog s')) "documents"
             = Some (columns ++ [mkColumn "chunk_index" INT false false])
         end
     end.
Proof.
  rewrite init_run. destruct (connect_fault srv (sent s)); [discriminate|].
  cbv zeta.
  destruct (statements srv _) as [r s1] eqn:R. cbn [fst snd].
  intros H. injection H as -> <-.
  apply statements_returned in R.
  destruct R as (c1 & c2 & c3 & c4 & A1 & A2 & A3 & A4 & ->).
  cbn [catalog release] in *.
  apply extension_step in A1. destruct A1 as (E1 & R1 & _).
  apply table_step in A2. destruct A2 as (E2 & _ & T2).
  apply alter_step in A3. destruct A3 as (E3 & _ & cols2 & L2 & T3).
  apply index_step in A4.
  destruct A4 as (E4 & R4 & X4 & _ & cols3 & e & dims & L3 & Fe & Te).
  assert (Hext : has_extension c4 "vector" = true).
  { unfold has_extension in *. now rewrite E4, E3, E2. }
  assert (Hk : exists k, find_column cols3 "chunk_index" = Some k).
  { destruct (find_column cols2 "chunk_index") as [k|] eqn:Fk.
    - rewrite T3, L2 in L3. injection L3 as <-. eauto.
    - rewrite T3 in L3. injection L3 as <-.
      rewrite find_column_app, Fk. simpl. eauto. }
  destruct Hk as (k & Fk).
  split.
  - split; [exact Hext|]. split; [|exact X4].
    exists cols3, dims, e, k. rewrite R4. auto.
  - rewrite R4, <- R1.
    destruct (lookup_table (relations c1) "documents") as [cols0|] eqn:L1.
    + rewrite T2, L1 in L2. injection L2 as <-.
      destruct (find_column cols0 "chunk_index"); [now rewrite T3, T2|exact T3].
    + destruct T2 as (columns & Lc & Hn & Hf & _). rewrite Lc in L2.
      injection L2 as <-. rewrite Hf in T3. exists columns.
      now rewrite T3.
Qed.

(** On a ready schema each of the four statements is skipped or changes
    nothing. *)
Lemma ready_is_fixed (inst : string -> bool) (c : Catalog) (d : Ddl) :
  schema_ready c ->
  In d [createExtensionSql; createTableSql; addChunkIndexSql; createIndexSql] ->
  apply_ddl inst d c = Returned c.
Proof.
  intros (E & (columns & dims & e & k & L & Fe & Te & Fk) & X) Hd.
  simpl in Hd. destruct Hd as [<-|[<-|[<-|[<-|[]]]]]; simpl.
  - now rewrite E.
  - now rewrite L.
  - now rewrite L, Fk.
  - rewrite L. unfold method_known. simpl. rewrite E. simpl.
    rewrite Fe, Te. simpl. now rewrite X.
Qed.

End DbInitFacts.

(** ** Start-up: [initDocumentVectorTable] and [bootstrap] *)

(** X11. However it ends, [initDocumentVectorTable] gives back the client
    it took: as many clients are checked out afterwards as before. When no
    client could be had it sends nothing; otherwise what it sends is a front
    part, at least the first, of the four statements in their order. *)
Theorem init_releases_its_client (srv : DbInit.Server) (s : DbInit.Db) :
  DbInit.checked_out (snd (DbInit.initDocumentVectorTable srv s))
  = DbInit.checked_out s
  /\ match DbInit.connect_fault srv (DbInit.sent s) with
     | Some e => DbInit.initDocumentVectorTable srv s = (Thrown e, s)
     | None =>
         exists n,
           1 <= n
           /\ DbInit.sent (snd (DbInit.initDocumentVectorTable srv s))
              = DbInit.sent s
                ++ firstn n [DbInit.createExtensionSql; DbInit.createTableSql;
                             DbInit.addChunkIndexSql; DbInit.createIndexSql]
     end.
Proof.
  rewrite DbInitFacts.init_run.
  destruct (DbInit.connect_fault srv (DbInit.sent s)); [now split|].
  cbv zeta. cbn [snd].
  destruct (DbInitFacts.statements_frame srv
              (DbInit.mkDb (DbInit.catalog s) (S (DbInit.checked_out s))
                           (DbInit.sent s)))
    as (K & _ & n & Hn & Hs).
  unfold DbInit.release. cbn [DbInit.checked_out DbInit.sent] in *.
  rewrite K. split; [reflexivity|]. now exists n.
Qed.

(** X12. When [initDocumentVectorTable] returns, all four statements were
    sent, in their order, and the schema is ready: the [vector] extension is
    installed, [documents] has its [embedding] column of a vector type and
    its [chunk_index] column, and the index [embeddingindex] exists. A table
    it had to create has exactly the columns id, content, embedding,
    chunk_index; a table it found keeps its columns, with [chunk_index INT]
    added at the end if it was missing. *)
Theorem init_leaves_the_schema_ready (srv : DbInit.Server) (s s' : DbInit.Db) :
  DbInit.initDocumentVectorTable srv s = (Returned tt, s') ->
  DbInit.sent s'
  = DbInit.sent s
    ++ [DbInit.createExtensionSql; DbInit.createTableSql;
        DbInit.addChunkIndexSql; DbInit.createIndexSql]
  /\ DbInit.schema_ready (DbInit.catalog s')
  /\ match DbInit.lookup_table (DbInit.relations (DbInit.catalog s)) "documents" with
     | None =>
         exists columns,
           DbInit.lookup_table (DbInit.relations (DbInit.catalog s')) "documents"
           = Some columns
           /\ map DbInit.column_name columns = documents_columns
     | Some columns =>
         match DbInit.find_column columns "chunk_index" with
         | Some _ =>
             DbInit.lookup_table (DbInit.relations (DbInit.catalog s')) "documents"
             = Some columns
         | None =>
             DbInit.lookup_table (DbInit.relations (DbInit.catalog s')) "documents"
             = Some (columns
                     ++ [DbInit.mkColumn "chunk_index" DbInit.INT false false])
         end
     end.
Proof.
  intros H. split; [|now apply (DbInitFacts.init_returned srv)].
  rewrite DbInitFacts.init_run in H.
  destruct (DbInit.connect_fault srv (DbInit.sent s)); [discriminate|].
  cbv zeta in H. destruct (DbInit.statements srv _) as [r s1] eqn:R.
  cbn [fst snd] in H. injection H as -> <-.
  apply DbInitFacts.statements_returned in R.
  destruct R as (c1 & c2 & c3 & c4 & _ & _ & _ & _ & ->). reflexivity.
Qed.

Lemma init_leaves_the_schema_ready_witness :
  DbInit.sent (snd (DbInit.initDocumentVectorTable DbInit.good_server
                      DbInit.legacy_db))
  = DbInit.sent DbInit.legacy_db
    ++ [DbInit.createExtensionSql; DbInit.createTableSql;
        DbInit.addChunkIndexSql; DbInit.createIndexSql]
  /\ DbInit.schema_ready
    (DbInit.catalog
       (snd (DbInit.initDocumentVectorTable DbInit.good_server DbInit.legacy_db)))
  /\ DbInit.lookup_table
       (DbInit.relations
          (DbInit.catalog
             (snd (DbInit.initDocumentVectorTable DbInit.good_server
                     DbInit.legacy_db))))
       "documents"
     = Some [DbInit.mkColumn "id" DbInit.SERIAL true true;
             DbInit.mkColumn "content" DbInit.TEXT true false;
             DbInit.mkColumn "embedding" (DbInit.VECTOR 1536) true false;
             DbInit.mkColumn "chunk_index" DbInit.INT false false].
Proof.
  apply (init_leaves_the_schema_ready DbInit.good_server DbInit.legacy_db
           (snd (DbInit.initDocumentVectorTable DbInit.good_server
                   DbInit.legacy_db))).
  vm_compute. reflexivity.
Defined.

(** X13. [initDocumentVectorTable] is safe to call again: after a call
    that returned, and with connections that hold, the next call returns as
    well and leaves the catalog exactly as it found it. *)
Theorem init_can_be_repeated (srv : DbInit.Server) (s s1 : DbInit.Db) :
  DbInit.initDocumentVectorTable srv s = (Returned tt, s1) ->
  (forall log, DbInit.connect_fault srv log = None) ->
  (forall log, DbInit.query_fault srv log = None) ->
  exists s2,
    DbInit.initDocumentVectorTable srv s1 = (Returned tt, s2)
    /\ DbInit.catalog s2 = DbInit.catalog s1
    /\ DbInit.checked_out s2 = DbInit.checked_out s1.
Proof.
  intros H Hc Hq. apply DbInitFacts.init_returned in H. destruct H as [Hr _].
  eexists. split.
  - apply (DbInitFacts.init_of_chain srv Hc Hq s1
             (DbInit.catalog s1) (DbInit.catalog s1)
             (DbInit.catalog s1) (DbInit.catalog s1));
      apply DbInitFacts.ready_is_fixed; simpl; auto.
  - split; reflexivity.
Qed.

Lemma init_can_be_repeated_witness :
  exists s2,
    DbInit.initDocumentVectorTable DbInit.good_server
      (snd (DbInit.initDocumentVectorTable DbInit.good_server DbInit.empty_db))
    = (Returned tt, s2)
    /\ DbInit.catalog s2
       = DbInit.catalog
           (snd (DbInit.initDocumentVectorTable DbInit.good_server DbInit.empty_db))
    /\ DbInit.checked_out s2
       = DbInit.checked_out
           (snd (DbInit.initDocumentVectorTable DbInit.good_server DbInit.empty_db)).
Proof.
  apply (init_can_be_repeated DbInit.good_server DbInit.empty_db).
  - vm_compute. reflexivity.
  - reflexivity.
  - reflexivity.
Defined.

(** X14. [initDocumentVectorTable] never takes anything away, however it
    ends: every extension and index that was there is still there, and every
    table still has the columns it had, in order, at most followed by new
    ones. *)
Theorem init_drops_nothing (srv : DbInit.Server) (s : DbInit.Db) :
  DbInit.nothing_dropped (DbInit.catalog s)
    (DbInit.catalog (snd (DbInit.initDocumentVectorTable srv s))).
Proof.
  rewrite DbInitFacts.init_run.
  destruct (DbInit.connect_fault srv (DbInit.sent s)).
  - apply DbInitFacts.nothing_dropped_refl.
  - cbv zeta. cbn [snd].
    destruct (DbInitFacts.statements_frame srv
                (DbInit.mkDb (DbInit.catalog s) (S (DbInit.checked_out s))
                             (DbInit.sent s)))
      as (_ & N & _).
    exact N.
Qed.

(** X15. On a server that offers the extension and whose connections hold,
    [initDocumentVectorTable] returns, with the schema ready, whenever there
    is no [documents] table yet, or the one there has an [embedding] column
    of a vector type on which the index can be built (1 to 2000 declared
    dimensions) or is already built. *)
Theorem init_succeeds_on_a_dependable_server (srv : DbInit.Server) (s : DbInit.Db) :
  DbInit.dependable srv ->
  (DbInit.lookup_table (DbInit.relations (DbInit.catalog s)) "documents" = None
   \/ exists columns e dims,
        DbInit.lookup_table (DbInit.relations (DbInit.catalog s)) "documents"
        = Some columns
        /\ DbInit.find_column columns "embedding" = Some e
        /\ DbInit.column_type e = DbInit.VECTOR dims
        /\ (1 <= dims <= DbInit.HNSW_MAX_DIMENSIONS
            \/ DbInit.has_index (DbInit.catalog s) "embeddingindex" = true)) ->
  exists s',
    DbInit.initDocumentVectorTable srv s = (Returned tt, s')
    /\ DbInit.schema_ready (DbInit.catalog s').
Proof.
  intros (Hi & Hc & Hq) Ht.
  assert (A1 : exists c1,
             DbInit.apply_ddl (DbInit.installable srv) DbInit.createExtensionSql
                              (DbInit.catalog s) = Returned c1).
  { simpl. destruct (DbInit.has_extension (DbInit.catalog s) "vector"); [eauto|].
    rewrite Hi. eauto. }
  destruct A1 as (c1 & A1).
  destruct (DbInitFacts.extension_step _ _ _ A1) as (E1 & R1 & I1).
  assert (A2 : exists c2,
             DbInit.apply_ddl (DbInit.installable srv) DbInit.createTableSql c1
             = Returned c2).
  { simpl. destruct (DbInit.lookup_table (DbInit.relations c1) "documents");
      [eauto|].
    rewrite E1. simpl. eauto. }
  destruct A2 as (c2 & A2).
  destruct (DbInitFacts.table_step _ _ _ A2) as (E2 & I2 & T2).
  assert (L2 : exists cols2 e dims,
             DbInit.lookup_table (DbInit.relations c2) "documents" = Some cols2
             /\ DbInit.find_column cols2 "embedding" = Some e
             /\ DbInit.column_type e = DbInit.VECTOR dims
             /\ (1 <= dims <= DbInit.HNSW_MAX_DIMENSIONS
                 \/ DbInit.has_index (DbInit.catalog s) "embeddingindex" = true)).
  { rewrite R1 in T2.
    destruct Ht as [Hn|(columns & e & dims & Hl & He & Hd & Hb)].
    - rewrite Hn in T2. destruct T2 as (columns & Lc & _ & _ & Fe).
      eexists columns, _, 1536. split; [exact Lc|]. split; [exact Fe|].
      split; [reflexivity|]. left. unfold DbInit.HNSW_MAX_DIMENSIONS. lia.
    - rewrite Hl in T2. rewrite T2. exists columns, e, dims. auto. }
  destruct L2 as (cols2 & e & dims & L2 & Fe & Te & Hb).
  assert (A3 : exists c3,
             DbInit.apply_ddl (DbInit.installable srv) DbInit.addChunkIndexSql c2
             = Returned c3).
  { simpl. rewrite L2.
    destruct (DbInit.find_column cols2 "chunk_index"); eauto. }
  destruct A3 as (c3 & A3).
  destruct (DbInitFacts.alter_step _ _ _ A3) as (E3 & X3 & cols2' & L2' & T3).
  rewrite L2 in L2'. injection L2' as <-.
  assert (L3 : exists cols3,
             DbInit.lookup_table (DbInit.relations c3) "documents" = Some cols3
             /\ DbInit.find_column cols3 "embedding" = Some e).
  { destruct (DbInit.find_column cols2 "chunk_index").
    - rewrite T3. eauto.
    - eexists. split; [exact T3|].
      now rewrite DbInitFacts.find_column_app, Fe. }
  destruct L3 as (cols3 & L3 & Fe3).
  assert (A4 : exists c4,
             DbInit.apply_ddl (DbInit.installable srv) DbInit.createIndexSql c3
             = Returned c4).
  { simpl. rewrite L3. unfold DbInit.method_known. simpl.
    assert (H3 : DbInit.has_extension c3 "vector" = true).
    { unfold DbInit.has_extension in *. now rewrite E3, E2. }
    rewrite H3. simpl. rewrite Fe3, Te. simpl.
    destruct (DbInit.has_index c3 "embeddingindex") eqn:X; [eauto|].
    destruct Hb as [Hb|Hb].
    - rewrite (DbInitFacts.build_fault_none dims Hb). eauto.
    - unfold DbInit.has_index in *. rewrite X3, I2, I1, Hb in X. discriminate. }
  destruct A4 as (c4 & A4).
  pose proof (DbInitFacts.init_of_chain srv Hc Hq s c1 c2 c3 c4 A1 A2 A3 A4) as Hrun.
  eexists. split; [exact Hrun|].
  now apply DbInitFacts.init_returned in Hrun.
Qed.

Lemma init_succeeds_on_a_dependable_server_witness :
  (exists s',
     DbInit.initDocumentVectorTable DbInit.good_server DbInit.empty_db
     = (Returned tt, s')
     /\ DbInit.schema_ready (DbInit.catalog s'))
  /\ (exists s',
        DbInit.initDocumentVectorTable DbInit.good_server DbInit.legacy_db
        = (Returned tt, s')
        /\ DbInit.schema_ready (DbInit.catalog s')).
Proof.
  split.
  - apply (init_succeeds_on_a_dependable_server DbInit.good_server
             DbInit.empty_db).
    + repeat split.
    + left. reflexivity.
  - apply (init_succeeds_on_a_dependable_server DbInit.good_server
             DbInit.legacy_db).
    + repeat split.
    + right.
      exists [DbInit.mkColumn "id" DbInit.SERIAL true true;
              DbInit.mkColumn "content" DbInit.TEXT true false;
              DbInit.mkColumn "embedding" (DbInit.VECTOR 1536) true false],
             (DbInit.mkColumn "embedding" (DbInit.VECTOR 1536) true false),
             1536.
      repeat split. left. unfold DbInit.HNSW_MAX_DIMENSIONS. lia.
Defined.

(** A table whose [embedding] column has more dimensions than the index
    takes: the fourth statement is refused and start-up fails. *)
Example init_fails_on_a_wide_column :
  fst (DbInit.initDocumentVectorTable DbInit.good_server DbInit.wide_db)
  = Thrown (PgError "54000").
Proof. reflexivity. Qed.

(** X16. Nothing wraps the four statements into one transaction. On a
    dependable server, a [documents] table from before embeddings, with
    neither an [embedding] nor a [chunk_index] column (and no index of the
    name yet), makes [initDocumentVectorTable] throw undefined_column at the
    fourth statement, after the third has already added [chunk_index] to the
    table; the client is released all the same. *)
Theorem init_fails_late_without_embedding_column
    (srv : DbInit.Server) (s : DbInit.Db) (columns : list DbInit.Column) :
  DbInit.dependable srv ->
  DbInit.lookup_table (DbInit.relations (DbInit.catalog s)) "documents"
    = Some columns ->
  DbInit.find_column columns "embedding" = None ->
  DbInit.find_column columns "chunk_index" = None ->
  DbInit.has_index (DbInit.catalog s) "embeddingindex" = false ->
  exists s',
    DbInit.initDocumentVectorTable srv s = (Thrown (PgError "42703"), s')
    /\ DbInit.lookup_table (DbInit.relations (DbInit.catalog s')) "documents"
       = Some (columns ++ [DbInit.mkColumn "chunk_index" DbInit.INT false false])
    /\ DbInit.checked_out s' = DbInit.checked_out s
    /\ DbInit.sent s'
       = DbInit.sent s
         ++ [DbInit.createExtensionSql; DbInit.createTableSql;
             DbInit.addChunkIndexSql; DbInit.createIndexSql].
Proof.
  intros (Hi & Hc & Hq) Hl Fe Fk _.
  assert (A1 : exists c1,
             DbInit.apply_ddl (DbInit.installable srv) DbInit.createExtensionSql
                              (DbInit.catalog s) = Returned c1).
  { simpl. destruct (DbInit.has_extension (DbInit.catalog s) "vector"); [eauto|].
    rewrite Hi. eauto. }
  destruct A1 as (c1 & A1).
  destruct (DbInitFacts.extension_step _ _ _ A1) as (E1 & R1 & _).
  assert (A2 : DbInit.apply_ddl (DbInit.installable srv) DbInit.createTableSql c1
               = Returned c1).
  { simpl. now rewrite R1, Hl. }
  pose (c3 := DbInit.mkCatalog (DbInit.extensions c1)
                (DbInit.set_table (DbInit.relations c1) "documents"
                   (columns ++ [DbInit.mkColumn "chunk_index" DbInit.INT false false]))
                (DbInit.indexes c1)).
  assert (A3 : DbInit.apply_ddl (DbInit.installable srv) DbInit.addChunkIndexSql c1
               = Returned c3).
  { unfold c3. simpl. now rewrite R1, Hl, Fk. }
  assert (L3 : DbInit.lookup_table (DbInit.relations c3) "documents"
               = Some (columns
                       ++ [DbInit.mkColumn "chunk_index" DbInit.INT false false])).
  { unfold c3. cbn [DbInit.relations].
    now rewrite DbInitFacts.lookup_set_table, R1, Hl. }
  assert (A4 : DbInit.apply_ddl (DbInit.installable srv) DbInit.createIndexSql c3
               = Thrown (PgError "42703")).
  { assert (E3 : DbInit.has_extension c3 "vector" = true) by exact E1.
    clearbody c3. simpl. rewrite L3. unfold DbInit.method_known. simpl.
    rewrite E3. simpl. now rewrite DbInitFacts.find_column_app, Fe. }
  eexists. split.
  - rewrite DbInitFacts.init_run, Hc. cbv zeta.
    unfold DbInit.statements, DbInit.andThen.
    rewrite (DbInitFacts.query_answered srv Hq).
    cbn [DbInit.catalog DbInit.checked_out DbInit.sent]. rewrite A1.
    rewrite (DbInitFacts.query_answered srv Hq).
    cbn [DbInit.catalog DbInit.checked_out DbInit.sent]. rewrite A2.
    rewrite (DbInitFacts.query_answered srv Hq).
    cbn [DbInit.catalog DbInit.checked_out DbInit.sent]. rewrite A3.
    rewrite (DbInitFacts.query_answered srv Hq).
    cbn [DbInit.catalog DbInit.checked_out DbInit.sent]. rewrite A4.
    cbn [fst snd]. reflexivity.
  - unfold DbInit.release.
    cbn [DbInit.catalog DbInit.checked_out DbInit.sent pred].
    split; [exact L3|]. split; [reflexivity|]. now rewrite <- !app_assoc.
Qed.

Lemma init_fails_late_without_embedding_column_witness :
  exists s',
    DbInit.initDocumentVectorTable DbInit.good_server DbInit.ancient_db
    = (Thrown (PgError "42703"), s')
    /\ DbInit.lookup_table (DbInit.relations (DbInit.catalog s')) "documents"
       = Some ([DbInit.mkColumn "id" DbInit.SERIAL true true;
                DbInit.mkColumn "content" DbInit.TEXT true false]
               ++ [DbInit.mkColumn "chunk_index" DbInit.INT false false])
    /\ DbInit.checked_out s' = DbInit.checked_out DbInit.ancient_db
    /\ DbInit.sent s'
       = DbInit.sent DbInit.ancient_db
         ++ [DbInit.createExtensionSql; DbInit.createTableSql;
             DbInit.addChunkIndexSql; DbInit.createIndexSql].
Proof.
  apply (init_fails_late_without_embedding_column DbInit.good_server
           DbInit.ancient_db).
  - repeat split.
  - reflexivity.
  - reflexivity.
  - reflexivity.
  - reflexivity.
Defined.

(** X17. The server is started exactly when [initDocumentVectorTable]
    returned, and then on a ready schema: the extension, the table with its
    embedding and chunk-index columns and the index are there when
    [bootstrap] reaches [new VoltAgent]. Whenever [initDocumentVectorTable]
    throws, be the schema ready or not, the process exits with code 1 and
    the database is left as the failed run left it. Either way no client is
    left checked out. *)
Theorem bootstrap_serves_only_on_a_ready_schema (srv : DbInit.Server) (s : DbInit.Db) :
  match DbInit.initDocumentVectorTable srv s with
  | (Returned _, s') =>
      DbInit.bootstrap srv s = (DbInit.Serving, s')
      /\ DbInit.schema_ready (DbInit.catalog s')
  | (Thrown _, s') =>
      DbInit.bootstrap srv s = (DbInit.Exited 1, s')
  end
  /\ DbInit.checked_out (snd (DbInit.bootstrap srv s)) = DbInit.checked_out s.
Proof.
  assert (K : DbInit.checked_out (snd (DbInit.initDocumentVectorTable srv s))
              = DbInit.checked_out s).
  { rewrite DbInitFacts.init_run.
    destruct (DbInit.connect_fault srv (DbInit.sent s)); [reflexivity|].
    cbv zeta. cbn [snd].
    destruct (DbInitFacts.statements_frame srv
                (DbInit.mkDb (DbInit.catalog s) (S (DbInit.checked_out s))
                             (DbInit.sent s)))
      as (K & _).
    unfold DbInit.release. cbn [DbInit.checked_out] in *. now rewrite K. }
  unfold DbInit.bootstrap.
  destruct (DbInit.initDocumentVectorTable srv s) as [[[]|e] s'] eqn:H;
    cbn [fst snd] in *.
  - split; [|exact K]. split; [reflexivity|].
    now apply DbInitFacts.init_returned in H.
  - split; [|exact K]. reflexivity.
Qed.

(** ** The earlier conversations listing *)

Example topics_of_three_conversations :
  fst (Legacy.getConversations Legacy.sample_memory [])
  = Returned (json 200 (BConversations
      [mkConversation (lit "a") (lit "Trip to Paris");
       mkConversation (lit "b") (lit "Hello there");
       mkConversation (lit "c") (lit "Untitled conversation")])).
Proof. vm_compute. reflexivity. Qed.

Section LegacyFacts.
Variable mem : Legacy.Memory.

Lemma withTopic_run (conv : Conversation) (log : list Legacy.Call) :
  Legacy.withTopic mem conv log
  = if truthy (conv_title conv) then (Returned conv, log)
    else
      (match Legacy.messages_of mem log USER_ID (conv_id conv) (Some 1) with
       | Returned msgs =>
           Returned (mkConversation (conv_id conv) (Legacy.topicOf msgs))
       | Thrown e => Thrown e
       end,
       log ++ [Legacy.ReadMessages USER_ID (conv_id conv) (Some 1)]).
Proof.
  unfold Legacy.withTopic. destruct (truthy (conv_title conv)); [reflexivity|].
  unfold Legacy.then_, Legacy.call.
  now destruct (Legacy.messages_of mem log USER_ID (conv_id conv) (Some 1)).
Qed.

Lemma withTopic_log (conv : Conversation) (log : list Legacy.Call) :
  snd (Legacy.withTopic mem conv log) = log ++ Legacy.topic_reads [conv].
Proof.
  rewrite withTopic_run. unfold Legacy.topic_reads. simpl.
  destruct (truthy (conv_title conv)); simpl; [now rewrite app_nil_r|reflexivity].
Qed.

Lemma topic_reads_app (xs ys : list Conversation) :
  Legacy.topic_reads (xs ++ ys) = Legacy.topic_reads xs ++ Legacy.topic_reads ys.
Proof. unfold Legacy.topic_reads. now rewrite filter_app, map_app. Qed.

(** The reads go out for the untitled conversations, in order, whatever
    they answer. *)
Lemma startAll_log (xs : list Conversation) :
  forall log,
    snd (Legacy.startAll (Legacy.withTopic mem) xs log)
    = log ++ Legacy.topic_reads xs.
Proof.
  induction xs as [|x xs IH]; intros log.
  - simpl. now rewrite app_nil_r.
  - cbn [Legacy.startAll].
    pose proof (withTopic_log x log) as Hx.
    destruct (Legacy.withTopic mem x log) as [r log1]. cbn [snd] in Hx.
    specialize (IH log1).
    destruct (Legacy.startAll (Legacy.withTopic mem) xs log1) as [rs log2].
    cbn [snd] in *. subst log1. rewrite IH, <- app_assoc.
    now rewrite <- topic_reads_app.
Qed.

(** The promise of the conversation at position [i] settles with what the
    callback gives when it is started after the reads for the
    conversations before it. *)
Lemma startAll_nth (xs : list Conversation) :
  forall log i c,
    nth_error xs i = Some c ->
    nth_error (fst (Legacy.startAll (Legacy.withTopic mem) xs log)) i
    = Some (fst (Legacy.withTopic mem c
                   (log ++ Legacy.topic_reads (firstn i xs)))).
Proof.
  induction xs as [|x xs IH]; intros log i c H.
  - destruct i; discriminate.
  - cbn [Legacy.startAll].
    pose proof (withTopic_log x log) as Hx.
    destruct (Legacy.withTopic mem x log) as [r log1] eqn:W. cbn [snd] in Hx.
    specialize (IH log1).
    destruct (Legacy.startAll (Legacy.withTopic mem) xs log1) as [rs log2].
    cbn [fst] in *. destruct i as [|i].
    + injection H as <-. simpl. unfold Legacy.topic_reads. simpl.
      now rewrite app_nil_r, W.
    + simpl in H. cbn [nth_error firstn]. rewrite (IH i c H). subst log1.
      rewrite <- app_assoc.
      change (x :: firstn i xs) with ([x] ++ firstn i xs).
      now rewrite topic_reads_app.
Qed.

Lemma startAll_length (xs : list Conversation) :
  forall log,
    List.length (fst (Legacy.startAll (Legacy.withTopic mem) xs log))
    = List.length xs.
Proof.
  induction xs as [|x xs IH]; intros log; [reflexivity|].
  cbn [Legacy.startAll].
  destruct (Legacy.withTopic mem x log) as [r log1].
  specialize (IH log1).
  destruct (Legacy.startAll (Legacy.withTopic mem) xs log1) as [rs log2].
  simpl in *. now rewrite IH.
Qed.

(** [Promise.all] is fulfilled only when every promise is, and then with
    their values in order. *)
Lemma promiseAll_returned {B} (rs : list (Outcome B)) (log : list Legacy.Call)
    (out : list B) :
  Legacy.promiseAll mem rs log = Returned out -> rs = map Returned out.
Proof.
  unfold Legacy.promiseAll.
  destruct (Legacy.rejections rs) as [|e es] eqn:R; [|discriminate].
  intros H. injection H as <-.
  induction rs as [|[b|e] rs IH]; simpl in *; [reflexivity| |discriminate].
  now rewrite <- IH.
Qed.

Lemma list_eqb_eq (a b : jsstring) : Pg.list_eqb N.eqb a b = true -> a = b.
Proof.
  revert b. induction a as [|x a IH]; intros [|y b]; simpl; try discriminate.
  - reflexivity.
  - intros H. apply andb_true_iff in H. destruct H as [Hx Ha].
    apply N.eqb_eq in Hx. subst y. now rewrite (IH b Ha).
Qed.

(** The texts the handler collects are the texts of the text parts. *)
Lemma filter_text_parts (ps : list (option Legacy.Part)) :
  Legacy.text_parts ps (map Legacy.textOf (filter Legacy.isTextPart ps))
  /\ Forall (fun t => t <> []) (map Legacy.textOf (filter Legacy.isTextPart ps)).
Proof.
  induction ps as [|p ps [IH IHne]]; [split; constructor|].
  cbn [filter]. destruct (Legacy.isTextPart p) eqn:E.
  - destruct p as [[ty [t|]]|]; simpl in E; try discriminate;
      try (apply andb_true_iff in E; destruct E as [_ E]; discriminate).
    apply andb_true_iff in E. destruct E as [Ety Et].
    apply list_eqb_eq in Ety. apply JSFacts.truthy_true_iff in Et.
    cbn [map Legacy.textOf Legacy.part_text Legacy.part_type orEmpty] in *.
    subst ty. split; constructor; assumption.
  - split; [|exact IHne]. apply Legacy.text_parts_skip; [|exact IH].
    intros t ->. simpl in E. now apply JSFacts.truthy_false_iff in E.
Qed.

Lemma firstText_first_parts (msgs : list Legacy.StoredMessage) :
  Legacy.firstText msgs
  = join [32%N] (map Legacy.textOf
                     (filter Legacy.isTextPart (Legacy.first_parts msgs))).
Proof.
  destruct msgs as [|m msgs]; [reflexivity|]. simpl.
  now destruct (Legacy.parts m).
Qed.

(** The derived title is the one the texts of the first message call for. *)
Lemma topicOf_spec (msgs : list Legacy.StoredMessage) :
  Legacy.topic_spec msgs (Legacy.topicOf msgs).
Proof.
  destruct (filter_text_parts (Legacy.first_parts msgs)) as [Ht Hne].
  eexists. split; [exact Ht|].
  unfold Legacy.topicOf. rewrite firstText_first_parts.
  destruct (map Legacy.textOf
              (filter Legacy.isTextPart (Legacy.first_parts msgs)))
    as [|t ts] eqn:E; [reflexivity|].
  assert (Hj : truthy (join [32%N] (t :: ts)) = true).
  { apply Forall_inv in Hne. destruct t as [|c t]; [congruence|].
    destruct (JSFacts.join_head [32%N] c t ts) as (r & Hr).
    exact (f_equal truthy Hr). }
  rewrite Hj. apply JSFacts.join_concat. discriminate.
Qed.

End LegacyFacts.

(** X18. When the earlier [/api/conversations] answers, it answers 200 with
    one conversation for each one the memory listed, in the same order. A
    conversation that has a title is passed on as it is. For one without,
    the single message read for it (after the listing and the reads for the
    untitled conversations before it) gives the title, under the same id:
    the texts of the parts of that message that are of type text and have a
    text which is not empty, in their order, with one space between every
    two of them; and the words Untitled conversation when there is no such
    part, no parts, or no message. *)
Theorem listing_gives_every_conversation_a_topic
    (mem : Legacy.Memory) (log log' : list Legacy.Call) (resp : Response) :
  Legacy.getConversations mem log = (Returned resp, log') ->
  exists listed sent_out,
    Legacy.conversations_of mem log USER_ID 50 = Returned listed
    /\ resp = json 200 (BConversations sent_out)
    /\ List.length sent_out = List.length listed
    /\ forall i c,
         nth_error listed i = Some c ->
         match conv_title c with
         | _ :: _ => nth_error sent_out i = Some c
         | [] =>
             exists msgs title,
               Legacy.messages_of mem
                 (log ++ Legacy.ListConversations USER_ID 50
                      :: Legacy.topic_reads (firstn i listed))
                 USER_ID (conv_id c) (Some 1)
               = Returned msgs
               /\ Legacy.topic_spec msgs title
               /\ nth_error sent_out i = Some (mkConversation (conv_id c) title)
         end.
Proof.
  unfold Legacy.getConversations, Legacy.then_, Legacy.call, Legacy.unit_.
  destruct (Legacy.conversations_of mem log USER_ID 50) as [listed|e];
    [|discriminate].
  unfold Legacy.promiseAllMap.
  pose proof (startAll_nth mem listed
                (log ++ [Legacy.ListConversations USER_ID 50])) as Hn.
  pose proof (startAll_length mem listed
                (log ++ [Legacy.ListConversations USER_ID 50])) as Hl.
  destruct (Legacy.startAll (Legacy.withTopic mem) listed _) as [rs log1].
  cbn [fst] in *.
  destruct (Legacy.promiseAll mem rs log1) as [out|e] eqn:R; [|discriminate].
  intros H. injection H as <- _.
  apply promiseAll_returned in R. subst rs. rewrite length_map in Hl.
  exists listed, out. split; [reflexivity|]. split; [reflexivity|].
  split; [exact Hl|].
  intros i c Hc. specialize (Hn i c Hc).
  rewrite nth_error_map, withTopic_run, <- app_assoc in Hn.
  cbn [app] in Hn.
  destruct (conv_title c) as [|x t] eqn:T; cbn [truthy fst] in Hn.
  - destruct (Legacy.messages_of mem _ USER_ID (conv_id c) (Some 1))
      as [msgs|e]; destruct (nth_error out i) as [b|]; try discriminate.
    injection Hn as ->. exists msgs, (Legacy.topicOf msgs).
    split; [reflexivity|]. split; [apply topicOf_spec|reflexivity].
  - destruct (nth_error out i) as [b|]; [|discriminate].
    now injection Hn as ->.
Qed.

Lemma listing_gives_every_conversation_a_topic_witness :
  exists listed sent_out,
    Legacy.conversations_of Legacy.sample_memory [] USER_ID 50 = Returned listed
    /\ json 200 (BConversations
         [mkConversation (lit "a") (lit "Trip to Paris");
          mkConversation (lit "b") (lit "Hello there");
          mkConversation (lit "c") (lit "Untitled conversation")])
       = json 200 (BConversations sent_out)
    /\ List.length sent_out = List.length listed
    /\ forall i c,
         nth_error listed i = Some c ->
         match conv_title c with
         | _ :: _ => nth_error sent_out i = Some c
         | [] =>
             exists msgs title,
               Legacy.messages_of Legacy.sample_memory
                 ([] ++ Legacy.ListConversations USER_ID 50
                     :: Legacy.topic_reads (firstn i listed))
                 USER_ID (conv_id c) (Some 1)
               = Returned msgs
               /\ Legacy.topic_spec msgs title
               /\ nth_error sent_out i = Some (mkConversation (conv_id c) title)
         end.
Proof.
  apply (listing_gives_every_conversation_a_topic Legacy.sample_memory []
           (snd (Legacy.getConversations Legacy.sample_memory []))).
  vm_compute. reflexivity.
Defined.

(** The title of the sample message, by the rule alone: its two text parts
    with a text give Hello there. *)
Example hello_topic :
  forall title,
    Legacy.topic_spec [Legacy.hello_message] title -> title = lit "Hello there".
Proof.
  intros title (texts & Ht & Hj). unfold Legacy.hello_message in Ht.
  cbn [Legacy.first_parts Legacy.parts] in Ht.
  assert (Hx : texts = [lit "Hello"; lit "there"]).
  { inversion Ht as [|t ps ts Hne Ht1|p ps ts Hp Ht1]; subst; clear Ht.
    inversion Ht1 as [|t ps ts Hne Ht2|p ps ts Hp2 Ht2]; subst; clear Ht1.
    inversion Ht2 as [|t ps ts Hne Ht3|p ps ts Hp3 Ht3]; subst; clear Ht2.
    - inversion Ht3 as [|t' ps ts' Hne' Ht4|p ps ts' Hp4 Ht4]; subst; clear Ht3.
      + congruence.
      + inversion Ht4 as [|t' ps ts'' Hne' Ht5|p ps ts'' Hp5 Ht5]; subst; clear Ht4.
        * inversion Ht5; subst. reflexivity.
        * specialize (Hp5 _ eq_refl). discriminate.
    - specialize (Hp3 _ eq_refl). discriminate. }
  subst texts. simpl in Hj. now injection Hj as ->.
Qed.

(** X19. The earlier [/api/conversations] reads the memory as little as it
    can: after the one listing call it reads a single message of each listed
    conversation that has no title, in the order of the listing, and nothing
    of a conversation that has one; all of it for the one constant user.
    These reads all go out, whatever any of them answers. When the listing
    itself fails there is no further call. *)
Theorem listing_reads_one_message_per_untitled
    (mem : Legacy.Memory) (log : list Legacy.Call) :
  snd (Legacy.getConversations mem log)
  = log
    ++ Legacy.ListConversations USER_ID 50
       :: match Legacy.conversations_of mem log USER_ID 50 with
          | Returned listed => Legacy.topic_reads listed
          | Thrown _ => []
          end.
Proof.
  unfold Legacy.getConversations, Legacy.then_, Legacy.call, Legacy.unit_.
  destruct (Legacy.conversations_of mem log USER_ID 50) as [listed|e];
    [|reflexivity].
  unfold Legacy.promiseAllMap.
  pose proof (startAll_log mem listed
                (log ++ [Legacy.ListConversations USER_ID 50])) as H.
  destruct (Legacy.startAll (Legacy.withTopic mem) listed _) as [rs log1].
  cbn [snd] in H.
  destruct (Legacy.promiseAll mem rs log1); simpl; now rewrite H, <- app_assoc.
Qed.

(** With the read of conversation b failing, the handler throws, and the
    read of conversation c has gone out all the same. *)
Example listing_fails_as_a_whole :
  Legacy.getConversations Legacy.failing_memory []
  = (Thrown (MemoryError (lit "timeout")),
     [Legacy.ListConversations USER_ID 50;
      Legacy.ReadMessages USER_ID (lit "b") (Some 1);
      Legacy.ReadMessages USER_ID (lit "c") (Some 1)]).
Proof. vm_compute. reflexivity. Qed.

(** With both reads failing, the handler throws the rejection that came
    first in time, here that of the read made last. *)
Example listing_fails_with_the_first_rejection :
  fst (Legacy.getConversations Legacy.racing_memory [])
  = Thrown (MemoryError (lit "refused")).
Proof. vm_compute. reflexivity. Qed.

(** ** Where an ingestion stops *)

(** X21. The table takes 1536-dimensional vectors only. If, after the
    rounds of the chunks before it have completed, the provider answers a
    chunk with a vector of another length and the pool is reachable, the
    INSERT goes out and is rejected, [ingestDocumentText] throws that
    rejection, no row is stored for the chunk, and the rows of the earlier
    chunks stay. *)
Theorem wrong_dimension_is_rejected_by_the_table
    (env : Env) (text : jsstring) (w w1 w2 : World)
    (pre : list jsstring) (chunk : jsstring) (post : list jsstring)
    (e : Embedding) :
  trim text <> [] ->
  splitText env (trim text) = pre ++ chunk :: post ->
  ingestFrom env pre 0 w = (Returned tt, w1) ->
  getEmbedding env chunk w1 = (Returned e, w2) ->
  List.length e <> VECTOR_DIMENSIONS ->
  pg_fault env (trace w2) = None ->
  ingestDocumentText env text w
  = (Thrown (PgError "22000"),
     record_call
       (PoolQuery insertSql
          [PText chunk; PVectorLiteral e; PNumber (Z.of_nat (List.length pre))])
       w2)
  /\ documents w2 = documents w1.
Proof.
  intros Ht Hs Hp Hg Hd Hf. apply JSFacts.truthy_true_iff in Ht.
  split.
  - rewrite ingestDocumentText_run, Ht, Hs, ingestFrom_app, Hp. simpl.
    unfold bind at 1. unfold ingestChunk, bind. rewrite Hg.
    rewrite PgFacts.pool_query_insert. cbv zeta. rewrite Hf.
    apply Nat.eqb_neq in Hd. now rewrite Hd.
  - destruct (keeps_table_getEmbedding env chunk w1) as [H _].
    now rewrite Hg in H.
Qed.

Lemma wrong_dimension_is_rejected_by_the_table_witness :
  ingestDocumentText short_vectors Demo.sky_question Demo.empty_world
  = (Thrown (PgError "22000"),
     record_call
       (PoolQuery insertSql
          [PText (lit "What color is th"); PVectorLiteral [1%Q; 0%Q; 0%Q];
           PNumber (Z.of_nat (List.length (@nil jsstring)))])
       (record_call (EmbeddingsCreate EMBEDDING_MODEL (lit "What color is th"))
                    Demo.empty_world))
  /\ documents (record_call (EmbeddingsCreate EMBEDDING_MODEL (lit "What color is th"))
                            Demo.empty_world)
     = documents Demo.empty_world.
Proof.
  apply (wrong_dimension_is_rejected_by_the_table short_vectors Demo.sky_question
           Demo.empty_world Demo.empty_world
           (record_call (EmbeddingsCreate EMBEDDING_MODEL (lit "What color is th"))
                        Demo.empty_world)
           [] (lit "What color is th") [lit "e sky?"] [1%Q; 0%Q; 0%Q]).
  - vm_compute. discriminate.
  - vm_compute. reflexivity.
  - reflexivity.
  - vm_compute. reflexivity.
  - vm_compute. discriminate.
  - reflexivity.
Defined.

(** X22. A failed upload stops [/api/mm-chat] at once: when ingesting the
    file's text throws, the handler throws that error in the world the
    ingestion left, and up to then only embedding requests and INSERTs went
    out: no marker was written to the conversation and nothing was asked of
    the agent. *)
Theorem failed_upload_stops_mm_chat
    (env : Env) (f : MultipartForm) (w w1 : World) (t : jsstring) (e : Exn) :
  form_file f = Some t ->
  ingestDocumentText env t w = (Thrown e, w1) ->
  postMmChat env f w = (Thrown e, w1)
  /\ exists calls,
       trace w1 = trace w ++ calls
       /\ Forall (fun c => event_user c = None /\ event_conversation c = None) calls.
Proof.
  intros Hf Hi.
  assert (Hn : truthy (trim t) = true).
  { destruct (truthy (trim t)) eqn:T; [reflexivity|].
    apply JSFacts.truthy_false_iff in T.
    rewrite ingestDocumentText_run, T in Hi. discriminate. }
  split.
  - rewrite postMmChat_run. cbv zeta. rewrite Hf. cbn [orEmpty].
    unfold ingestUpload. rewrite Hn. unfold bind at 1. now rewrite Hi.
  - destruct (only_calls_ingestDocumentText env
                (fun c => event_user c = None /\ event_conversation c = None))
      with (text := t) (w := w) as (calls & Hc & Hall).
    + intros. now split.
    + intros. now split.
    + rewrite Hi in Hc. now exists calls.
Qed.

Lemma failed_upload_stops_mm_chat_witness :
  postMmChat Demo.provider_down (mkMultipartForm (Some Demo.sky_text) None None)
    Demo.empty_world
  = (Thrown (ProviderError (lit "503")),
     record_call (EmbeddingsCreate EMBEDDING_MODEL (lit "The sky is blue."))
                 Demo.empty_world)
  /\ exists calls,
       trace (record_call (EmbeddingsCreate EMBEDDING_MODEL (lit "The sky is blue."))
                          Demo.empty_world)
       = trace Demo.empty_world ++ calls
       /\ Forall (fun c => event_user c = None /\ event_conversation c = None) calls.
Proof.
  apply (failed_upload_stops_mm_chat Demo.provider_down
           (mkMultipartForm (Some Demo.sky_text) None None) Demo.empty_world
           (record_call (EmbeddingsCreate EMBEDDING_MODEL (lit "The sky is blue."))
                        Demo.empty_world)
           Demo.sky_text (ProviderError (lit "503"))).
  - reflexivity.
  - vm_compute. reflexivity.
Defined.
